(** * omni-email: the mailbox router (routes/mailboxRouter.js)

    A shallow embedding of the encrypted credential store, the account
    handlers and the live inbox watcher of [routes/mailboxRouter.js], with
    the primitives of Node's [crypto] module it calls (HKDF-SHA256 and
    AES-256-GCM) written out, followed by the properties of the
    specification that were checked against them.

    Conventions.
    - A JavaScript string is a [string]; each [ascii] is one code unit of
      its UTF-8 form, so [Buffer.from(s, "utf8")] is the list of its
      characters. The addresses the schemas accept are ASCII, for which
      this length is JavaScript's.
    - A [Buffer] is a [list ascii]; inside the ciphers a byte is a [Z] in
      [0, 256) and a 32-bit or 128-bit word is a [Z] with the wrap-around
      written out.
    - A thrown [Error] is the [Err] branch of [result]; the handlers turn
      it into a 400 response as their [catch] blocks do.
    - [crypto.randomBytes] and [new Date()] are inputs of the functions
      that call them.
    - A handler or a callback runs to completion. The two places where the
      source suspends and a property depends on what runs in between are
      steps of their own: the connection a new watcher opens, and the
      fetch inside the "exists" listener.
    - The routes embedded are the ones the properties are about: create,
      list, read, update, delete, test, send, watch start and stop, and the
      stream; of [GET /accounts/:id/messages], the page it fetches. *)

From Stdlib Require Import ZArith List String Ascii Lia Bool.
From Stdlib Require DecimalPos DecimalFacts DecimalZ.
From stdpp Require Import gmap strings list fin_maps.
Import ListNotations.
Local Open Scope Z_scope.

(** ** Bytes *)

Definition Z_of_ascii (c : ascii) : Z := Z.of_N (N_of_ascii c).
Definition ascii_of_Z (z : Z) : ascii := ascii_of_N (Z.to_N (z mod 256)).

Definition bytes_of_buffer (b : list ascii) : list Z := map Z_of_ascii b.
Definition buffer_of_bytes (l : list Z) : list ascii := map ascii_of_Z l.

Definition xor_ascii (a b : ascii) : ascii :=
  match a, b with
  | Ascii a0 a1 a2 a3 a4 a5 a6 a7, Ascii b0 b1 b2 b3 b4 b5 b6 b7 =>
      Ascii (xorb a0 b0) (xorb a1 b1) (xorb a2 b2) (xorb a3 b3)
            (xorb a4 b4) (xorb a5 b5) (xorb a6 b6) (xorb a7 b7)
  end.

(** Big-endian packing of bytes into one integer, and back to [n] bytes. *)
Definition be_to_Z (l : list Z) : Z :=
  fold_left (fun acc b => Z.lor (Z.shiftl acc 8) b) l 0.

Fixpoint Z_to_be (n : nat) (x : Z) : list Z :=
  match n with
  | O => []
  | S k => Z_to_be k (Z.shiftr x 8) ++ [Z.land x 255]
  end.

Fixpoint chunks {A} (fuel : nat) (n : nat) (l : list A) : list (list A) :=
  match fuel with
  | O => []
  | S f =>
      match l with
      | [] => []
      | _ => firstn n l :: chunks f n (skipn n l)
      end
  end.

Definition chunked {A} (n : nat) (l : list A) : list (list A) :=
  chunks (length l) n l.

(** ** SHA-256 (FIPS 180-4), as [crypto.hkdfSync("sha256", ...)] uses it *)

Module SHA256.

Definition mask32 : Z := 4294967295.
Definition add32 (a b : Z) : Z := Z.land (a + b) mask32.
Definition rotr (n x : Z) : Z :=
  Z.lor (Z.shiftr x n) (Z.land (Z.shiftl x (32 - n)) mask32).
Definition not32 (x : Z) : Z := Z.lxor x mask32.

Definition Ch (x y z : Z) : Z := Z.lxor (Z.land x y) (Z.land (not32 x) z).
Definition Maj (x y z : Z) : Z :=
  Z.lxor (Z.lxor (Z.land x y) (Z.land x z)) (Z.land y z).
Definition Sigma0 (x : Z) : Z := Z.lxor (Z.lxor (rotr 2 x) (rotr 13 x)) (rotr 22 x).
Definition Sigma1 (x : Z) : Z := Z.lxor (Z.lxor (rotr 6 x) (rotr 11 x)) (rotr 25 x).
Definition sigma0 (x : Z) : Z := Z.lxor (Z.lxor (rotr 7 x) (rotr 18 x)) (Z.shiftr x 3).
Definition sigma1 (x : Z) : Z := Z.lxor (Z.lxor (rotr 17 x) (rotr 19 x)) (Z.shiftr x 10).

Definition K256 : list Z :=
  [ 1116352408; 1899447441; 3049323471; 3921009573; 961987163; 1508970993;
    2453635748; 2870763221; 3624381080; 310598401; 607225278; 1426881987;
    1925078388; 2162078206; 2614888103; 3248222580; 3835390401; 4022224774;
    264347078; 604807628; 770255983; 1249150122; 1555081692; 1996064986;
    2554220882; 2821834349; 2952996808; 3210313671; 3336571891; 3584528711;
    113926993; 338241895; 666307205; 773529912; 1294757372; 1396182291;
    1695183700; 1986661051; 2177026350; 2456956037; 2730485921; 2820302411;
    3259730800; 3345764771; 3516065817; 3600352804; 4094571909; 275423344;
    430227734; 506948616; 659060556; 883997877; 958139571; 1322822218;
    1537002063; 1747873779; 1955562222; 2024104815; 2227730452; 2361852424;
    2428436474; 2756734187; 3204031479; 3329325298 ].

Definition H0 : list Z :=
  [ 1779033703; 3144134277; 1013904242; 2773480762;
    1359893119; 2600822924; 528734635; 1541459225 ].

Record regs := Regs { ra : Z; rb : Z; rc : Z; rd : Z; re : Z; rf : Z; rg : Z; rh : Z }.

Definition round (k w : Z) (s : regs) : regs :=
  let t1 := add32 (add32 (add32 (rh s) (Sigma1 (re s))) (Ch (re s) (rf s) (rg s)))
                  (add32 k w) in
  let t2 := add32 (Sigma0 (ra s)) (Maj (ra s) (rb s) (rc s)) in
  Regs (add32 t1 t2) (ra s) (rb s) (rc s) (add32 (rd s) t1) (re s) (rf s) (rg s).

(** [w] is the sliding window W_t .. W_{t+15} of the message schedule. *)
Fixpoint rounds (ks : list Z) (w : list Z) (s : regs) : regs :=
  match ks with
  | [] => s
  | k :: ks' =>
      let w0 := nth 0 w 0 in
      let wnew := add32 (add32 (sigma1 (nth 14 w 0)) (nth 9 w 0))
                        (add32 (sigma0 (nth 1 w 0)) w0) in
      rounds ks' (tl w ++ [wnew]) (round k w0 s)
  end.

Definition regs_of (h : list Z) : regs :=
  Regs (nth 0 h 0) (nth 1 h 0) (nth 2 h 0) (nth 3 h 0)
       (nth 4 h 0) (nth 5 h 0) (nth 6 h 0) (nth 7 h 0).

Definition compress (h : list Z) (block : list Z) : list Z :=
  let w := map be_to_Z (chunked 4 block) in
  let s := rounds K256 w (regs_of h) in
  [ add32 (nth 0 h 0) (ra s); add32 (nth 1 h 0) (rb s);
    add32 (nth 2 h 0) (rc s); add32 (nth 3 h 0) (rd s);
    add32 (nth 4 h 0) (re s); add32 (nth 5 h 0) (rf s);
    add32 (nth 6 h 0) (rg s); add32 (nth 7 h 0) (rh s) ].

Definition pad (msg : list Z) : list Z :=
  let len := Z.of_nat (length msg) in
  msg ++ [128] ++ repeat 0 (Z.to_nat ((55 - len) mod 64)) ++ Z_to_be 8 (8 * len).

Definition hash (msg : list Z) : list Z :=
  concat (map (Z_to_be 4) (fold_left compress (chunked 64 (pad msg)) H0)).

End SHA256.

(** ** HMAC-SHA256 (RFC 2104) and HKDF (RFC 5869) *)

Definition hmac_sha256 (key msg : list Z) : list Z :=
  let k0 := if (64 <? length key)%nat then SHA256.hash key else key in
  let k := k0 ++ repeat 0 (64 - length k0)%nat in
  SHA256.hash (map (Z.lxor 92) k ++ SHA256.hash (map (Z.lxor 54) k ++ msg)).

Definition hkdf_extract (salt ikm : list Z) : list Z :=
  hmac_sha256 (match salt with [] => repeat 0 32%nat | _ => salt end) ikm.

Fixpoint hkdf_blocks (n : nat) (i : Z) (prk info prev : list Z) : list Z :=
  match n with
  | O => []
  | S k =>
      let t := hmac_sha256 prk (prev ++ info ++ [i]) in
      t ++ hkdf_blocks k (i + 1) prk info t
  end.

Definition hkdf_expand (prk info : list Z) (len : nat) : list Z :=
  firstn len (hkdf_blocks ((len + 31) / 32)%nat 1 prk info []).

(** [crypto.hkdfSync("sha256", ikm, salt, info, len)]. *)
Definition hkdfSync_sha256 (ikm salt info : list Z) (len : nat) : list Z :=
  hkdf_expand (hkdf_extract salt ikm) info len.

(** ** AES-256 block encryption (FIPS 197)

    GCM uses only the forward direction of the cipher. The 16 bytes of a
    block are kept in input order, which is column-major for the state. *)

Module AES.

Definition SBOX : list Z :=
  [ 99; 124; 119; 123; 242; 107; 111; 197; 48; 1; 103; 43; 254; 215; 171; 118;
    202; 130; 201; 125; 250; 89; 71; 240; 173; 212; 162; 175; 156; 164; 114; 192;
    183; 253; 147; 38; 54; 63; 247; 204; 52; 165; 229; 241; 113; 216; 49; 21;
    4; 199; 35; 195; 24; 150; 5; 154; 7; 18; 128; 226; 235; 39; 178; 117;
    9; 131; 44; 26; 27; 110; 90; 160; 82; 59; 214; 179; 41; 227; 47; 132;
    83; 209; 0; 237; 32; 252; 177; 91; 106; 203; 190; 57; 74; 76; 88; 207;
    208; 239; 170; 251; 67; 77; 51; 133; 69; 249; 2; 127; 80; 60; 159; 168;
    81; 163; 64; 143; 146; 157; 56; 245; 188; 182; 218; 33; 16; 255; 243; 210;
    205; 12; 19; 236; 95; 151; 68; 23; 196; 167; 126; 61; 100; 93; 25; 115;
    96; 129; 79; 220; 34; 42; 144; 136; 70; 238; 184; 20; 222; 94; 11; 219;
    224; 50; 58; 10; 73; 6; 36; 92; 194; 211; 172; 98; 145; 149; 228; 121;
    231; 200; 55; 109; 141; 213; 78; 169; 108; 86; 244; 234; 101; 122; 174; 8;
    186; 120; 37; 46; 28; 166; 180; 198; 232; 221; 116; 31; 75; 189; 139; 138;
    112; 62; 181; 102; 72; 3; 246; 14; 97; 53; 87; 185; 134; 193; 29; 158;
    225; 248; 152; 17; 105; 217; 142; 148; 155; 30; 135; 233; 206; 85; 40; 223;
    140; 161; 137; 13; 191; 230; 66; 104; 65; 153; 45; 15; 176; 84; 187; 22 ].

Definition RCON : list Z := [1; 2; 4; 8; 16; 32; 64].

Definition sub_byte (x : Z) : Z := nth (Z.to_nat x) SBOX 0.
Definition xor_bytes (a b : list Z) : list Z := zip_with Z.lxor a b.

Definition rot_word (w : list Z) : list Z := tl w ++ firstn 1 w.

(** Key expansion for Nk = 8: [ws] holds the words produced so far. *)
Fixpoint expand_words (fuel : nat) (i : nat) (ws : list (list Z)) : list (list Z) :=
  match fuel with
  | O => ws
  | S f =>
      let prev := nth (i - 1) ws [] in
      let temp :=
        if (i mod 8 =? 0)%nat then
          xor_bytes (map sub_byte (rot_word prev)) [nth (i / 8 - 1) RCON 0; 0; 0; 0]
        else if (i mod 8 =? 4)%nat then map sub_byte prev
        else prev in
      expand_words f (S i) (ws ++ [xor_bytes (nth (i - 8) ws []) temp])
  end.

Definition key_schedule (key : list Z) : list (list Z) :=
  chunked 16 (concat (expand_words 52 8 (chunked 4 key))).

Definition xtime (a : Z) : Z :=
  Z.land (Z.lxor (Z.shiftl a 1) (if Z.testbit a 7 then 27 else 0)) 255.

Definition shift_rows (s : list Z) : list Z :=
  map (fun i => nth i s 0)
      [0; 5; 10; 15; 4; 9; 14; 3; 8; 13; 2; 7; 12; 1; 6; 11]%nat.

Definition mix_column (c : list Z) : list Z :=
  let a0 := nth 0 c 0 in let a1 := nth 1 c 0 in
  let a2 := nth 2 c 0 in let a3 := nth 3 c 0 in
  [ Z.lxor (Z.lxor (xtime a0) (Z.lxor (xtime a1) a1)) (Z.lxor a2 a3);
    Z.lxor (Z.lxor a0 (xtime a1)) (Z.lxor (Z.lxor (xtime a2) a2) a3);
    Z.lxor (Z.lxor a0 a1) (Z.lxor (xtime a2) (Z.lxor (xtime a3) a3));
    Z.lxor (Z.lxor (Z.lxor (xtime a0) a0) a1) (Z.lxor a2 (xtime a3)) ].

Definition mix_columns (s : list Z) : list Z :=
  concat (map mix_column (chunked 4 s)).

Fixpoint middle_rounds (rks : list (list Z)) (s : list Z) : list Z :=
  match rks with
  | [] => s
  | [last] => xor_bytes (shift_rows (map sub_byte s)) last
  | rk :: rest =>
      middle_rounds rest (xor_bytes (mix_columns (shift_rows (map sub_byte s))) rk)
  end.

(** Encryption of one 16-byte block under an expanded key. *)
Definition cipher (rks : list (list Z)) (block : list Z) : list Z :=
  match rks with
  | [] => block
  | rk0 :: rest => middle_rounds rest (xor_bytes block rk0)
  end.

Definition encrypt_block (key block : list Z) : list Z :=
  cipher (key_schedule key) block.

End AES.

(** ** GCM (NIST SP 800-38D) over AES-256 with a 16-byte tag *)

Module GCM.

Definition R : Z := Z.shiftl 225 120.

(** Multiplication in GF(2^128), blocks as big-endian integers: bit 0 of
    the standard is the most significant bit here. *)
Fixpoint gf_mul_loop (n : nat) (x v z : Z) : Z :=
  match n with
  | O => z
  | S k =>
      let z' := if Z.testbit x (Z.of_nat k) then Z.lxor z v else z in
      let v' := if Z.testbit v 0 then Z.lxor (Z.shiftr v 1) R else Z.shiftr v 1 in
      gf_mul_loop k x v' z'
  end.

Definition gf_mul (x y : Z) : Z := gf_mul_loop 128 x y 0.

Definition pad16 (l : list Z) : list Z :=
  l ++ repeat 0 (Z.to_nat ((- Z.of_nat (length l)) mod 16)).

Definition ghash_blocks (h : Z) (data : list Z) : Z :=
  fold_left (fun y blk => gf_mul (Z.lxor y (be_to_Z blk)) h) (chunked 16 data) 0.

Definition ghash (h : Z) (aad ct : list Z) : Z :=
  ghash_blocks h
    (pad16 aad ++ pad16 ct
       ++ Z_to_be 8 (8 * Z.of_nat (length aad))
       ++ Z_to_be 8 (8 * Z.of_nat (length ct))).

Definition inc32 (cb : Z) : Z :=
  Z.lor (Z.shiftl (Z.shiftr cb 32) 32) (Z.land (Z.land cb 4294967295 + 1) 4294967295).

(** The pre-counter block J0: [iv || 0^31 || 1] for a 12-byte iv, and the
    GHASH of the padded iv and its bit length otherwise. *)
Definition j0 (h : Z) (iv : list Z) : Z :=
  if (length iv =? 12)%nat then Z.lor (Z.shiftl (be_to_Z iv) 32) 1
  else ghash_blocks h (pad16 iv ++ Z_to_be 16 (8 * Z.of_nat (length iv))).

(** The block cipher on 128-bit integers. *)
Definition E (rks : list (list Z)) (x : Z) : Z :=
  be_to_Z (AES.cipher rks (Z_to_be 16 x)).

(** Key stream of [n] blocks starting at counter block [cb]. *)
Fixpoint keystream (rks : list (list Z)) (n : nat) (cb : Z) : list Z :=
  match n with
  | O => []
  | S k => Z_to_be 16 (E rks cb) ++ keystream rks k (inc32 cb)
  end.

Definition gctr (rks : list (list Z)) (icb : Z) (data : list ascii) : list ascii :=
  zip_with xor_ascii data
    (buffer_of_bytes (keystream rks ((length data + 15) / 16)%nat icb)).

Definition tag (rks : list (list Z)) (iv aad : list Z) (ct : list ascii) : list ascii :=
  let h := E rks 0 in
  let s := ghash h aad (bytes_of_buffer ct) in
  buffer_of_bytes (Z_to_be 16 (Z.lxor s (E rks (j0 h iv)))).

Definition encrypt (key iv aad : list ascii) (pt : list ascii)
  : list ascii * list ascii :=
  let rks := AES.key_schedule (bytes_of_buffer key) in
  let ivb := bytes_of_buffer iv in
  let ct := gctr rks (inc32 (j0 (E rks 0) ivb)) pt in
  (ct, tag rks ivb (bytes_of_buffer aad) ct).

(** [decipher.final()] throws when the tag does not verify, and the
    plaintext is released only after that check: [None] is that throw. *)
Definition decrypt (key iv aad : list ascii) (ct tg : list ascii)
  : option (list ascii) :=
  let rks := AES.key_schedule (bytes_of_buffer key) in
  let ivb := bytes_of_buffer iv in
  if decide (tag rks ivb (bytes_of_buffer aad) ct = tg)
  then Some (gctr rks (inc32 (j0 (E rks 0) ivb)) ct)
  else None.

End GCM.

(** ** Base64, as [buf.toString("base64")] and [Buffer.from(s, "base64")]

    The encoder is RFC 4648 with "=" padding. The decoder is Node's lenient
    one: it reads the string one UTF-16 code unit after the other and keeps
    the low byte of each, so that a character above U+00FF counts as the
    character of its low byte; it reads both the standard and the URL-safe
    alphabet, skips every other character and stops at the first "=". *)

Local Open Scope char_scope.
Local Open Scope Z_scope.

Definition b64_alphabet : list ascii :=
  list_ascii_of_string
    "ABCDEFGHIJKLMNOPQRSTUVWXYZabcdefghijklmnopqrstuvwxyz0123456789+/"%string.

Definition b64_char (d : Z) : ascii := nth (Z.to_nat d) b64_alphabet "=".

Definition unbase64 (c : ascii) : option Z :=
  let n := Z_of_ascii c in
  if (65 <=? n) && (n <=? 90) then Some (n - 65)
  else if (97 <=? n) && (n <=? 122) then Some (n - 71)
  else if (48 <=? n) && (n <=? 57) then Some (n + 4)
  else if (n =? 43) || (n =? 45) then Some 62
  else if (n =? 47) || (n =? 95) then Some 63
  else None.

Fixpoint b64_sextets (l : list Z) : list Z :=
  match l with
  | a :: b :: c :: rest =>
      a / 4 :: (a mod 4) * 16 + b / 16 :: (b mod 16) * 4 + c / 64 :: c mod 64
        :: b64_sextets rest
  | [a; b] => [a / 4; (a mod 4) * 16 + b / 16; (b mod 16) * 4]
  | [a] => [a / 4; (a mod 4) * 16]
  | [] => []
  end.

Definition b64_padding (n : nat) : list ascii :=
  match (n mod 3)%nat with
  | 1%nat => ["="; "="]
  | 2%nat => ["="]
  | _ => []
  end.

Definition base64_encode (buf : list ascii) : string :=
  string_of_list_ascii
    (map b64_char (b64_sextets (bytes_of_buffer buf)) ++ b64_padding (length buf)).

Fixpoint b64_digits (s : list ascii) : list Z :=
  match s with
  | [] => []
  | c :: r =>
      if Ascii.eqb c "=" then []
      else match unbase64 c with
           | Some d => d :: b64_digits r
           | None => b64_digits r
           end
  end.

Fixpoint b64_groups (d : list Z) : list Z :=
  match d with
  | d0 :: d1 :: d2 :: d3 :: rest =>
      d0 * 4 + d1 / 16 :: (d1 mod 16) * 16 + d2 / 4 :: (d2 mod 4) * 64 + d3
        :: b64_groups rest
  | [d0; d1; d2] => [d0 * 4 + d1 / 16; (d1 mod 16) * 16 + d2 / 4]
  | [d0; d1] => [d0 * 4 + d1 / 16]
  | _ => []
  end.

(** The UTF-16 code units of the string whose UTF-8 form is [s]; a
    character outside the basic plane is its two surrogates. A byte that
    starts no character of a UTF-8 text stands for itself. *)
Fixpoint utf16_units (s : list ascii) : list Z :=
  match s with
  | [] => []
  | c :: r =>
      let n := Z_of_ascii c in
      if n <? 192 then n :: utf16_units r
      else
        match r with
        | c1 :: r1 =>
            let n1 := Z_of_ascii c1 mod 64 in
            if n <? 224 then (n - 192) * 64 + n1 :: utf16_units r1
            else
              match r1 with
              | c2 :: r2 =>
                  let n2 := Z_of_ascii c2 mod 64 in
                  if n <? 240 then (n - 224) * 4096 + n1 * 64 + n2 :: utf16_units r2
                  else
                    match r2 with
                    | c3 :: r3 =>
                        let n3 := Z_of_ascii c3 mod 64 in
                        let cp := ((n - 240) mod 8) * 262144 + n1 * 4096 + n2 * 64 + n3 in
                        55296 + (cp - 65536) / 1024 :: 56320 + (cp - 65536) mod 1024
                          :: utf16_units r3
                    | [] => [n]
                    end
              | [] => [n]
              end
        | [] => [n]
        end
  end.

(** What the decoder sees of a string: the low byte of each code unit. *)
Definition low_bytes (s : string) : list ascii :=
  map ascii_of_Z (utf16_units (list_ascii_of_string s)).

Definition base64_decode (s : string) : list ascii :=
  buffer_of_bytes (b64_groups (b64_digits (low_bytes s))).

(** ** JSON values, [JSON.stringify] and [JSON.parse]

    A number is an integer, the only numbers a validated payload holds
    (JavaScript writes one of magnitude 10^21 or more with an exponent,
    which reads back as the same number; here every integer is written in
    full). An object is the list of its members in insertion order. *)

#[local] Set Warnings "-register-all".

Inductive json : Type :=
| JNull
| JBool (b : bool)
| JNum (n : Z)
| JStr (s : string)
| JArr (items : list json)
| JObj (members : list (string * json)).

Definition hex_digit (d : Z) : ascii :=
  nth (Z.to_nat d) (list_ascii_of_string "0123456789abcdef"%string) "0".

(** The escapes of [JSON.stringify]'s QuoteJSONString. *)
Definition escape_char (c : ascii) : list ascii :=
  let n := Z_of_ascii c in
  if n =? 34 then ["\"; "034"]
  else if n =? 92 then ["\"; "\"]
  else if n =? 8 then ["\"; "b"]
  else if n =? 12 then ["\"; "f"]
  else if n =? 10 then ["\"; "n"]
  else if n =? 13 then ["\"; "r"]
  else if n =? 9 then ["\"; "t"]
  else if n <? 32 then ["\"; "u"; "0"; "0"; hex_digit (n / 16); hex_digit (n mod 16)]
  else [c].

Definition quote_string (s : string) : list ascii :=
  "034" :: flat_map escape_char (list_ascii_of_string s) ++ ["034"].

Fixpoint digits_of_uint (d : Decimal.uint) : list ascii :=
  match d with
  | Decimal.Nil => []
  | Decimal.D0 r => "0" :: digits_of_uint r
  | Decimal.D1 r => "1" :: digits_of_uint r
  | Decimal.D2 r => "2" :: digits_of_uint r
  | Decimal.D3 r => "3" :: digits_of_uint r
  | Decimal.D4 r => "4" :: digits_of_uint r
  | Decimal.D5 r => "5" :: digits_of_uint r
  | Decimal.D6 r => "6" :: digits_of_uint r
  | Decimal.D7 r => "7" :: digits_of_uint r
  | Decimal.D8 r => "8" :: digits_of_uint r
  | Decimal.D9 r => "9" :: digits_of_uint r
  end.

Definition print_Z (z : Z) : list ascii :=
  match Z.to_int z with
  | Decimal.Pos d => digits_of_uint d
  | Decimal.Neg d => "-" :: digits_of_uint d
  end.

Section Join.

Context {A : Type} (chars_of : A -> list ascii).

(** The elements of [l] written by [chars_of], separated by commas. *)
Fixpoint join_chars (l : list A) : list ascii :=
  match l with
  | [] => []
  | [x] => chars_of x
  | x :: r => chars_of x ++ "," :: join_chars r
  end.

End Join.

Fixpoint stringify_chars (j : json) : list ascii :=
  match j with
  | JNull => list_ascii_of_string "null"%string
  | JBool true => list_ascii_of_string "true"%string
  | JBool false => list_ascii_of_string "false"%string
  | JNum n => print_Z n
  | JStr s => quote_string s
  | JArr items => "[" :: join_chars stringify_chars items ++ ["]"]
  | JObj members =>
      "{" :: join_chars (fun m => quote_string (fst m) ++ ":" :: stringify_chars (snd m))
               members ++ ["}"]
  end.

Definition JSON_stringify (j : json) : string :=
  string_of_list_ascii (stringify_chars j).

(** *** [JSON.parse] *)

Definition is_ws (c : ascii) : bool :=
  let n := Z_of_ascii c in (n =? 32) || (n =? 9) || (n =? 10) || (n =? 13).

Fixpoint skip_ws (s : list ascii) : list ascii :=
  match s with
  | c :: r => if is_ws c then skip_ws r else s
  | [] => []
  end.

Fixpoint strip_prefix (p s : list ascii) : option (list ascii) :=
  match p with
  | [] => Some s
  | a :: p' =>
      match s with
      | b :: s' => if Ascii.eqb a b then strip_prefix p' s' else None
      | [] => None
      end
  end.

Definition hex_value (c : ascii) : option Z :=
  let n := Z_of_ascii c in
  if (48 <=? n) && (n <=? 57) then Some (n - 48)
  else if (97 <=? n) && (n <=? 102) then Some (n - 87)
  else if (65 <=? n) && (n <=? 70) then Some (n - 55)
  else None.

Definition hex4 (a b c d : ascii) : option Z :=
  match hex_value a, hex_value b, hex_value c, hex_value d with
  | Some x, Some y, Some z, Some w => Some (((x * 16 + y) * 16 + z) * 16 + w)
  | _, _, _, _ => None
  end.

Definition unescape (e : ascii) : option ascii :=
  let n := Z_of_ascii e in
  if n =? 34 then Some "034"
  else if n =? 92 then Some "\"
  else if n =? 47 then Some "/"
  else if n =? 98 then Some (ascii_of_Z 8)
  else if n =? 102 then Some (ascii_of_Z 12)
  else if n =? 110 then Some (ascii_of_Z 10)
  else if n =? 114 then Some (ascii_of_Z 13)
  else if n =? 116 then Some (ascii_of_Z 9)
  else None.

(** What a string literal denotes, one item per source character or
    escape: a byte of the text, or the UTF-16 code unit of a [\u] escape. *)
Inductive str_item : Type :=
| Raw (c : ascii)
| Unit16 (n : Z).

(** The body of a string literal, after its opening quote. *)
Fixpoint parse_string_body (s : list ascii) : option (list str_item * list ascii) :=
  match s with
  | [] => None
  | c :: r =>
      if Ascii.eqb c "034" then Some ([], r)
      else if Ascii.eqb c "\" then
        match r with
        | [] => None
        | e :: r2 =>
            if Ascii.eqb e "u" then
              match r2 with
              | h1 :: h2 :: h3 :: h4 :: r3 =>
                  match hex4 h1 h2 h3 h4 with
                  | Some n =>
                      match parse_string_body r3 with
                      | Some (items, rest) => Some (Unit16 n :: items, rest)
                      | None => None
                      end
                  | None => None
                  end
              | _ => None
              end
            else
              match unescape e with
              | Some c' =>
                  match parse_string_body r2 with
                  | Some (items, rest) => Some (Raw c' :: items, rest)
                  | None => None
                  end
              | None => None
              end
        end
      else if Z_of_ascii c <? 32 then None
      else
        match parse_string_body r with
        | Some (items, rest) => Some (Raw c :: items, rest)
        | None => None
        end
  end.

(** UTF-8 of one code point. *)
Definition utf8_encode (n : Z) : list ascii :=
  if n <? 128 then [ascii_of_Z n]
  else if n <? 2048 then [ascii_of_Z (192 + n / 64); ascii_of_Z (128 + n mod 64)]
  else if n <? 65536 then
    [ascii_of_Z (224 + n / 4096); ascii_of_Z (128 + (n / 64) mod 64);
     ascii_of_Z (128 + n mod 64)]
  else
    [ascii_of_Z (240 + n / 262144); ascii_of_Z (128 + (n / 4096) mod 64);
     ascii_of_Z (128 + (n / 64) mod 64); ascii_of_Z (128 + n mod 64)].

Definition is_high_surrogate (n : Z) : bool := (55296 <=? n) && (n <=? 56319).
Definition is_low_surrogate (n : Z) : bool := (56320 <=? n) && (n <=? 57343).

(** The text of a literal in UTF-8: a surrogate pair is one code point, a
    lone surrogate becomes U+FFFD as it would on the next conversion of
    the string to bytes. *)
Fixpoint string_of_items (l : list str_item) : list ascii :=
  match l with
  | [] => []
  | Raw c :: r => c :: string_of_items r
  | Unit16 n :: r =>
      if is_high_surrogate n then
        match r with
        | Unit16 m :: r' =>
            if is_low_surrogate m then
              utf8_encode (65536 + (n - 55296) * 1024 + (m - 56320))
                ++ string_of_items r'
            else utf8_encode 65533 ++ string_of_items r
        | _ => utf8_encode 65533 ++ string_of_items r
        end
      else if is_low_surrogate n then utf8_encode 65533 ++ string_of_items r
      else utf8_encode n ++ string_of_items r
  end.

Definition parse_string (s : list ascii) : option (string * list ascii) :=
  match parse_string_body s with
  | Some (items, rest) => Some (string_of_list_ascii (string_of_items items), rest)
  | None => None
  end.

Definition digit_of_char (c : ascii) : option (Decimal.uint -> Decimal.uint) :=
  match Z_of_ascii c - 48 with
  | 0 => Some Decimal.D0 | 1 => Some Decimal.D1 | 2 => Some Decimal.D2
  | 3 => Some Decimal.D3 | 4 => Some Decimal.D4 | 5 => Some Decimal.D5
  | 6 => Some Decimal.D6 | 7 => Some Decimal.D7 | 8 => Some Decimal.D8
  | 9 => Some Decimal.D9
  | _ => None
  end.

Fixpoint parse_digits (s : list ascii) : Decimal.uint * list ascii :=
  match s with
  | [] => (Decimal.Nil, [])
  | c :: r =>
      match digit_of_char c with
      | Some d => let '(u, rest) := parse_digits r in (d u, rest)
      | None => (Decimal.Nil, s)
      end
  end.

Definition starts_fraction (s : list ascii) : bool :=
  match s with
  | c :: _ => Ascii.eqb c "." || Ascii.eqb c "e" || Ascii.eqb c "E"
  | [] => false
  end.

(** An integer literal: no leading zero, and a fraction or an exponent is
    outside the numbers of this model. *)
Definition parse_unsigned (s : list ascii) : option (Decimal.uint * list ascii) :=
  let '(u, rest) := parse_digits s in
  match u with
  | Decimal.Nil => None
  | Decimal.D0 (Decimal.Nil) => if starts_fraction rest then None else Some (u, rest)
  | Decimal.D0 _ => None
  | _ => if starts_fraction rest then None else Some (u, rest)
  end.

Definition parse_number (s : list ascii) : option (Z * list ascii) :=
  match s with
  | c :: r =>
      if Ascii.eqb c "-" then
        match parse_unsigned r with
        | Some (u, rest) => Some (Z.of_int (Decimal.Neg u), rest)
        | None => None
        end
      else
        match parse_unsigned s with
        | Some (u, rest) => Some (Z.of_int (Decimal.Pos u), rest)
        | None => None
        end
  | [] => None
  end.

Section ParseLists.

Variable parse_value : list ascii -> option (json * list ascii).

(** The elements of an array after the first, up to the closing bracket. *)
Fixpoint parse_more_items (fuel : nat) (s : list ascii)
  : option (list json * list ascii) :=
  match fuel with
  | O => None
  | S f =>
      match skip_ws s with
      | c :: r =>
          if Ascii.eqb c "]" then Some ([], r)
          else if Ascii.eqb c "," then
            match parse_value r with
            | Some (x, r') =>
                match parse_more_items f r' with
                | Some (xs, rest) => Some (x :: xs, rest)
                | None => None
                end
            | None => None
            end
          else None
      | [] => None
      end
  end.

Definition parse_member (s : list ascii) : option ((string * json) * list ascii) :=
  match skip_ws s with
  | c :: r =>
      if Ascii.eqb c "034" then
        match parse_string r with
        | Some (k, r1) =>
            match skip_ws r1 with
            | c1 :: r2 =>
                if Ascii.eqb c1 ":" then
                  match parse_value r2 with
                  | Some (x, r3) => Some ((k, x), r3)
                  | None => None
                  end
                else None
            | [] => None
            end
        | None => None
        end
      else None
  | [] => None
  end.

Fixpoint parse_more_members (fuel : nat) (s : list ascii)
  : option (list (string * json) * list ascii) :=
  match fuel with
  | O => None
  | S f =>
      match skip_ws s with
      | c :: r =>
          if Ascii.eqb c "}" then Some ([], r)
          else if Ascii.eqb c "," then
            match parse_member r with
            | Some (m, r') =>
                match parse_more_members f r' with
                | Some (ms, rest) => Some (m :: ms, rest)
                | None => None
                end
            | None => None
            end
          else None
      | [] => None
      end
  end.

End ParseLists.

Fixpoint parse_value (fuel : nat) (s : list ascii) : option (json * list ascii) :=
  match fuel with
  | O => None
  | S f =>
      match skip_ws s with
      | [] => None
      | c :: r =>
          if Ascii.eqb c "n" then
            match strip_prefix (list_ascii_of_string "ull"%string) r with
            | Some rest => Some (JNull, rest)
            | None => None
            end
          else if Ascii.eqb c "t" then
            match strip_prefix (list_ascii_of_string "rue"%string) r with
            | Some rest => Some (JBool true, rest)
            | None => None
            end
          else if Ascii.eqb c "f" then
            match strip_prefix (list_ascii_of_string "alse"%string) r with
            | Some rest => Some (JBool false, rest)
            | None => None
            end
          else if Ascii.eqb c "034" then
            match parse_string r with
            | Some (str, rest) => Some (JStr str, rest)
            | None => None
            end
          else if Ascii.eqb c "[" then
            match skip_ws r with
            | c' :: r' =>
                if Ascii.eqb c' "]" then Some (JArr [], r')
                else
                  match parse_value f r with
                  | Some (x, r1) =>
                      match parse_more_items (parse_value f) f r1 with
                      | Some (xs, rest) => Some (JArr (x :: xs), rest)
                      | None => None
                      end
                  | None => None
                  end
            | [] => None
            end
          else if Ascii.eqb c "{" then
            match skip_ws r with
            | c' :: r' =>
                if Ascii.eqb c' "}" then Some (JObj [], r')
                else
                  match parse_member (parse_value f) r with
                  | Some (m, r1) =>
                      match parse_more_members (parse_value f) f r1 with
                      | Some (ms, rest) => Some (JObj (m :: ms), rest)
                      | None => None
                      end
                  | None => None
                  end
            | [] => None
            end
          else
            match parse_number (c :: r) with
            | Some (n, rest) => Some (JNum n, rest)
            | None => None
            end
      end
  end.

(** [JSON.parse(text)]: one value, then only white space. [None] is the
    [SyntaxError] it throws. *)
Definition JSON_parse (text : string) : option json :=
  let s := list_ascii_of_string text in
  match parse_value (S (length s)) s with
  | Some (j, rest) => match skip_ws rest with [] => Some j | _ => None end
  | None => None
  end.

(** ** Errors and results *)

Local Open Scope string_scope.

Inductive error : Type :=
| ConfigError (message : string)   (* thrown by [getMasterKey] *)
| UnsupportedEnvelope              (* [Error("Unsupported envelope")] *)
| InvalidIV                        (* [createDecipheriv] on an empty iv *)
| AuthFailure                      (* [decipher.final()]: the tag does not verify *)
| SyntaxError                      (* [JSON.parse] *)
| TypeError                        (* a property of [undefined] or [null] *)
| ValidationError (message : string) (* [ZodError], or a handler's own check *)
| NotFound                         (* [Error("Account not found")] *)
| WrongType                        (* a Redis command on a key of another type *)
| Upstream (message : string).     (* an SMTP or IMAP failure *)

Inductive result (A : Type) : Type :=
| OK (a : A)
| Err (e : error).

Arguments OK {A} a.
Arguments Err {A} e.

#[global] Instance error_eq_dec : EqDecision error.
Proof. solve_decision. Defined.

#[global] Instance result_eq_dec {A} `{EqDecision A} : EqDecision (result A).
Proof. solve_decision. Defined.

#[global] Instance result_ret : MRet result := fun A a => OK a.
#[global] Instance result_bind : MBind result := fun A B k r =>
  match r with
  | OK a => k a
  | Err e => Err e
  end.

Definition is_OK {A} (r : result A) : bool :=
  match r with OK _ => true | Err _ => false end.

(** ** The crypto envelope *)

(** [process.env], as far as this module reads it: the variable is unset,
    or holds a string. *)
Record Env := { CONFIG_MASTER_KEY_BASE64 : option string }.

Definition getMasterKey (env : Env) : result (list ascii) :=
  match CONFIG_MASTER_KEY_BASE64 env with
  | None => Err (ConfigError "CONFIG_MASTER_KEY_BASE64 is required")
  | Some b64 =>
      if String.eqb b64 "" then Err (ConfigError "CONFIG_MASTER_KEY_BASE64 is required")
      else
        let key := base64_decode b64 in
        if (length key =? 32)%nat then OK key
        else Err (ConfigError
                    "CONFIG_MASTER_KEY_BASE64 must be 32 bytes (base64 of 32 bytes)")
  end.

Definition hkdfSubkey (env : Env) (salt : list ascii) (info : string)
  : result (list ascii) :=
  master ← getMasterKey env;
  OK (buffer_of_bytes
        (hkdfSync_sha256 (bytes_of_buffer master) (bytes_of_buffer salt)
           (bytes_of_buffer (list_ascii_of_string info)) 32)).

Record Envelope := {
  v : Z;
  alg : string;
  salt : string;
  iv : string;
  tag : string;
  ct : string
}.

(** [salt_bytes] and [iv_bytes] are what [crypto.randomBytes(16)] and
    [crypto.randomBytes(12)] return in this call. *)
Definition encryptJSON (env : Env) (salt_bytes iv_bytes : list ascii)
    (payload : json) (aad : string) : result Envelope :=
  key ← hkdfSubkey env salt_bytes "mailbox:v1";
  let pt := list_ascii_of_string (JSON_stringify payload) in
  let '(ct_bytes, tag_bytes) :=
    GCM.encrypt key iv_bytes (list_ascii_of_string aad) pt in
  OK {| v := 1;
        alg := "AES-256-GCM";
        salt := base64_encode salt_bytes;
        iv := base64_encode iv_bytes;
        tag := base64_encode tag_bytes;
        ct := base64_encode ct_bytes |}.

Definition decryptJSON (env : Env) (e : Envelope) (aad : string) : result json :=
  if negb (v e =? 1)%Z || negb (String.eqb (alg e) "AES-256-GCM")
  then Err UnsupportedEnvelope
  else
    let salt_bytes := base64_decode (salt e) in
    let iv_bytes := base64_decode (iv e) in
    let tag_bytes := base64_decode (tag e) in
    let ct_bytes := base64_decode (ct e) in
    key ← hkdfSubkey env salt_bytes "mailbox:v1";
    match iv_bytes with
    | [] => Err InvalidIV
    | _ =>
        match GCM.decrypt key iv_bytes (list_ascii_of_string aad) ct_bytes tag_bytes with
        | None => Err AuthFailure
        | Some pt =>
            match JSON_parse (string_of_list_ascii pt) with
            | Some j => OK j
            | None => Err SyntaxError
            end
        end
    end.

(** ** JavaScript values

    A value read from a request body or from a decrypted payload is an
    [option json], [None] being [undefined]. *)

(** [o[k]] on an object built by [JSON.parse]: a repeated key keeps its
    last value. *)
Definition obj_get (k : string) (members : list (string * json)) : option json :=
  fold_left (fun acc m => if String.eqb (fst m) k then Some (snd m) else acc)
    members None.

(** Property access [o.k]: a [TypeError] on [undefined] and [null], the
    member on an object, [undefined] elsewhere (no field name read by this
    program is a built-in property of a string, a number or an array). *)
Definition js_get (o : option json) (k : string) : result (option json) :=
  match o with
  | None | Some JNull => Err TypeError
  | Some (JObj members) => OK (obj_get k members)
  | Some _ => OK None
  end.

Definition js_truthy (o : option json) : bool :=
  match o with
  | None | Some JNull => false
  | Some (JBool b) => b
  | Some (JNum n) => negb (n =? 0)%Z
  | Some (JStr s) => negb (String.eqb s "")
  | Some (JArr _) | Some (JObj _) => true
  end.

(** [o === s] for a string literal [s]. *)
Definition js_is_string (o : option json) (s : string) : bool :=
  match o with
  | Some (JStr s') => String.eqb s' s
  | _ => false
  end.

(** [String(x)]. *)
Fixpoint js_String_json (j : json) : string :=
  match j with
  | JNull => "null"
  | JBool true => "true"
  | JBool false => "false"
  | JNum n => string_of_list_ascii (print_Z n)
  | JStr s => s
  | JArr items =>
      (fix join (l : list json) : string :=
         match l with
         | [] => ""
         | [x] => match x with JNull => "" | _ => js_String_json x end
         | x :: r =>
             (match x with JNull => "" | _ => js_String_json x end) ++ "," ++ join r
         end) items
  | JObj _ => "[object Object]"
  end.

Definition js_String (o : option json) : string :=
  match o with
  | None => "undefined"
  | Some j => js_String_json j
  end.

(** [s.split("@")]. *)
Fixpoint split_at_sign (s : string) : list string :=
  match s with
  | EmptyString => [EmptyString]
  | String c r =>
      if Ascii.eqb c "@"%char then EmptyString :: split_at_sign r
      else match split_at_sign r with
           | p :: ps => String c p :: ps
           | [] => [String c EmptyString]
           end
  end.

(** [s[i]] inside a concatenation: the character, or the text
    "undefined" when [i] is out of range. *)
Definition js_char_at (s : string) (i : nat) : string :=
  match String.get i s with
  | Some c => String c EmptyString
  | None => "undefined"
  end.

Fixpoint js_repeat (s : string) (n : nat) : string :=
  match n with
  | O => ""
  | S k => s ++ js_repeat s k
  end.

(** ** Utils *)

Definition maskEmail (email : option json) : string :=
  let parts := split_at_sign (js_String email) in
  let name := nth 0 parts "" in
  match nth_error parts 1 with
  | None | Some EmptyString => "***"
  | Some domain =>
      let n := String.length name in
      let masked :=
        if (n <=? 2)%nat then js_char_at name 0 ++ "*"
        else js_char_at name 0 ++ js_repeat "*" (Nat.max 1 (n - 2))
               ++ js_char_at name (n - 1) in
      masked ++ "@" ++ domain
  end.

Definition kUserIndex (integrationId : string) : string :=
  "mail:user:" ++ integrationId ++ ":accounts".
Definition kAccount (accountId : string) : string := "mail:acc:" ++ accountId.

(** ** Schemas *)

Record ServerSettings := {
  server : string;
  port : Z;
  username : string;
  password : string;
  connection : string
}.

Record Secret := {
  label : option string;
  primaryEmail : string;
  imap : ServerSettings;
  smtp : ServerSettings
}.

Record Attachment := {
  filename : string;
  contentBase64 : string;
  contentType : option string
}.

Record SendRequest := {
  to : list string;
  cc : option (list string);
  bcc : option (list string);
  subject : string;
  text : option string;
  html : option string;
  attachments : option (list Attachment)
}.

Definition invalid {A} (what : string) : result A := Err (ValidationError what).

(** [z.enum(["SSL/TLS", "STARTTLS"])]. *)
Definition ConnType : list string := ["SSL/TLS"; "STARTTLS"].

Definition ConnType_parse (o : option json) : result string :=
  match o with
  | Some (JStr s) => if existsb (String.eqb s) ConnType then OK s else invalid "connection"
  | _ => invalid "connection"
  end.

(** [z.string()] and [z.string().min(1)]. *)
Definition z_string (what : string) (o : option json) : result string :=
  match o with
  | Some (JStr s) => OK s
  | _ => invalid what
  end.

Definition z_string_min1 (what : string) (o : option json) : result string :=
  match o with
  | Some (JStr s) => if String.eqb s "" then invalid what else OK s
  | _ => invalid what
  end.

Definition z_string_optional (what : string) (o : option json)
  : result (option string) :=
  match o with
  | None => OK None
  | Some (JStr s) => OK (Some s)
  | _ => invalid what
  end.

(** [z.number().int().positive()]. *)
Definition z_positive_int (what : string) (o : option json) : result Z :=
  match o with
  | Some (JNum n) => if (0 <? n)%Z then OK n else invalid what
  | _ => invalid what
  end.

Definition ServerSettings_parse (o : option json) : result ServerSettings :=
  match o with
  | Some (JObj ms) =>
      sv ← z_string_min1 "server" (obj_get "server" ms);
      pt ← z_positive_int "port" (obj_get "port" ms);
      us ← z_string_min1 "username" (obj_get "username" ms);
      pw ← z_string_min1 "password" (obj_get "password" ms);
      cn ← ConnType_parse (obj_get "connection" ms);
      OK {| server := sv; port := pt; username := us; password := pw;
            connection := cn |}
  | _ => invalid "ServerSettings"
  end.

Fixpoint mapM {A B} (f : A -> result B) (l : list A) : result (list B) :=
  match l with
  | [] => OK []
  | x :: r => y ← f x; ys ← mapM f r; OK (y :: ys)
  end.

Section Schemas.

(** The pattern of [z.string().email()], which belongs to the zod
    package. *)
Variable is_email : string -> bool.

Definition z_email (what : string) (o : option json) : result string :=
  match o with
  | Some (JStr s) => if is_email s then OK s else invalid what
  | _ => invalid what
  end.

Definition z_email_array (what : string) (o : option json) : result (list string) :=
  match o with
  | Some (JArr items) => mapM (fun x => z_email what (Some x)) items
  | _ => invalid what
  end.

Definition SecretPayload_parse (o : option json) : result Secret :=
  match o with
  | Some (JObj ms) =>
      lb ← z_string_optional "label" (obj_get "label" ms);
      pe ← z_email "primaryEmail" (obj_get "primaryEmail" ms);
      im ← ServerSettings_parse (obj_get "imap" ms);
      sm ← ServerSettings_parse (obj_get "smtp" ms);
      OK {| label := lb; primaryEmail := pe; imap := im; smtp := sm |}
  | _ => invalid "SecretPayload"
  end.

Definition Attachment_parse (x : json) : result Attachment :=
  match x with
  | JObj ms =>
      fn ← z_string "filename" (obj_get "filename" ms);
      cb ← z_string "contentBase64" (obj_get "contentBase64" ms);
      ty ← z_string_optional "contentType" (obj_get "contentType" ms);
      OK {| filename := fn; contentBase64 := cb; contentType := ty |}
  | _ => invalid "attachments"
  end.

Definition SendSchema_parse (o : option json) : result SendRequest :=
  match o with
  | Some (JObj ms) =>
      t ← z_email_array "to" (obj_get "to" ms);
      nonempty ← (match t with [] => invalid "to" | _ => OK tt end);
      c ← match obj_get "cc" ms with
          | None => OK None
          | x => l ← z_email_array "cc" x; OK (Some l)
          end;
      b ← match obj_get "bcc" ms with
          | None => OK None
          | x => l ← z_email_array "bcc" x; OK (Some l)
          end;
      sj ← match obj_get "subject" ms with
           | None => OK ""
           | x => z_string "subject" x
           end;
      tx ← z_string_optional "text" (obj_get "text" ms);
      ht ← z_string_optional "html" (obj_get "html" ms);
      ats ← match obj_get "attachments" ms with
           | None => OK None
           | Some (JArr items) => l ← mapM Attachment_parse items; OK (Some l)
           | _ => invalid "attachments"
           end;
      OK {| to := t; cc := c; bcc := b; subject := sj; text := tx; html := ht;
            attachments := ats |}
  | _ => invalid "SendSchema"
  end.

End Schemas.

(** The object a parsed value is, as [JSON.stringify] sees it: the keys of
    the schema in order, an absent [label] left out. *)
Definition json_of_ServerSettings (s : ServerSettings) : json :=
  JObj [("server", JStr (server s)); ("port", JNum (port s));
        ("username", JStr (username s)); ("password", JStr (password s));
        ("connection", JStr (connection s))].

Definition json_of_Secret (s : Secret) : json :=
  JObj ((match label s with Some l => [("label", JStr l)] | None => [] end)
        ++ [("primaryEmail", JStr (primaryEmail s));
            ("imap", json_of_ServerSettings (imap s));
            ("smtp", json_of_ServerSettings (smtp s))]).

(** ** SMTP transport *)

(** The options handed to [nodemailer.createTransport]. *)
Record TransportOptions := {
  host : option json;
  tport : option json;
  secure : bool;
  auth_user : option json;
  auth_pass : option json;
  requireTLS : bool
}.

Definition smtpTransportFromSecret (secret : option json) : result TransportOptions :=
  s ← js_get secret "smtp";
  cn ← js_get s "connection";
  sv ← js_get s "server";
  pt ← js_get s "port";
  us ← js_get s "username";
  pw ← js_get s "password";
  OK {| host := sv;
        tport := pt;
        secure := js_is_string cn "SSL/TLS";
        auth_user := us;
        auth_pass := pw;
        requireTLS := js_is_string cn "STARTTLS" |}.

(** The message handed to [transporter.sendMail]. *)
Record MailOptions := {
  m_from : option json;
  m_to : list string;
  m_cc : option (list string);
  m_bcc : option (list string);
  m_subject : string;
  m_text : option string;
  m_html : option string;
  m_attachments : list (string * list ascii * option string)
}.

Record SendInfo := {
  messageId : string;
  accepted : list string;
  rejected : list string
}.

(** ** The key-value store (Upstash Redis)

    One key space holding account records (JSON values) and sets of
    strings; a command on a key of the other type fails as Redis's
    WRONGTYPE does. The store is one that answers: every command is
    applied and resolves. A command the client rejects (connection lost,
    timeout, quota) is not represented, so the statements below say
    nothing of a handler that fails between two commands. *)

(** The record under [mail:acc:{id}]; [acc_id] and [acc_integrationId]
    are its [id] and [integrationId] fields. *)
Record AccountRecord := {
  acc_id : string;
  acc_integrationId : string;
  createdAt : string;
  updatedAt : string;
  enc : Envelope
}.

Inductive rvalue : Type :=
| RRecord (r : AccountRecord)
| RSet (s : gset string).

Abbreviation Store := (gmap string rvalue).

Definition redis_get (store : Store) (k : string) : result (option AccountRecord) :=
  match store !! k with
  | None => OK None
  | Some (RRecord r) => OK (Some r)
  | Some (RSet _) => Err WrongType
  end.

Definition redis_set (store : Store) (k : string) (r : AccountRecord) : Store :=
  <[k := RRecord r]> store.

Definition redis_del (store : Store) (k : string) : Store := delete k store.

Definition redis_sadd (store : Store) (k member : string) : result Store :=
  match store !! k with
  | None => OK (<[k := RSet {[member]}]> store)
  | Some (RSet s) => OK (<[k := RSet ({[member]} ∪ s)]> store)
  | Some (RRecord _) => Err WrongType
  end.

(** Redis removes a set when its last member goes. *)
Definition redis_srem (store : Store) (k member : string) : result Store :=
  match store !! k with
  | None => OK store
  | Some (RSet s) =>
      let s' := s ∖ {[member]} in
      OK (if decide (s' = ∅) then delete k store else <[k := RSet s']> store)
  | Some (RRecord _) => Err WrongType
  end.

Definition redis_smembers (store : Store) (k : string) : result (list string) :=
  match store !! k with
  | None => OK []
  | Some (RSet s) => OK (elements s)
  | Some (RRecord _) => Err WrongType
  end.

Definition loadAccount (store : Store) (accountId : string) (mustExist : bool)
  : result (option AccountRecord) :=
  rec ← redis_get store (kAccount accountId);
  match rec with
  | None => if mustExist then Err NotFound else OK None
  | Some r => OK (Some r)
  end.

(** The associated data of a record: [`${acc.id}:${acc.integrationId}`]. *)
Definition aad_of (accountId integrationId : string) : string :=
  accountId ++ ":" ++ integrationId.

(** ** Account handlers

    A handler's body runs inside [try]; what it passes to [res.json] is
    the [OK] branch and what its [catch] answers with status 400 is the
    [Err] branch. A handler that writes returns the store it leaves. *)

Record AccountSummary := {
  s_id : string;
  s_integrationId : string;
  s_label : json;
  primaryEmailMasked : string;
  s_createdAt : string;
  s_updatedAt : string
}.

Section Handlers.

Variable env : Env.
Variable is_email : string -> bool.

Definition summary_of (rec : AccountRecord) : result AccountSummary :=
  secret ← decryptJSON env (enc rec) (aad_of (acc_id rec) (acc_integrationId rec));
  lb ← js_get (Some secret) "label";
  pe ← js_get (Some secret) "primaryEmail";
  OK {| s_id := acc_id rec;
        s_integrationId := acc_integrationId rec;
        s_label := match lb with
                   | Some l => if js_truthy lb then l else JNull
                   | None => JNull
                   end;
        primaryEmailMasked := maskEmail pe;
        s_createdAt := createdAt rec;
        s_updatedAt := updatedAt rec |}.

(** The loop of [GET /accounts] over the members of the tenant index. *)
Fixpoint list_loop (store : Store) (ids : list string)
  : result (list AccountSummary) :=
  match ids with
  | [] => OK []
  | id :: rest =>
      rec ← loadAccount store id false;
      match rec with
      | None => list_loop store rest
      | Some r =>
          s ← summary_of r;
          out ← list_loop store rest;
          OK (s :: out)
      end
  end.

(** [GET /accounts?integrationId=...]. *)
Definition get_accounts (store : Store) (query_integrationId : option json)
  : result (list AccountSummary) :=
  let integrationId :=
    js_String (if js_truthy query_integrationId then query_integrationId
               else Some (JStr "")) in
  if String.eqb integrationId "" then invalid "integrationId is required"
  else
    ids ← redis_smembers store (kUserIndex integrationId);
    list_loop store ids.

(** [PUT /accounts/:id]; [now] is [new Date().toISOString()]. *)
Definition put_account (store : Store) (id : string) (body : option json)
    (now : string) (salt_bytes iv_bytes : list ascii) : Store * result unit :=
  match loadAccount store id true with
  | Err e => (store, Err e)
  | OK None => (store, Err NotFound)
  | OK (Some acc) =>
      match SecretPayload_parse is_email body with
      | Err e => (store, Err e)
      | OK secret =>
          match encryptJSON env salt_bytes iv_bytes (json_of_Secret secret)
                  (aad_of (acc_id acc) (acc_integrationId acc)) with
          | Err e => (store, Err e)
          | OK e =>
              let updated :=
                {| acc_id := acc_id acc;
                   acc_integrationId := acc_integrationId acc;
                   createdAt := createdAt acc;
                   updatedAt := now;
                   enc := e |} in
              (redis_set store (kAccount (acc_id acc)) updated, OK tt)
          end
      end
  end.

(** [DELETE /accounts/:id]. *)
Definition delete_account (store : Store) (id : string) : Store * result unit :=
  match loadAccount store id false with
  | Err e => (store, Err e)
  | OK None => (store, OK tt)
  | OK (Some acc) =>
      let store1 := redis_del store (kAccount (acc_id acc)) in
      match redis_srem store1 (kUserIndex (acc_integrationId acc)) (acc_id acc) with
      | OK store2 => (store2, OK tt)
      | Err e => (store1, Err e)
      end
  end.

(** What the mail server answers to [transporter.sendMail]. *)
Variable smtp_sendMail : TransportOptions -> MailOptions -> result SendInfo.

Definition mail_of (secret : json) (msg : SendRequest) : result MailOptions :=
  s ← js_get (Some secret) "smtp";
  us ← js_get s "username";
  OK {| m_from := us;
        m_to := to msg;
        m_cc := cc msg;
        m_bcc := bcc msg;
        m_subject := subject msg;
        m_text := text msg;
        m_html := html msg;
        m_attachments :=
          map (fun a => (filename a, base64_decode (contentBase64 a), contentType a))
              (default [] (attachments msg)) |}.

(** [POST /accounts/:id/send]: the response, and the messages handed to
    the transport on the way. *)
Definition post_send (store : Store) (id : string) (body : option json)
  : list (TransportOptions * MailOptions) * result SendInfo :=
  match
    (msg ← SendSchema_parse is_email body;
     acc ← loadAccount store id true;
     match acc with
     | None => Err TypeError
     | Some a =>
         secret ← decryptJSON env (enc a) (aad_of (acc_id a) (acc_integrationId a));
         transporter ← smtpTransportFromSecret (Some secret);
         mail ← mail_of secret msg;
         OK (transporter, mail)
     end)
  with
  | Err e => ([], Err e)
  | OK (transporter, mail) =>
      ([(transporter, mail)], smtp_sendMail transporter mail)
  end.

End Handlers.

(** ** Live watch and the push channel

    The process state the watcher code works on: the store, the [watchers]
    map, the watcher objects it and the closures refer to, the pending
    timeouts and ping intervals, the open streams and the running fetches.
    Each function below is one of the source's, run to completion; [step]
    lists the events that start them. *)

Record Msg := {
  uid : Z;
  msg_subject : option string;
  msg_from : list string;
  msg_to : list string;
  internalDate : option string;
  flags : list string
}.

(** The frames a stream is sent: the [data:] frames of the four event
    objects, and the frame [event: ping] with data [{}]. *)
Inductive Event : Type :=
| SSEReady (accountId : string)
| WatcherReady (accountId : string)
| EmailReceived (accountId : string) (uid : Z) (subject : option string)
    (from to : list string) (date : option string) (flags : list string)
| ErrorEvent (message : string)
| Ping.

(** [client] is the ImapFlow client ([None] once it is [null]),
    [sseClients] the open responses, [idleTimer] the handle of the last
    timer armed for the watcher. The [emitter] field of the source is never
    used and is left out. *)
Record Watcher := {
  accountId : string;
  lastUid : Z;
  client : option nat;
  sseClients : gset nat;
  stopping : bool;
  idleTimer : option nat
}.

(** The two callbacks [keepAliveWatcher] hands to [setTimeout]. *)
Inductive callback : Type :=
| StopWatcherCb (accountId : string)
| KeepAliveCb (w : nat).

Record State := {
  store : Store;
  watchers : gmap string nat;          (* accountId -> watcher object *)
  heap : gmap nat Watcher;             (* the watcher objects *)
  timers : gmap nat (Z * callback);    (* pending timeouts: due time, callback *)
  clock : Z;                           (* milliseconds *)
  fresh : nat;                         (* next object, client or timer handle *)
  owner : gmap nat nat;                (* client -> the [w] its closures hold *)
  listening : gset nat;                (* clients with an "exists" listener *)
  streams : gmap nat (option nat);     (* open response -> the [w] its close handler holds *)
  fetches : gmap nat (nat * Z);        (* running fetch -> its [w] and first uid *)
  pings : gmap nat Z;                  (* open response -> when its ping interval fires next *)
  written : list (nat * Event)         (* every [res.write], in order *)
}.

Definition with_heap (st : State) (h : gmap nat Watcher) : State :=
  {| store := store st; watchers := watchers st; heap := h; timers := timers st;
     clock := clock st; fresh := fresh st; owner := owner st;
     listening := listening st; streams := streams st; fetches := fetches st;
     pings := pings st; written := written st |}.

Definition with_watchers (st : State) (ws : gmap string nat) : State :=
  {| store := store st; watchers := ws; heap := heap st; timers := timers st;
     clock := clock st; fresh := fresh st; owner := owner st;
     listening := listening st; streams := streams st; fetches := fetches st;
     pings := pings st; written := written st |}.

Definition with_timers (st : State) (ts : gmap nat (Z * callback)) : State :=
  {| store := store st; watchers := watchers st; heap := heap st; timers := ts;
     clock := clock st; fresh := fresh st; owner := owner st;
     listening := listening st; streams := streams st; fetches := fetches st;
     pings := pings st; written := written st |}.

Definition with_clock (st : State) (t : Z) : State :=
  {| store := store st; watchers := watchers st; heap := heap st; timers := timers st;
     clock := t; fresh := fresh st; owner := owner st;
     listening := listening st; streams := streams st; fetches := fetches st;
     pings := pings st; written := written st |}.

Definition with_fresh (st : State) (n : nat) : State :=
  {| store := store st; watchers := watchers st; heap := heap st; timers := timers st;
     clock := clock st; fresh := n; owner := owner st;
     listening := listening st; streams := streams st; fetches := fetches st;
     pings := pings st; written := written st |}.

Definition with_owner (st : State) (o : gmap nat nat) : State :=
  {| store := store st; watchers := watchers st; heap := heap st; timers := timers st;
     clock := clock st; fresh := fresh st; owner := o;
     listening := listening st; streams := streams st; fetches := fetches st;
     pings := pings st; written := written st |}.

Definition with_listening (st : State) (l : gset nat) : State :=
  {| store := store st; watchers := watchers st; heap := heap st; timers := timers st;
     clock := clock st; fresh := fresh st; owner := owner st;
     listening := l; streams := streams st; fetches := fetches st;
     pings := pings st; written := written st |}.

Definition with_streams (st : State) (s : gmap nat (option nat)) : State :=
  {| store := store st; watchers := watchers st; heap := heap st; timers := timers st;
     clock := clock st; fresh := fresh st; owner := owner st;
     listening := listening st; streams := s; fetches := fetches st;
     pings := pings st; written := written st |}.

Definition with_fetches (st : State) (f : gmap nat (nat * Z)) : State :=
  {| store := store st; watchers := watchers st; heap := heap st; timers := timers st;
     clock := clock st; fresh := fresh st; owner := owner st;
     listening := listening st; streams := streams st; fetches := f;
     pings := pings st; written := written st |}.

Definition with_pings (st : State) (p : gmap nat Z) : State :=
  {| store := store st; watchers := watchers st; heap := heap st; timers := timers st;
     clock := clock st; fresh := fresh st; owner := owner st;
     listening := listening st; streams := streams st; fetches := fetches st;
     pings := p; written := written st |}.

Definition with_written (st : State) (w : list (nat * Event)) : State :=
  {| store := store st; watchers := watchers st; heap := heap st; timers := timers st;
     clock := clock st; fresh := fresh st; owner := owner st;
     listening := listening st; streams := streams st; fetches := fetches st;
     pings := pings st; written := w |}.

Definition with_store (st : State) (s : Store) : State :=
  {| store := s; watchers := watchers st; heap := heap st; timers := timers st;
     clock := clock st; fresh := fresh st; owner := owner st;
     listening := listening st; streams := streams st; fetches := fetches st;
     pings := pings st; written := written st |}.

(** The process as the module leaves it once loaded: [watchers] is a new
    [Map] and nothing else has run. *)
Definition module_loaded (s : Store) : State :=
  {| store := s; watchers := ∅; heap := ∅; timers := ∅; clock := 0; fresh := 0%nat;
     owner := ∅; listening := ∅; streams := ∅; fetches := ∅; pings := ∅;
     written := [] |}.

Definition set_lastUid (w : Watcher) (u : Z) : Watcher :=
  {| accountId := accountId w; lastUid := u; client := client w;
     sseClients := sseClients w; stopping := stopping w; idleTimer := idleTimer w |}.

Definition set_sseClients (w : Watcher) (s : gset nat) : Watcher :=
  {| accountId := accountId w; lastUid := lastUid w; client := client w;
     sseClients := s; stopping := stopping w; idleTimer := idleTimer w |}.

Definition set_idleTimer (w : Watcher) (t : option nat) : Watcher :=
  {| accountId := accountId w; lastUid := lastUid w; client := client w;
     sseClients := sseClients w; stopping := stopping w; idleTimer := t |}.

(** [w.stopping = true] and, in the [finally], [w.client = null]. *)
Definition set_stopped (w : Watcher) : Watcher :=
  {| accountId := accountId w; lastUid := lastUid w; client := None;
     sseClients := sseClients w; stopping := true; idleTimer := idleTimer w |}.

Definition write (st : State) (res : nat) (ev : Event) : State :=
  with_written st (written st ++ [(res, ev)]).

Definition lookup_watcher (st : State) (accountId : string) : option (nat * Watcher) :=
  wid ← watchers st !! accountId;
  w ← heap st !! wid;
  Some (wid, w).

Definition broadcast (st : State) (accountId : string) (data : Event) : State :=
  match lookup_watcher st accountId with
  | None => st
  | Some (_, w) =>
      with_written st (written st ++ map (fun res => (res, data)) (elements (sseClients w)))
  end.

Definition clearTimeout (st : State) (t : option nat) : State :=
  match t with
  | Some h => with_timers st (delete h (timers st))
  | None => st
  end.

Definition setTimeout (st : State) (cb : callback) (delay : Z) : State * nat :=
  let h := fresh st in
  (with_fresh (with_timers st (<[h := (clock st + delay, cb)]> (timers st))) (S h), h).

Definition stopWatcher (st : State) (accountId : string) : State :=
  match lookup_watcher st accountId with
  | None => st
  | Some (wid, w) =>
      if stopping w then st
      else
        let st1 := clearTimeout st (idleTimer w) in
        with_watchers (with_heap st1 (<[wid := set_stopped w]> (heap st1)))
          (delete accountId (watchers st1))
  end.

Definition keepAliveWatcher (st : State) (wid : nat) : State :=
  match heap st !! wid with
  | None => st
  | Some w =>
      let st1 := clearTimeout st (idleTimer w) in
      let '(st2, h) :=
        if decide (size (sseClients w) = 0%nat)
        then setTimeout st1 (StopWatcherCb (accountId w)) 60000
        else setTimeout st1 (KeepAliveCb wid) (5 * 60000) in
      with_heap st2 (<[wid := set_idleTimer w (Some h)]> (heap st2))
  end.

(** The fields [imapConfigFromSecret] reads; the timeouts it adds are
    constants. *)
Record ImapConfig := {
  i_host : option json;
  i_port : option json;
  i_secure : bool;
  i_user : option json;
  i_pass : option json
}.

Definition imapConfigFromSecret (secret : option json) : result ImapConfig :=
  s ← js_get secret "imap";
  cn ← js_get s "connection";
  sv ← js_get s "server";
  pt ← js_get s "port";
  us ← js_get s "username";
  pw ← js_get s "password";
  OK {| i_host := sv; i_port := pt; i_secure := js_is_string cn "SSL/TLS";
        i_user := us; i_pass := pw |}.

Definition error_message (e : error) : string :=
  match e with
  | ConfigError m => m
  | UnsupportedEnvelope => "Unsupported envelope"
  | InvalidIV => "Invalid initialization vector"
  | AuthFailure => "Unsupported state or unable to authenticate data"
  | SyntaxError => "Unexpected token in JSON"
  | TypeError => "Cannot read properties of undefined"
  | ValidationError m => m
  | NotFound => "Account not found"
  | WrongType => "WRONGTYPE Operation against a key holding the wrong kind of value"
  | Upstream m => m
  end.

Section Watch.

Variable env : Env.

(** [ensureWatcher] up to its [return w]; the connection it starts
    reports later as [ImapReady] or [ImapFailed]. A watcher found with a
    [null] client hands its subscribers to the new object. *)
Definition ensureWatcher (st : State) (accountId : string) : State * result nat :=
  let old := lookup_watcher st accountId in
  match old with
  | Some (wid, {| client := Some _ |}) => (st, OK wid)
  | _ =>
      match
        (acc ← loadAccount (store st) accountId true;
         match acc with
         | None => Err TypeError
         | Some a =>
             secret ← decryptJSON env (enc a) (aad_of (acc_id a) (acc_integrationId a));
             imapConfigFromSecret (Some secret)
         end)
      with
      | Err e => (st, Err e)
      | OK _ =>
          let c := fresh st in
          let wid := S c in
          let w := {| accountId := accountId;
                      lastUid := 0;
                      client := Some c;
                      sseClients := match old with
                                    | Some (_, w0) => sseClients w0
                                    | None => ∅
                                    end;
                      stopping := false;
                      idleTimer := None |} in
          (with_fresh
             (with_owner
                (with_watchers (with_heap st (<[wid := w]> (heap st)))
                   (<[accountId := wid]> (watchers st)))
                (<[c := wid]> (owner st)))
             (S wid),
           OK wid)
      end
  end.

(** The connection of client [c] is up, INBOX is open and [status]
    returned [uidNext]. *)
Definition imap_ready (st : State) (c : nat) (uidNext : option Z) : State :=
  match owner st !! c with
  | None => st
  | Some wid =>
      match heap st !! wid with
      | None => st
      | Some w =>
          let next := match uidNext with
                      | Some n => if (n =? 0)%Z then 1 else n
                      | None => 1
                      end in
          let st1 := with_heap st (<[wid := set_lastUid w (Z.max 0 (next - 1))]> (heap st)) in
          let st2 := with_listening st1 ({[c]} ∪ listening st1) in
          let st3 := keepAliveWatcher st2 wid in
          broadcast st3 (accountId w) (WatcherReady (accountId w))
      end
  end.

(** [connect], [mailboxOpen] or [status] threw. *)
Definition imap_failed (st : State) (c : nat) (message : string) : State :=
  match owner st !! c with
  | None => st
  | Some wid =>
      match heap st !! wid with
      | None => st
      | Some w => stopWatcher (broadcast st (accountId w) (ErrorEvent message)) (accountId w)
      end
  end.

(** The "exists" listener up to its [for await]: it reads [w.lastUid]
    and starts the fetch of [`${fromUid}:*`]. *)
Definition on_exists (st : State) (c : nat) : State :=
  if decide (c ∈ listening st) then
    match owner st !! c with
    | None => st
    | Some wid =>
        match heap st !! wid with
        | Some {| client := Some _; lastUid := last |} =>
            let f := fresh st in
            with_fresh (with_fetches st (<[f := (wid, last + 1)]> (fetches st))) (S f)
        | _ => st
        end
    end
  else st.

(** One turn of the [for await] loop. *)
Definition on_message (st : State) (wid : nat) (msg : Msg) : State :=
  match heap st !! wid with
  | None => st
  | Some w =>
      let ev := EmailReceived (accountId w) (uid msg) (msg_subject msg)
                  (filter (fun a => a ≠ "") (msg_from msg))
                  (filter (fun a => a ≠ "") (msg_to msg))
                  (internalDate msg) (flags msg) in
      let st1 := with_heap st (<[wid := set_lastUid w (Z.max (lastUid w) (uid msg))]> (heap st)) in
      broadcast st1 (accountId w) ev
  end.

(** The fetch [f] yields [msgs] and ends. *)
Definition on_fetched (st : State) (f : nat) (msgs : list Msg) : State :=
  match fetches st !! f with
  | None => st
  | Some (wid, _) =>
      fold_left (fun s m => on_message s wid m) msgs
        (with_fetches st (delete f (fetches st)))
  end.

(** [GET /accounts/:id/stream] for the response [res]. The interval it
    arms lives in the closure of this request: it is named by [res]. *)
Definition stream_open (st : State) (accountId : string) (res : nat) : State :=
  let '(st1, r) := ensureWatcher st accountId in
  let st2 := match r with
             | Err e => write st1 res (ErrorEvent (error_message e))
             | OK _ => st1
             end in
  let st3 :=
    match lookup_watcher st2 accountId with
    | None =>
        with_streams (write st2 res (ErrorEvent "Watcher unavailable"))
          (<[res := None]> (streams st2))
    | Some (wid, w) =>
        with_streams
          (with_heap st2 (<[wid := set_sseClients w ({[res]} ∪ sseClients w)]> (heap st2)))
          (<[res := Some wid]> (streams st2))
    end in
  let st4 := write st3 res (SSEReady accountId) in
  with_pings st4 (<[res := clock st4 + 25000]> (pings st4)).

(** The "close" handler of the request behind [res]. *)
Definition stream_close (st : State) (res : nat) : State :=
  match streams st !! res with
  | None => st
  | Some None =>
      with_streams (with_pings st (delete res (pings st))) (delete res (streams st))
  | Some (Some wid) =>
      let st1 := with_streams (with_pings st (delete res (pings st)))
                   (delete res (streams st)) in
      match heap st1 !! wid with
      | None => st1
      | Some w =>
          keepAliveWatcher
            (with_heap st1 (<[wid := set_sseClients w (sseClients w ∖ {[res]})]> (heap st1)))
            wid
      end
  end.

Definition fire (st : State) (h : nat) : State :=
  match timers st !! h with
  | None => st
  | Some (due, cb) =>
      let st1 := with_clock (with_timers st (delete h (timers st))) (Z.max (clock st) due) in
      match cb with
      | StopWatcherCb a => stopWatcher st1 a
      | KeepAliveCb wid => keepAliveWatcher st1 wid
      end
  end.

(** The ping interval of [res] fires: the frame is written and the
    interval runs again 25 s later. *)
Definition ping (st : State) (res : nat) : State :=
  match pings st !! res with
  | None => st
  | Some due =>
      let now := Z.max (clock st) due in
      write (with_clock (with_pings st (<[res := now + 25000]> (pings st))) now) res Ping
  end.

(** The pending timer due first (the older handle on a tie), if it is
    due by [t]. *)
Definition next_due (ts : gmap nat (Z * callback)) (t : Z) : option nat :=
  fst <$>
    map_fold
      (fun h e best =>
         if (fst e <=? t)%Z then
           match best with
           | None => Some (h, fst e)
           | Some (h', due') =>
               if (fst e <? due')%Z || ((fst e =? due')%Z && (h <? h')%nat)
               then Some (h, fst e) else best
           end
         else best)
      None ts.

(** The same for the ping intervals (the smaller response on a tie). *)
Definition next_ping (ps : gmap nat Z) (t : Z) : option nat :=
  fst <$>
    map_fold
      (fun r due best =>
         if (due <=? t)%Z then
           match best with
           | None => Some (r, due)
           | Some (r', due') =>
               if (due <? due')%Z || ((due =? due')%Z && (r <? r')%nat)
               then Some (r, due) else best
           end
         else best)
      None ps.

(** Of a timeout and a ping both due, the ping goes first when it is due
    strictly earlier. *)
Definition ping_first (st : State) (h res : nat) : bool :=
  match timers st !! h, pings st !! res with
  | Some (due, _), Some due' => (due' <? due)%Z
  | _, _ => false
  end.

Fixpoint run_timers (fuel : nat) (st : State) (t : Z) : State :=
  match fuel with
  | O => st
  | S f =>
      match next_due (timers st) t, next_ping (pings st) t with
      | None, None => with_clock st (Z.max (clock st) t)
      | Some h, None => run_timers f (fire st h) t
      | None, Some res => run_timers f (ping st res) t
      | Some h, Some res =>
          if ping_first st h res then run_timers f (ping st res) t
          else run_timers f (fire st h) t
      end
  end.

(** Time passes until [t]; a timeout is armed for 60 s or more and an
    interval runs every 25 s, which bounds the number of firings. *)
Definition advance (st : State) (t : Z) : State :=
  run_timers (S (size (timers st) + size (pings st))
              * S (Z.to_nat ((t - clock st) / 25000))) st t.

Inductive action : Type :=
| StreamOpen (accountId : string) (res : nat)
| StreamClose (res : nat)
| WatchStart (accountId : string)
| WatchStop (accountId : string)
| DeleteAccount (accountId : string)
| ImapReady (c : nat) (uidNext : option Z)
| ImapFailed (c : nat) (message : string)
| ImapError (c : nat) (message : string)
| ImapExists (c : nat)
| ImapFetched (f : nat) (msgs : list Msg)
| ImapFetchFailed (f : nat) (message : string)
| Advance (t : Z).

Definition step (st : State) (a : action) : State :=
  match a with
  | StreamOpen accountId res => stream_open st accountId res
  | StreamClose res => stream_close st res
  | WatchStart accountId => fst (ensureWatcher st accountId)
  | WatchStop accountId => stopWatcher st accountId
  | DeleteAccount accountId =>
      with_store st (fst (delete_account (store st) accountId))
  | ImapReady c uidNext => imap_ready st c uidNext
  | ImapFailed c message => imap_failed st c message
  | ImapError c message =>
      match owner st !! c ≫= (heap st !!.) with
      | Some w => broadcast st (accountId w) (ErrorEvent message)
      | None => st
      end
  | ImapExists c => on_exists st c
  | ImapFetched f msgs => on_fetched st f msgs
  | ImapFetchFailed f message =>
      match fetches st !! f with
      | Some (wid, _) =>
          let st1 := with_fetches st (delete f (fetches st)) in
          match heap st1 !! wid with
          | Some w => broadcast st1 (accountId w) (ErrorEvent message)
          | None => st1
          end
      | None => st
      end
  | Advance t => advance st t
  end.

Definition run (st : State) (script : list action) : State :=
  fold_left step script st.

End Watch.

(** The uids of the [EmailReceived] events written to the response [res],
    in the order it received them. *)
Definition received_uids (st : State) (res : nat) : list Z :=
  omap (fun w => match w with
                 | (r, EmailReceived _ u _ _ _ _ _) =>
                     if decide (r = res) then Some u else None
                 | _ => None
                 end)
       (written st).

(** ** The IMAP server's side of [UID FETCH n:*] (RFC 3501, 6.4.8 and the
    formal syntax of seq-range): the messages whose uid lies between [n]
    and the largest uid of the mailbox, in either order of the two. *)
Definition uid_fetch_from (mailbox : list Msg) (n : Z) : list Msg :=
  match mailbox with
  | [] => []
  | m0 :: _ =>
      let top := fold_left (fun a m => Z.max a (uid m)) mailbox (uid m0) in
      filter (fun m => Z.min n top ≤ uid m ∧ uid m ≤ Z.max n top)%Z mailbox
  end.

(** ** Account handlers: create, read and test

    The handlers of this part answer through [Response]: what they pass to
    [res.json], with its status, or the error their [catch] block turns
    into a 400 response. *)

Inductive Response : Type :=
| Sent (status : Z) (body : json)
| Caught (e : error).

(** The value of [CreateAccountSchema]. *)
Record CreateAccount := {
  c_integrationId : string;
  c_label : option string;
  c_primaryEmail : string;
  c_imap : ServerSettings;
  c_smtp : ServerSettings;
  testConnection : bool
}.

(** [z.boolean().optional().default(false)]. *)
Definition z_boolean_default_false (what : string) (o : option json) : result bool :=
  match o with
  | None => OK false
  | Some (JBool b) => OK b
  | _ => invalid what
  end.

(** A member of an object literal: [JSON.stringify] leaves out the ones
    whose value is [undefined]. *)
Definition js_member (k : string) (o : option json) : list (string * json) :=
  match o with
  | Some j => [(k, j)]
  | None => []
  end.

(** [x || null]. *)
Definition js_or_null (o : option json) : json :=
  match o with
  | Some j => if js_truthy o then j else JNull
  | None => JNull
  end.

(** The UTF-16 code units of a string, each as the string [s[i]] is. A
    character outside the basic plane is two surrogates, and a surrogate
    on its own converts to U+FFFD. *)
Fixpoint code_units (s : list ascii) : list string :=
  match s with
  | [] => []
  | c :: r =>
      let n := Z_of_ascii c in
      let replacement := string_of_list_ascii (utf8_encode 65533) in
      if (n <? 192)%Z then String c EmptyString :: code_units r
      else
        match r with
        | c1 :: r1 =>
            if (n <? 224)%Z then String c (String c1 EmptyString) :: code_units r1
            else
              match r1 with
              | c2 :: r2 =>
                  if (n <? 240)%Z
                  then String c (String c1 (String c2 EmptyString)) :: code_units r2
                  else
                    match r2 with
                    | _ :: r3 => replacement :: replacement :: code_units r3
                    | [] => [replacement]
                    end
              | [] => [replacement]
              end
        | [] => [replacement]
        end
  end.

(** The keys "0", "1", ... of the elements of an array or of a string. *)
Fixpoint indexed {A} (i : nat) (l : list A) : list (string * A) :=
  match l with
  | [] => []
  | x :: r => (string_of_list_ascii (print_Z (Z.of_nat i)), x) :: indexed (S i) r
  end.

(** The own enumerable properties [{...s}] copies. *)
Definition js_spread (s : option json) : list (string * json) :=
  match s with
  | Some (JObj members) => members
  | Some (JArr items) => indexed 0 items
  | Some (JStr str) => indexed 0 (map JStr (code_units (list_ascii_of_string str)))
  | _ => []
  end.

(** [k: v] after a spread: the value of the property [k] in place when the
    object has one, a new last property otherwise. *)
Definition js_set (k : string) (v : json) (members : list (string * json))
  : list (string * json) :=
  if existsb (fun m => String.eqb (fst m) k) members
  then map (fun m => if String.eqb (fst m) k then (k, v) else m) members
  else members ++ [(k, v)].

(** [k: undefined] after a spread, as [JSON.stringify] shows it. *)
Definition js_unset (k : string) (members : list (string * json))
  : list (string * json) :=
  List.filter (fun m => negb (String.eqb (fst m) k)) members.

(** [redact] of [GET /accounts/:id]. *)
Definition redact (includePw : bool) (s : option json) : option json :=
  if includePw then s
  else Some (JObj (js_set "hasPassword" (JBool true) (js_unset "password" (js_spread s)))).

Section Accounts.

Variable env : Env.
Variable is_email : string -> bool.

(** What the servers answer to [transporter.verify()], and to
    [client.connect()] followed by [client.logout()]. *)
Variable smtp_verify : TransportOptions -> result unit.
Variable imap_login : ImapConfig -> result unit.

Definition CreateAccountSchema_parse (o : option json) : result CreateAccount :=
  match o with
  | Some (JObj ms) =>
      ig ← z_string_min1 "integrationId" (obj_get "integrationId" ms);
      lb ← z_string_optional "label" (obj_get "label" ms);
      pe ← z_email is_email "primaryEmail" (obj_get "primaryEmail" ms);
      im ← ServerSettings_parse (obj_get "imap" ms);
      sm ← ServerSettings_parse (obj_get "smtp" ms);
      tc ← z_boolean_default_false "testConnection" (obj_get "testConnection" ms);
      OK {| c_integrationId := ig; c_label := lb; c_primaryEmail := pe;
            c_imap := im; c_smtp := sm; testConnection := tc |}
  | _ => invalid "CreateAccountSchema"
  end.

(** [POST /accounts]; [accountId] is what [ulid()] returns, [now] is
    [new Date().toISOString()]. *)
Definition post_accounts (store : Store) (body : option json) (accountId : string)
    (now : string) (salt_bytes iv_bytes : list ascii) : Store * result string :=
  match CreateAccountSchema_parse body with
  | Err e => (store, Err e)
  | OK b =>
      let secret := {| label := c_label b; primaryEmail := c_primaryEmail b;
                       imap := c_imap b; smtp := c_smtp b |} in
      match
        (if testConnection b then
           transporter ← smtpTransportFromSecret (Some (json_of_Secret secret));
           verified ← smtp_verify transporter;
           config ← imapConfigFromSecret (Some (json_of_Secret secret));
           imap_login config
         else OK tt)
      with
      | Err e => (store, Err e)
      | OK _ =>
          match encryptJSON env salt_bytes iv_bytes (json_of_Secret secret)
                  (aad_of accountId (c_integrationId b)) with
          | Err e => (store, Err e)
          | OK e =>
              let record :=
                {| acc_id := accountId;
                   acc_integrationId := c_integrationId b;
                   createdAt := now;
                   updatedAt := now;
                   enc := e |} in
              let store1 := redis_set store (kAccount accountId) record in
              match redis_sadd store1 (kUserIndex (c_integrationId b)) accountId with
              | OK store2 => (store2, OK accountId)
              | Err e => (store1, Err e)
              end
          end
      end
  end.

(** [GET /accounts/:id?includePasswords=...]. *)
Definition get_account (store : Store) (id : string)
    (query_includePasswords : option json) : Response :=
  match loadAccount store id true with
  | Err e => Caught e
  | OK None => Sent 404 (JObj [("error", JStr "Not found")])
  | OK (Some acc) =>
      let includePw :=
        String.eqb
          (js_String (if js_truthy query_includePasswords then query_includePasswords
                      else Some (JStr "false")))
          "true" in
      match
        (secret ← decryptJSON env (enc acc) (aad_of (acc_id acc) (acc_integrationId acc));
         lb ← js_get (Some secret) "label";
         pe ← js_get (Some secret) "primaryEmail";
         im ← js_get (Some secret) "imap";
         sm ← js_get (Some secret) "smtp";
         OK (JObj [("id", JStr (acc_id acc));
                   ("integrationId", JStr (acc_integrationId acc));
                   ("createdAt", JStr (createdAt acc));
                   ("updatedAt", JStr (updatedAt acc));
                   ("secret",
                    JObj (("label", js_or_null lb)
                          :: js_member "primaryEmail" pe
                          ++ js_member "imap" (redact includePw im)
                          ++ js_member "smtp" (redact includePw sm)))]))
      with
      | OK body => Sent 200 body
      | Err e => Caught e
      end
  end.

(** [POST /accounts/:id/test]. *)
Definition post_test (store : Store) (id : string) : result unit :=
  acc ← loadAccount store id true;
  match acc with
  | None => Err TypeError
  | Some a =>
      secret ← decryptJSON env (enc a) (aad_of (acc_id a) (acc_integrationId a));
      transporter ← smtpTransportFromSecret (Some secret);
      verified ← smtp_verify transporter;
      config ← imapConfigFromSecret (Some secret);
      imap_login config
  end.

End Accounts.

(** ** Reading messages: the page of [GET /accounts/:id/messages] *)

(** The text after one white-space character (WhiteSpace or
    LineTerminator of ECMAScript) at the head of [s]: TAB to CR and the
    space, U+00A0, U+1680, U+2000 to U+200A, U+2028, U+2029, U+202F,
    U+205F, U+3000 and U+FEFF in UTF-8. *)
Definition strip_space (s : list ascii) : option (list ascii) :=
  match s with
  | [] => None
  | c :: r =>
      let n := Z_of_ascii c in
      if ((n =? 32) || ((9 <=? n) && (n <=? 13)))%Z then Some r
      else
        match r with
        | [] => None
        | c1 :: r1 =>
            let n1 := Z_of_ascii c1 in
            if ((n =? 194) && (n1 =? 160))%Z then Some r1
            else
              match r1 with
              | [] => None
              | c2 :: r2 =>
                  let n2 := Z_of_ascii c2 in
                  if (((n =? 225) && (n1 =? 154) && (n2 =? 128))
                      || ((n =? 226) && (n1 =? 128)
                          && (((128 <=? n2) && (n2 <=? 138))
                              || (n2 =? 168) || (n2 =? 169) || (n2 =? 175)))
                      || ((n =? 226) && (n1 =? 129) && (n2 =? 159))
                      || ((n =? 227) && (n1 =? 128) && (n2 =? 128))
                      || ((n =? 239) && (n1 =? 187) && (n2 =? 191)))%Z
                  then Some r2
                  else None
              end
        end
  end.

Fixpoint skip_spaces (fuel : nat) (s : list ascii) : list ascii :=
  match fuel with
  | O => s
  | S f =>
      match strip_space s with
      | Some r => skip_spaces f r
      | None => s
      end
  end.

(** [s] without its leading white space. *)
Definition trim_start (s : list ascii) : list ascii := skip_spaces (length s) s.

(** [parseInt(s, 10)]; [None] is [NaN]. The result is the integer the
    digits denote: JavaScript holds the double nearest to it, which is the
    same number below 2^53 in magnitude. *)
Definition js_parseInt (s : string) : option Z :=
  let t := trim_start (list_ascii_of_string s) in
  let '(negative, t1) :=
    match t with
    | c :: r =>
        if Ascii.eqb c "-"%char then (true, r)
        else if Ascii.eqb c "+"%char then (false, r)
        else (false, t)
    | [] => (false, t)
    end in
  match fst (parse_digits t1) with
  | Decimal.Nil => None
  | u => Some (if negative then (- Z.of_uint u)%Z else Z.of_uint u)
  end.

(** [Math.min(parseInt(String(req.query.limit || "20"), 10) || 20, 100)]. *)
Definition messages_limit (query_limit : option json) : Z :=
  let parsed :=
    js_parseInt (js_String (if js_truthy query_limit then query_limit
                            else Some (JStr "20"))) in
  Z.min (match parsed with
         | Some n => if (n =? 0)%Z then 20 else n
         | None => 20
         end) 100.

(** [a.slice(start)]. *)
Definition js_slice {A} (a : list A) (start : Z) : list A :=
  let len := Z.of_nat (length a) in
  let k := if (start <? 0)%Z then Z.max (len + start) 0 else Z.min start len in
  drop (Z.to_nat k) a.

(** [uids = seq.slice(-limit)], the messages the handler fetches out of
    the ones the search returned. *)
Definition messages_uids (query_limit : option json) (seq : list Z) : list Z :=
  js_slice seq (- messages_limit query_limit).

(** ** Start-up

    What starting the application does with this module: [app.js] requires
    the router, whose top level creates the Redis client and the
    [watchers] map and registers the routes. No statement of it reads the
    master key; [getMasterKey] runs inside [hkdfSubkey], on each
    encryption and decryption. *)
Definition startup (env : Env) (s : Store) : result State := OK (module_loaded s).

(** ** Vocabulary of the statements *)

(** The sign "@" occurs in [s]. *)
Fixpoint has_at (s : string) : bool :=
  match s with
  | EmptyString => false
  | String c r => Ascii.eqb c "@"%char || has_at r
  end.

Definition is_validation_error (e : error) : Prop := exists m, e = ValidationError m.

(** What a character of a string becomes in the literal [JSON.stringify]
    writes, read back: itself, or the code unit of its [\u00XX] escape. *)
Definition item_of_char (c : ascii) : str_item :=
  let n := Z_of_ascii c in
  if ((n <? 32) && negb ((n =? 8) || (n =? 9) || (n =? 10) || (n =? 12) || (n =? 13)))%Z
  then Unit16 n else Raw c.

(** The characters a number literal starts with. *)
Definition number_start (c : ascii) : bool :=
  match digit_of_char c with Some _ => true | None => Ascii.eqb c "-"%char end.

(** The text after a value inside an array or an object, or at the end. *)
Definition after_value (rest : list ascii) : Prop :=
  match rest with
  | [] => True
  | c :: _ => c = ","%char \/ c = "]"%char \/ c = "}"%char
  end.

(** A printed value starts with a character that is neither white space
    nor a closing bracket. *)
Definition value_start (c : ascii) : Prop :=
  is_ws c = false /\ Ascii.eqb c "]"%char = false /\ Ascii.eqb c "}"%char = false.

(** The parser [pv] reads back the printed form of [x]. *)
Definition reads (pv : list ascii -> option (json * list ascii)) (x : json) : Prop :=
  forall rest, after_value rest -> pv (stringify_chars x ++ rest)%list = Some (x, rest).

(** The number of values in a value. *)
Fixpoint jsize (j : json) : nat :=
  match j with
  | JArr items => S (fold_right (fun x n => (jsize x + n)%nat) O items)
  | JObj members => S (fold_right (fun m n => (jsize (snd m) + n)%nat) O members)
  | _ => 1%nat
  end.

(** The tag AES-GCM computes over the associated data [aad] for the
    ciphertext, the salt and the iv of the envelope [e]. *)
Definition tag_under (env : Env) (e : Envelope) (aad : string) : result (list ascii) :=
  key ← hkdfSubkey env (base64_decode (salt e)) "mailbox:v1";
  OK (GCM.tag (AES.key_schedule (bytes_of_buffer key))
        (bytes_of_buffer (base64_decode (iv e)))
        (bytes_of_buffer (list_ascii_of_string aad))
        (base64_decode (ct e))).

(** The watcher object [wid] is the one registered for account [a], with
    subscribers [subs] and last uid [last]. *)
Definition registered (st : State) (wid : nat) (a : string) (subs : gset nat) (last : Z)
  : Prop :=
  watchers st !! a = Some wid /\
  exists w, heap st !! wid = Some w /\ accountId w = a /\ sseClients w = subs /\
            lastUid w = last.

(** The configured master key is absent, or does not decode to 32 bytes. *)
Definition bad_master_key (env : Env) : Prop :=
  match CONFIG_MASTER_KEY_BASE64 env with
  | None => True
  | Some b64 => length (base64_decode b64) <> 32%nat
  end.

(** The records of the store under the account keys of [ids], in the
    order of [ids]. *)
Definition existing_records (store : Store) (ids : list string) : list AccountRecord :=
  omap (fun id => match store !! kAccount id with
                  | Some (RRecord r) => Some r
                  | _ => None
                  end) ids.

(** ** Sample values *)

Definition example_settings (conn : string) : json :=
  JObj [("server", JStr "smtp.x"); ("port", JNum 587); ("username", JStr "a@b.co");
        ("password", JStr "p"); ("connection", JStr conn)].


Definition sample_env : Env :=
  {| CONFIG_MASTER_KEY_BASE64 := Some "AAECAwQFBgcICQoLDA0ODxAREhMUFRYXGBkaGxwdHh8=" |}.

(** A key that decodes to five bytes. *)
Definition short_key_env : Env := {| CONFIG_MASTER_KEY_BASE64 := Some "c2hvcnQ=" |}.

Definition sample_secret : Secret :=
  {| label := None;
     primaryEmail := "a@b.co";
     imap := {| server := "imap.x"; port := 993; username := "a@b.co";
                password := "p"; connection := "SSL/TLS" |};
     smtp := {| server := "smtp.x"; port := 587; username := "sender@b.co";
                password := "p"; connection := "STARTTLS" |} |}.

(** Sixteen and twelve bytes standing for two draws of
    [crypto.randomBytes]. *)
Definition sample_salt : list ascii :=
  buffer_of_bytes [16; 17; 18; 19; 20; 21; 22; 23; 24; 25; 26; 27; 28; 29; 30; 31].
Definition sample_iv : list ascii :=
  buffer_of_bytes [32; 33; 34; 35; 36; 37; 38; 39; 40; 41; 42; 43].

Definition sample_id : string := "01ARZ3NDEKTSV4RRFFQ69G5FAV".

(** [sample_secret] sealed for the account [sample_id] of tenant "u1"
    with the two draws above. *)
Definition sample_envelope : Envelope :=
  {| v := 1;
     alg := "AES-256-GCM";
     salt := "EBESExQVFhcYGRobHB0eHw==";
     iv := "ICEiIyQlJicoKSor";
     tag := "mPkNrs5NuMlhTNYcC+6oxQ==";
     ct := "wd1zstDXnA+fBwJJxQshbdH/iwqq2TCHQkvEIKh6zotstbin6WoNrphX7HmHuWgccLdsvF0iNo4sGfpc+YmHWO8cHJTt4+r6TNvHdnqqNn4xsJvRz/qikNOHjm6ESmafOhmDuJBGuMceRBUfVRcMDPMEvYDKfXHg0ND/flTpwmDMKI4NhGuwVvjQmvFilf3d7taiIbUCque254PUxjdU9Z6HUD9v0dusNLQhdmUHOsNK+UFkP9RNzsAsNqr8BErvfROjgEOLHxNkoUuxPuXHB9UZoZR5zBlpLPaZ2D9dfg==" |}.

Definition sample_record : AccountRecord :=
  {| acc_id := sample_id;
     acc_integrationId := "u1";
     createdAt := "2024-01-01T12:00:00.000Z";
     updatedAt := "2024-01-01T12:00:00.000Z";
     enc := sample_envelope |}.

(** The store after the account was created. *)
Definition sample_store : Store :=
  <[kUserIndex "u1" := RSet {[sample_id]}]>
    (<[kAccount sample_id := RRecord sample_record]> ∅).

Definition sample_send_body : json :=
  JObj [("to", JArr [JStr "x@y.org"]); ("subject", JStr "hello"); ("text", JStr "hi")].

Definition sample_info : SendInfo :=
  {| messageId := "<m1@smtp.x>"; accepted := ["x@y.org"]; rejected := [] |}.

(** The process with one subscriber on the stream of [sample_id], the
    IMAP connection up and [UIDNEXT] 1001. *)
Definition sample_watching : State :=
  run sample_env (module_loaded sample_store)
    [StreamOpen sample_id 100%nat; ImapReady 0%nat (Some 1001)].

(** Two tenant ids for which the envelopes of [sample_id] sealed with
    [sample_salt] under the key of [sample_env] carry the same tag. *)
Definition tenant_one : string := "acmewidgetscorporationtenantnumberone".
Definition tenant_two : string := "jjfqkojhkqwifhupuujtszqmkqluvafjmgiwt".

(** [sample_secret] sealed for [sample_id] of tenant [tenant_one]. *)
Definition tenant_one_envelope : Envelope :=
  {| v := 1;
     alg := "AES-256-GCM";
     salt := salt sample_envelope;
     iv := iv sample_envelope;
     tag := "O8b9IOi0pCWHSNXd2h4mzg==";
     ct := ct sample_envelope |}.

(** A request body for [PUT /accounts/:id] with a new password, and two
    further draws of [crypto.randomBytes]. *)
Definition rotated_body : json :=
  JObj [("primaryEmail", JStr "a@b.co");
        ("imap", JObj [("server", JStr "imap.x"); ("port", JNum 993);
                       ("username", JStr "a@b.co"); ("password", JStr "p2");
                       ("connection", JStr "SSL/TLS")]);
        ("smtp", JObj [("server", JStr "smtp.x"); ("port", JNum 587);
                       ("username", JStr "sender@b.co"); ("password", JStr "p2");
                       ("connection", JStr "STARTTLS")])].

Definition rotated_secret : Secret :=
  {| label := None;
     primaryEmail := "a@b.co";
     imap := {| server := "imap.x"; port := 993; username := "a@b.co";
                password := "p2"; connection := "SSL/TLS" |};
     smtp := {| server := "smtp.x"; port := 587; username := "sender@b.co";
                password := "p2"; connection := "STARTTLS" |} |}.

Definition second_salt : list ascii :=
  buffer_of_bytes [48; 49; 50; 51; 52; 53; 54; 55; 56; 57; 58; 59; 60; 61; 62; 63].
Definition second_iv : list ascii :=
  buffer_of_bytes [64; 65; 66; 67; 68; 69; 70; 71; 72; 73; 74; 75].

Definition sample_msg (u : Z) : Msg :=
  {| uid := u; msg_subject := Some "hello"; msg_from := ["x@y.org"];
     msg_to := ["a@b.co"]; internalDate := Some "2024-01-02T09:00:00.000Z";
     flags := [] |}.

(** ** Further vocabulary *)

(** The envelope [e] with its [tag] field replaced. *)
Definition with_tag (e : Envelope) (t : string) : Envelope :=
  {| v := v e; alg := alg e; salt := salt e; iv := iv e; tag := t; ct := ct e |}.

(** The member [k] of a value; [None] when the value is not an object or
    has no such member. *)
Definition member (k : string) (j : json) : option json :=
  match j with
  | JObj members => obj_get k members
  | _ => None
  end.

(** The settings pass [ServerSettings]. *)
Definition valid_settings (s : ServerSettings) : Prop :=
  server s <> "" /\ (0 < port s)%Z /\ username s <> "" /\ password s <> "" /\
  (connection s = "SSL/TLS" \/ connection s = "STARTTLS").

(** Every address of the list passes the email test. *)
Definition all_emails (is_email : string -> bool) (l : list string) : Prop :=
  Forall (fun a => is_email a = true) l.

(** The secret [POST /accounts] builds from a request. *)
Definition secret_of (b : CreateAccount) : Secret :=
  {| label := c_label b; primaryEmail := c_primaryEmail b;
     imap := c_imap b; smtp := c_smtp b |}.

(** The connectivity test that [POST /accounts] and
    [POST /accounts/:id/test] run on a secret: the SMTP server verifies,
    then the IMAP server accepts the login. *)
Definition connectivity (smtp_verify : TransportOptions -> result unit)
    (imap_login : ImapConfig -> result unit) (secret : json) : result unit :=
  transporter ← smtpTransportFromSecret (Some secret);
  verified ← smtp_verify transporter;
  config ← imapConfigFromSecret (Some secret);
  imap_login config.

(** The members of the index of tenant [t]. *)
Definition index_of (store : Store) (t : string) : gset string :=
  match store !! kUserIndex t with
  | Some (RSet s) => s
  | _ => ∅
  end.

(** The store holds nothing but account records, each under the key of
    its own id, and non-empty tenant indexes; every record is a member of
    the index of its tenant, and every member of an index is the id of a
    record of that tenant. *)
Definition consistent (store : Store) : Prop :=
  (forall k r, store !! k = Some (RRecord r) -> k = kAccount (acc_id r)) /\
  (forall k s, store !! k = Some (RSet s) -> s <> ∅ /\ exists t, k = kUserIndex t) /\
  (forall id r, store !! kAccount id = Some (RRecord r) ->
     exists s, store !! kUserIndex (acc_integrationId r) = Some (RSet s) /\ id ∈ s) /\
  (forall t s id, store !! kUserIndex t = Some (RSet s) -> id ∈ s ->
     exists r, store !! kAccount id = Some (RRecord r) /\ acc_integrationId r = t).

(** What [ensureWatcher] reads of the account before it creates a
    watcher: the record, its secret and the IMAP settings in it. *)
Definition watch_config (env : Env) (st : State) (a : string) : result ImapConfig :=
  acc ← loadAccount (store st) a true;
  match acc with
  | None => Err TypeError
  | Some r =>
      secret ← decryptJSON env (enc r) (aad_of (acc_id r) (acc_integrationId r));
      imapConfigFromSecret (Some secret)
  end.



(** The uid the watcher starts from: one below [UIDNEXT], zero when the
    server gave none. *)
Definition baseline (uidNext : option Z) : Z :=
  match uidNext with
  | Some n => if (n =? 0)%Z then 0%Z else Z.max 0 (n - 1)
  | None => 0%Z
  end.

(** What [GET /accounts/:id?includePasswords=true] answers for the record
    [acc] holding the secret [s]. *)
Definition details_of (acc : AccountRecord) (s : Secret) : json :=
  JObj [("id", JStr (acc_id acc));
        ("integrationId", JStr (acc_integrationId acc));
        ("createdAt", JStr (createdAt acc));
        ("updatedAt", JStr (updatedAt acc));
        ("secret",
         JObj [("label", match label s with
                         | Some l => if String.eqb l "" then JNull else JStr l
                         | None => JNull
                         end);
               ("primaryEmail", JStr (primaryEmail s));
               ("imap", json_of_ServerSettings (imap s));
               ("smtp", json_of_ServerSettings (smtp s))])].

(** The entry of the list for the account the request [b] created. *)
Definition summary_of_create (b : CreateAccount) (id now : string) : AccountSummary :=
  {| s_id := id;
     s_integrationId := c_integrationId b;
     s_label := match c_label b with
                | Some l => if String.eqb l "" then JNull else JStr l
                | None => JNull
                end;
     primaryEmailMasked := maskEmail (Some (JStr (c_primaryEmail b)));
     s_createdAt := now;
     s_updatedAt := now |}.

(** *** Further sample values *)

(** The request that created [sample_record]. *)
Definition sample_create_body : json :=
  JObj [("integrationId", JStr "u1");
        ("primaryEmail", JStr "a@b.co");
        ("imap", JObj [("server", JStr "imap.x"); ("port", JNum 993);
                       ("username", JStr "a@b.co"); ("password", JStr "p");
                       ("connection", JStr "SSL/TLS")]);
        ("smtp", JObj [("server", JStr "smtp.x"); ("port", JNum 587);
                       ("username", JStr "sender@b.co"); ("password", JStr "p");
                       ("connection", JStr "STARTTLS")])].

Definition sample_create : CreateAccount :=
  {| c_integrationId := "u1"; c_label := None; c_primaryEmail := "a@b.co";
     c_imap := imap sample_secret; c_smtp := smtp sample_secret;
     testConnection := false |}.

(** What [GET /accounts/:id] answers for [sample_id] without
    [includePasswords]. *)
Definition sample_details : json :=
  JObj [("id", JStr sample_id);
        ("integrationId", JStr "u1");
        ("createdAt", JStr "2024-01-01T12:00:00.000Z");
        ("updatedAt", JStr "2024-01-01T12:00:00.000Z");
        ("secret",
         JObj [("label", JNull);
               ("primaryEmail", JStr "a@b.co");
               ("imap", JObj [("server", JStr "imap.x"); ("port", JNum 993);
                              ("username", JStr "a@b.co");
                              ("connection", JStr "SSL/TLS");
                              ("hasPassword", JBool true)]);
               ("smtp", JObj [("server", JStr "smtp.x"); ("port", JNum 587);
                              ("username", JStr "sender@b.co");
                              ("connection", JStr "STARTTLS");
                              ("hasPassword", JBool true)])])].

(** The process of [sample_watching] once the server has announced a
    message and the listener has started its fetch. *)
Definition sample_fetching : State :=
  run sample_env sample_watching [ImapExists 0%nat].

(** The members of an object. *)
Definition members_of (j : json) : list (string * json) :=
  match j with
  | JObj members => members
  | _ => []
  end.

(** The process with one subscriber on the stream of [sample_id] while
    the IMAP connection is still being set up. *)
Definition sample_opened : State :=
  run sample_env (module_loaded sample_store) [StreamOpen sample_id 100%nat].

(** The watcher object of [sample_id] in these processes. *)
Definition sample_watcher (last : Z) (idle : option nat) : Watcher :=
  {| accountId := sample_id; lastUid := last; client := Some 0%nat;
     sseClients := {[100%nat]}; stopping := false; idleTimer := idle |}.
(** * Properties *)

(** ** Known answers for the primitives *)

(** SHA-256 of "abc" (FIPS 180-4). *)
Example sha256_abc :
  be_to_Z (SHA256.hash (bytes_of_buffer (list_ascii_of_string "abc")))
  = 0xba7816bf8f01cfea414140de5dae2223b00361a396177a9cb410ff61f20015ad%Z.
Proof. vm_compute. reflexivity. Qed.

(** HKDF-SHA256, test case 1 of RFC 5869 (42 bytes of output). *)
Example hkdf_rfc5869_case1 :
  be_to_Z (hkdfSync_sha256 (repeat 11%Z 22) (Z_to_be 13 0x000102030405060708090a0b0c%Z)
             (Z_to_be 10 0xf0f1f2f3f4f5f6f7f8f9%Z) 42)
  = 0x3cb25f25faacd57a90434f64d0362f2a2d2d0a90cf1a5a4c5db02d56ecc4c5bf34007208d5b887185865%Z.
Proof. vm_compute. reflexivity. Qed.

(** AES-256, the example vector of FIPS 197, appendix C.3. *)
Example aes256_fips197 :
  be_to_Z (AES.encrypt_block
             (Z_to_be 32 0x000102030405060708090a0b0c0d0e0f101112131415161718191a1b1c1d1e1f%Z)
             (Z_to_be 16 0x00112233445566778899aabbccddeeff%Z))
  = 0x8ea2b7ca516745bfeafc49904b496089%Z.
Proof. vm_compute. reflexivity. Qed.

(** AES-256-GCM with associated data and a partial last block: test case
    16 of the GCM specification. *)
Example gcm_test_case_16 :
  let key := buffer_of_bytes
      (Z_to_be 32 0xfeffe9928665731c6d6a8f9467308308feffe9928665731c6d6a8f9467308308%Z) in
  let iv := buffer_of_bytes (Z_to_be 12 0xcafebabefacedbaddecaf888%Z) in
  let aad := buffer_of_bytes (Z_to_be 20 0xfeedfacedeadbeeffeedfacedeadbeefabaddad2%Z) in
  let pt := buffer_of_bytes
      (Z_to_be 60 0xd9313225f88406e5a55909c5aff5269a86a7a9531534f7da2e4c303d8a318a721c3c0c95956809532fcf0e2449a6b525b16aedf5aa0de657ba637b39%Z) in
  let '(ct, tg) := GCM.encrypt key iv aad pt in
  be_to_Z (bytes_of_buffer ct)
  = 0x522dc1f099567d07f47f37a32a84427d643a8cdcbfe5c0c97598a2bd2555d1aa8cb08e48590dbb3da7b08b1056828838c5f61e6393ba7a0abcc9f662%Z
  /\ be_to_Z (bytes_of_buffer tg) = 0x76fc6ece0f4e1768cddf8853bb2d551b%Z
  /\ GCM.decrypt key iv aad ct tg = Some pt.
Proof. vm_compute. repeat split. Qed.

Example base64_examples :
  base64_encode (list_ascii_of_string "hello w") = "aGVsbG8gdw==" /\
  base64_decode "aGVs bG8gdw" = list_ascii_of_string "hello w".
Proof. split; reflexivity. Qed.

(** A character above U+00FF is read as its low byte: U+0161 as "a",
    U+0141 as "A". *)
Example base64_low_byte_example :
  base64_decode "aGVsbG8=" = list_ascii_of_string "hello" /\
  base64_decode "šGVsbG8=" = list_ascii_of_string "hello" /\
  getMasterKey {| CONFIG_MASTER_KEY_BASE64 :=
                    Some "ŁAECAwQFBgcICQoLDA0ODxAREhMUFRYXGBkaGxwdHh8=" |}
  = getMasterKey sample_env.
Proof. repeat split; vm_compute; reflexivity. Qed.

Example JSON_examples :
  JSON_stringify (JArr [JNum 1; JNum (-2); JNull; JBool true; JArr []; JObj []])
    = "[1,-2,null,true,[],{}]" /\
  JSON_parse " [ 1 , [ 2 ] , {} ] " = Some (JArr [JNum 1; JArr [JNum 2]; JObj []]) /\
  String.length (JSON_stringify (JObj [("a", JStr "x\y")])) = 12%nat /\
  JSON_parse "01" = None /\ JSON_parse "[1,]" = None /\ JSON_parse "1.5" = None.
Proof. repeat split. Qed.

(** ** Email masking *)

Lemma split_at_sign_plain (s : string) :
  has_at s = false -> split_at_sign s = [s].
Proof.
  induction s as [|c r IH]; simpl; [reflexivity|].
  intros H. apply orb_false_iff in H as [Hc Hr].
  rewrite Hc, (IH Hr). reflexivity.
Qed.

Lemma split_at_sign_address (name domain : string) :
  has_at name = false -> has_at domain = false ->
  split_at_sign (name ++ "@" ++ domain) = [name; domain].
Proof.
  intros Hn Hd. induction name as [|c r IH]; simpl in *.
  - now rewrite split_at_sign_plain.
  - apply orb_false_iff in Hn as [Hc Hr].
    rewrite Hc, (IH Hr). reflexivity.
Qed.

Lemma js_char_at_substring (s : string) (i : nat) :
  (i < String.length s)%nat -> js_char_at s i = substring i 1 s.
Proof.
  revert i. induction s as [|c r IH]; intros i Hi; simpl in Hi; [lia|].
  destruct i as [|i].
  - unfold js_char_at. simpl. now destruct r.
  - unfold js_char_at in *. simpl. apply IH. lia.
Qed.

(** C5, as the code has it: for an address [name@domain] with a
    non-empty name and domain, the masked form keeps the domain verbatim;
    a name of three characters or more shows its first and last character
    around [n - 2] asterisks, and a name of one or two characters shows its
    first character and one asterisk. *)
Theorem maskEmail_address (name domain : string) :
  name <> "" -> domain <> "" ->
  has_at name = false -> has_at domain = false ->
  let n := String.length name in
  maskEmail (Some (JStr (name ++ "@" ++ domain))) =
    (if (n <=? 2)%nat then substring 0 1 name ++ "*"
     else substring 0 1 name ++ js_repeat "*" (n - 2) ++ substring (n - 1) 1 name)
      ++ "@" ++ domain.
Proof.
  intros Hname Hdom Hn Hd n. unfold maskEmail.
  cbn [js_String js_String_json].
  rewrite (split_at_sign_address _ _ Hn Hd).
  cbn [nth nth_error].
  assert (Hlen : (0 < n)%nat).
  { subst n. destruct name; [congruence|simpl; lia]. }
  destruct domain as [|d ds]; [congruence|].
  fold n. rewrite !js_char_at_substring by (fold n; lia).
  destruct (n <=? 2)%nat eqn:Hle; [reflexivity|].
  apply Nat.leb_gt in Hle.
  replace (Nat.max 1 (n - 2)) with (n - 2)%nat by lia.
  reflexivity.
Qed.

Lemma maskEmail_address_witness :
  maskEmail (Some (JStr ("alice" ++ "@" ++ "b.co"))) = "a***e@b.co".
Proof.
  rewrite (maskEmail_address "alice" "b.co"); [reflexivity|discriminate|discriminate|reflexivity|reflexivity].
Defined.

(** The boundary address of the specification is masked, not returned as
    it is. *)
Lemma maskEmail_boundary_counterexample :
  maskEmail (Some (JStr "a@b.co")) = "a*@b.co" /\
  maskEmail (Some (JStr "a@b.co")) <> "a@b.co".
Proof. split; [reflexivity|discriminate]. Qed.

(** ** Connection mode *)

Ltac bind_cases H :=
  unfold mbind, result_bind in H;
  repeat match type of H with
         | context [match ?r with OK _ => _ | Err _ => _ end] =>
             let E := fresh "E" in destruct r eqn:E; try discriminate H
         end.

Lemma ConnType_parse_OK (o : option json) (s : string) :
  ConnType_parse o = OK s ->
  o = Some (JStr s) /\ (s = "SSL/TLS" \/ s = "STARTTLS").
Proof.
  unfold ConnType_parse, invalid.
  destruct o as [[| | |s'| |]|]; try discriminate.
  simpl. rewrite orb_false_r.
  destruct (String.eqb s' "SSL/TLS") eqn:E1; simpl.
  - intros [= <-]. apply String.eqb_eq in E1. auto.
  - destruct (String.eqb s' "STARTTLS") eqn:E2; [|discriminate].
    intros [= <-]. apply String.eqb_eq in E2. auto.
Qed.

Lemma ServerSettings_parse_connection (o : option json) (s : ServerSettings) :
  ServerSettings_parse o = OK s ->
  connection s = "SSL/TLS" \/ connection s = "STARTTLS".
Proof.
  unfold ServerSettings_parse, invalid. intros H.
  destruct o as [[| | | | |ms]|]; try discriminate H.
  bind_cases H. injection H as <-. simpl.
  now apply ConnType_parse_OK in E3.
Qed.

Lemma z_string_min1_Err what o e :
  z_string_min1 what o = Err e -> is_validation_error e.
Proof.
  unfold z_string_min1, invalid.
  destruct o as [[| | |s| |]|]; try destruct (String.eqb s ""); intros [= <-];
    red; eauto.
Qed.

Lemma z_positive_int_Err what o e :
  z_positive_int what o = Err e -> is_validation_error e.
Proof.
  unfold z_positive_int, invalid.
  destruct o as [[| |n| | |]|]; try destruct (0 <? n)%Z; intros [= <-];
    red; eauto.
Qed.

Lemma ConnType_parse_Err o e :
  ConnType_parse o = Err e -> is_validation_error e.
Proof.
  unfold ConnType_parse, invalid.
  destruct o as [[| | |s| |]|]; try destruct (existsb _ _); intros [= <-];
    red; eauto.
Qed.

Lemma ServerSettings_parse_Err (o : option json) (e : error) :
  ServerSettings_parse o = Err e -> is_validation_error e.
Proof.
  unfold ServerSettings_parse, invalid.
  destruct o as [[| | | | |ms]|]; try (intros [= <-]; red; eauto).
  unfold mbind, result_bind.
  destruct (z_string_min1 _ _) eqn:E1;
    [|intros [= <-]; eauto using z_string_min1_Err].
  destruct (z_positive_int _ _) eqn:E2;
    [|intros [= <-]; eauto using z_positive_int_Err].
  destruct (z_string_min1 "username" _) eqn:E3;
    [|intros [= <-]; eauto using z_string_min1_Err].
  destruct (z_string_min1 "password" _) eqn:E4;
    [|intros [= <-]; eauto using z_string_min1_Err].
  destruct (ConnType_parse _) eqn:E5;
    [discriminate|intros [= <-]; eauto using ConnType_parse_Err].
Qed.

(** C6, as the code has it: an accepted [ServerSettings] has [connection]
    equal to "SSL/TLS" or "STARTTLS", every other value being a validation
    error; and the transport built from a secret with these SMTP settings
    has [secure] (TLS on connect) exactly for "SSL/TLS" and [requireTLS]
    (the STARTTLS upgrade is mandatory) exactly for "STARTTLS". *)
Theorem connection_mode (o : option json) (s : ServerSettings) :
  ServerSettings_parse o = OK s ->
  (connection s = "SSL/TLS" \/ connection s = "STARTTLS") /\
  (forall members,
      obj_get "smtp" members = Some (json_of_ServerSettings s) ->
      exists t, smtpTransportFromSecret (Some (JObj members)) = OK t /\
                (secure t = true <-> connection s = "SSL/TLS") /\
                (requireTLS t = true <-> connection s = "STARTTLS")) /\
  (forall ms,
      obj_get "connection" ms <> Some (JStr "SSL/TLS") ->
      obj_get "connection" ms <> Some (JStr "STARTTLS") ->
      exists m, ServerSettings_parse (Some (JObj ms)) = Err (ValidationError m)).
Proof.
  intros H. split; [|split].
  - exact (ServerSettings_parse_connection _ _ H).
  - intros members Hsmtp. unfold smtpTransportFromSecret.
    cbn [js_get mbind result_bind]. rewrite Hsmtp.
    cbn -[String.eqb]. eexists; split; [reflexivity|].
    cbn [secure requireTLS]. split; apply String.eqb_eq.
  - intros ms H1 H2.
    destruct (ServerSettings_parse (Some (JObj ms))) as [s'|e] eqn:E.
    + exfalso. pose proof E as E'. unfold ServerSettings_parse in E'.
      bind_cases E'. apply ConnType_parse_OK in E4 as [Hc [-> | ->]]; congruence.
    + destruct (ServerSettings_parse_Err _ _ E) as [m ->]. eauto.
Qed.

Lemma connection_mode_witness :
  exists t,
    smtpTransportFromSecret (Some (JObj [("smtp", example_settings "STARTTLS")])) = OK t /\
    (requireTLS t = true <-> "STARTTLS" = "STARTTLS").
Proof.
  destruct (connection_mode (Some (example_settings "STARTTLS"))
              {| server := "smtp.x"; port := 587; username := "a@b.co";
                 password := "p"; connection := "STARTTLS" |} eq_refl)
    as (_ & Ht & _).
  destruct (Ht [("smtp", example_settings "STARTTLS")] eq_refl) as (t & Heq & _ & Hr).
  exists t. split; [exact Heq|exact Hr].
Defined.

(** The schema accepts "SSL/TLS", which is neither of the two values of
    the specification, and rejects "TLS". *)
Lemma connection_mode_counterexample :
  (exists s, ServerSettings_parse (Some (example_settings "SSL/TLS")) = OK s /\
             connection s <> "TLS" /\ connection s <> "STARTTLS") /\
  ServerSettings_parse (Some (example_settings "TLS")) = Err (ValidationError "connection").
Proof.
  split; [|reflexivity].
  eexists. split; [reflexivity|]. split; discriminate.
Qed.

(** ** Master key *)

Lemma getMasterKey_bad (env : Env) :
  bad_master_key env -> exists m, getMasterKey env = Err (ConfigError m).
Proof.
  unfold bad_master_key, getMasterKey.
  destruct (CONFIG_MASTER_KEY_BASE64 env) as [b64|]; [|eauto].
  intros Hlen. destruct (String.eqb b64 ""); [eauto|].
  destruct (Nat.eqb_spec (length (base64_decode b64)) 32); [contradiction|eauto].
Qed.

(** ** Sender address *)

Lemma sample_envelope_sealed :
  encryptJSON sample_env sample_salt sample_iv (json_of_Secret sample_secret)
    (aad_of sample_id "u1") = OK sample_envelope.
Proof. vm_compute. reflexivity. Qed.

Lemma sample_envelope_opens :
  decryptJSON sample_env sample_envelope (aad_of sample_id "u1")
    = OK (json_of_Secret sample_secret).
Proof. vm_compute. reflexivity. Qed.

Lemma sample_store_account :
  sample_store !! kAccount sample_id = Some (RRecord sample_record).
Proof. vm_compute. reflexivity. Qed.

Lemma loadAccount_Some (store : Store) (id : string) (b : bool) (a : AccountRecord) :
  loadAccount store id b = OK (Some a) -> store !! kAccount id = Some (RRecord a).
Proof.
  unfold loadAccount, redis_get. cbn [mbind result_bind].
  destruct (store !! kAccount id) as [[r|s]|]; try discriminate.
  - now intros [= ->].
  - destruct b; discriminate.
Qed.

Lemma smtp_username_of_Secret (sec : Secret) :
  (s ← js_get (Some (json_of_Secret sec)) "smtp"; js_get s "username")
    = OK (Some (JStr (username (smtp sec)))).
Proof. unfold json_of_Secret. destruct (label sec); reflexivity. Qed.

(** C9: whenever [POST /accounts/:id/send] answers with the result of a
    send, exactly one message went to the transport, and its [from] is the
    [smtp.username] of the secret decrypted from the account's record,
    whatever [primaryEmail] and the request body hold. *)
Theorem send_from_is_smtp_username (env : Env) (is_email : string -> bool)
    (sendMail : TransportOptions -> MailOptions -> result SendInfo)
    (store : Store) (id : string) (body : option json)
    (calls : list (TransportOptions * MailOptions)) (info : SendInfo) :
  post_send env is_email sendMail store id body = (calls, OK info) ->
  exists acc secret transporter mail,
    store !! kAccount id = Some (RRecord acc) /\
    decryptJSON env (enc acc) (aad_of (acc_id acc) (acc_integrationId acc)) = OK secret /\
    calls = [(transporter, mail)] /\
    sendMail transporter mail = OK info /\
    (s ← js_get (Some secret) "smtp"; js_get s "username") = OK (m_from mail) /\
    (forall sec, secret = json_of_Secret sec ->
                 m_from mail = Some (JStr (username (smtp sec)))).
Proof.
  unfold post_send, mbind, result_bind. intros H.
  destruct (SendSchema_parse is_email body) as [msg|] eqn:Emsg; [|discriminate H].
  destruct (loadAccount store id true) as [[acc|]|] eqn:Eacc; try discriminate H.
  destruct (decryptJSON env (enc acc) _) as [secret|] eqn:Edec; [|discriminate H].
  destruct (smtpTransportFromSecret (Some secret)) as [tr|] eqn:Etr; [|discriminate H].
  destruct (mail_of secret msg) as [mail|] eqn:Email; [|discriminate H].
  injection H as <- Hsend.
  exists acc, secret, tr, mail. split; [eauto using loadAccount_Some|].
  split; [assumption|]. split; [reflexivity|]. split; [assumption|].
  assert (Hfrom : (s ← js_get (Some secret) "smtp"; js_get s "username") = OK (m_from mail)).
  { unfold mail_of, mbind, result_bind in Email |- *.
    destruct (js_get (Some secret) "smtp") as [s|]; [|discriminate Email].
    destruct (js_get s "username") as [us|]; [|discriminate Email].
    now injection Email as <-. }
  split; [exact Hfrom|].
  intros sec ->. rewrite smtp_username_of_Secret in Hfrom. congruence.
Qed.

Lemma sample_send_response :
  post_send sample_env (fun _ => true) (fun _ _ => OK sample_info)
    sample_store sample_id (Some sample_send_body)
  = (fst (post_send sample_env (fun _ => true) (fun _ _ => OK sample_info)
            sample_store sample_id (Some sample_send_body)), OK sample_info).
Proof. vm_compute. reflexivity. Qed.

Lemma send_from_is_smtp_username_witness :
  exists acc secret transporter mail,
    sample_store !! kAccount sample_id = Some (RRecord acc) /\
    decryptJSON sample_env (enc acc) (aad_of (acc_id acc) (acc_integrationId acc))
      = OK secret /\
    fst (post_send sample_env (fun _ => true) (fun _ _ => OK sample_info)
           sample_store sample_id (Some sample_send_body))
      = [(transporter, mail)] /\
    (fun _ _ => OK sample_info) transporter mail = OK sample_info /\
    (s ← js_get (Some secret) "smtp"; js_get s "username") = OK (m_from mail) /\
    (forall sec, secret = json_of_Secret sec ->
                 m_from mail = Some (JStr (username (smtp sec)))).
Proof.
  exact (send_from_is_smtp_username sample_env (fun _ => true)
           (fun _ _ => OK sample_info) sample_store sample_id
           (Some sample_send_body) _ sample_info sample_send_response).
Defined.

Lemma sample_send_from :
  exists tr mail,
    fst (post_send sample_env (fun _ => true) (fun _ _ => OK sample_info)
           sample_store sample_id (Some sample_send_body)) = [(tr, mail)] /\
    m_from mail = Some (JStr "sender@b.co").
Proof. eexists _, _. split; vm_compute; reflexivity. Qed.

(** ** Listing *)

Lemma list_loop_existing (env : Env) (store : Store) (ids : list string) :
  (forall id s, id ∈ ids -> store !! kAccount id <> Some (RSet s)) ->
  list_loop env store ids = mapM (summary_of env) (existing_records store ids).
Proof.
  induction ids as [|id rest IH]; intros Hsets; [reflexivity|].
  assert (IH' := IH (fun i s Hi => Hsets i s (list_elem_of_further _ _ _ Hi))).
  specialize (Hsets id). unfold existing_records in *.
  cbn [list_loop omap list_omap]. unfold loadAccount, redis_get.
  cbn [mbind result_bind].
  destruct (store !! kAccount id) as [[r|s]|] eqn:E.
  - cbn [mapM mbind result_bind]. now rewrite IH'.
  - exfalso. apply (Hsets s); [left|reflexivity].
  - exact IH'.
Qed.

Lemma elem_of_existing_records (store : Store) (ids : list string) (r : AccountRecord) :
  r ∈ existing_records store ids <->
  exists id, id ∈ ids /\ store !! kAccount id = Some (RRecord r).
Proof.
  unfold existing_records. rewrite list_elem_of_omap. split.
  - intros (id & Hin & H). exists id. split; [assumption|].
    destruct (store !! kAccount id) as [[r'|]|]; congruence.
  - intros (id & Hin & H). exists id. split; [assumption|]. now rewrite H.
Qed.

Lemma mapM_is_OK {A B} (f : A -> result B) (l : list A) :
  (forall x, x ∈ l -> is_OK (f x) = true) -> is_OK (mapM f l) = true.
Proof.
  induction l as [|x r IH]; intros H; [reflexivity|].
  cbn [mapM mbind result_bind].
  pose proof (H x ltac:(left)) as Hx. destruct (f x); [|discriminate].
  pose proof (IH (fun y Hy => H y (list_elem_of_further _ _ _ Hy))) as Hr.
  destruct (mapM f r); [reflexivity|discriminate].
Qed.

(** C10: for a tenant whose index holds the set [index], the listing is
    what the summaries of the records that exist under the members'
    account keys give, member by member in the order the index is read; a
    member with no record adds nothing, and the listing fails only if the
    summary of a record that exists does. *)
Theorem list_skips_dangling (env : Env) (store : Store) (t : string)
    (index : gset string) :
  t <> "" ->
  store !! kUserIndex t = Some (RSet index) ->
  (forall id s, id ∈ index -> store !! kAccount id <> Some (RSet s)) ->
  get_accounts env store (Some (JStr t))
    = mapM (summary_of env) (existing_records store (elements index)) /\
  (forall r, r ∈ existing_records store (elements index) <->
             exists id, id ∈ index /\ store !! kAccount id = Some (RRecord r)) /\
  ((forall id r, id ∈ index -> store !! kAccount id = Some (RRecord r) ->
                 is_OK (summary_of env r) = true) ->
   is_OK (get_accounts env store (Some (JStr t))) = true).
Proof.
  intros Ht Hidx Hsets.
  assert (Heq : get_accounts env store (Some (JStr t))
                = mapM (summary_of env) (existing_records store (elements index))).
  { unfold get_accounts, redis_smembers. cbn [js_truthy].
    destruct (String.eqb_spec t ""); [contradiction|].
    cbn [negb js_String js_String_json].
    destruct (String.eqb_spec t ""); [contradiction|].
    rewrite Hidx. cbn [mbind result_bind].
    apply list_loop_existing. intros id s Hin. apply Hsets.
    now apply elem_of_elements. }
  assert (Hmem : forall r, r ∈ existing_records store (elements index) <->
             exists id, id ∈ index /\ store !! kAccount id = Some (RRecord r)).
  { intros r. rewrite elem_of_existing_records.
    split; intros (id & Hin & H); exists id; (split; [|exact H]);
      now apply elem_of_elements. }
  split; [exact Heq|]. split; [exact Hmem|].
  intros Hok. rewrite Heq. apply mapM_is_OK.
  intros r Hr. apply Hmem in Hr as (id & Hin & H). eauto.
Qed.

(** The index of a tenant names [sample_id] and an account whose record
    is gone. *)
Lemma list_skips_dangling_witness :
  get_accounts sample_env
    (<[kUserIndex "u1" := RSet {[sample_id; "01GONE"]}]> sample_store)
    (Some (JStr "u1"))
    = mapM (summary_of sample_env)
        (existing_records
           (<[kUserIndex "u1" := RSet {[sample_id; "01GONE"]}]> sample_store)
           (elements ({[sample_id; "01GONE"]} : gset string))).
Proof.
  refine (proj1 (list_skips_dangling sample_env
                   (<[kUserIndex "u1" := RSet {[sample_id; "01GONE"]}]> sample_store)
                   "u1" {[sample_id; "01GONE"]} _ _ _)).
  - discriminate.
  - vm_compute. reflexivity.
  - intros id s Hin. apply elem_of_union in Hin as [Hin|Hin];
      apply elem_of_singleton in Hin; subst id; vm_compute; discriminate.
Defined.

Lemma list_dangling_example :
  get_accounts sample_env
    (<[kUserIndex "u1" := RSet {[sample_id; "01GONE"]}]> sample_store) (Some (JStr "u1"))
  = OK [ {| s_id := sample_id; s_integrationId := "u1"; s_label := JNull;
            primaryEmailMasked := "a*@b.co";
            s_createdAt := "2024-01-01T12:00:00.000Z";
            s_updatedAt := "2024-01-01T12:00:00.000Z" |} ].
Proof. vm_compute. reflexivity. Qed.

(** ** Delete *)

Lemma loadAccount_lookup (store : Store) (id : string) (b : bool) :
  loadAccount store id b =
    match store !! kAccount id with
    | Some (RRecord r) => OK (Some r)
    | Some (RSet _) => Err WrongType
    | None => if b then Err NotFound else OK None
    end.
Proof.
  unfold loadAccount, redis_get. cbn [mbind result_bind].
  now destruct (store !! kAccount id) as [[r|s]|].
Qed.

Lemma delete_account_absent (store : Store) (id : string) :
  (forall acc, store !! kAccount id = Some (RRecord acc) -> acc_id acc = id) ->
  snd (delete_account store id) = OK tt ->
  fst (delete_account store id) !! kAccount id = None.
Proof.
  intros Hkey. unfold delete_account. rewrite loadAccount_lookup.
  destruct (store !! kAccount id) as [[acc|s]|] eqn:E; cbn [fst snd]; try discriminate.
  - rewrite (Hkey acc eq_refl). unfold redis_srem, redis_del.
    destruct (delete (kAccount id) store !! kUserIndex (acc_integrationId acc))
      as [[r|s]|] eqn:Ei; cbn [fst snd]; try discriminate; intros _.
    + destruct (decide (s ∖ {[id]} = ∅)).
      * rewrite lookup_delete_ne, lookup_delete_eq; [reflexivity|].
        intros Heq. rewrite Heq, lookup_delete_eq in Ei. discriminate.
      * rewrite lookup_insert_ne, lookup_delete_eq; [reflexivity|].
        intros Heq. rewrite Heq, lookup_delete_eq in Ei. discriminate.
    + apply lookup_delete_eq.
  - intros _. exact E.
Qed.

Lemma delete_account_index (store : Store) (id : string) (acc : AccountRecord)
    (s : gset string) :
  store !! kAccount id = Some (RRecord acc) -> acc_id acc = id ->
  snd (delete_account store id) = OK tt ->
  fst (delete_account store id) !! kUserIndex (acc_integrationId acc) = Some (RSet s) ->
  id ∉ s.
Proof.
  intros E Hid. unfold delete_account. rewrite loadAccount_lookup, E, Hid.
  unfold redis_srem, redis_del.
  destruct (delete (kAccount id) store !! kUserIndex (acc_integrationId acc))
    as [[r|s0]|] eqn:Ei; cbn [fst snd]; try discriminate; intros _.
  - destruct (decide (s0 ∖ {[id]} = ∅)).
    + rewrite lookup_delete_eq. discriminate.
    + rewrite lookup_insert_eq. intros [= <-].
      apply not_elem_of_difference. right. now apply elem_of_singleton.
  - rewrite Ei. discriminate.
Qed.

(** C2, as the code has it: when [DELETE /accounts/:id] answers ok, no
    record is left under the account's key and the id is not a member of
    the index of the tenant the record named; the handler touches neither
    the [watchers] map, nor a watcher, nor a timer. *)
Theorem delete_cascade (env : Env) (st : State) (id : string) :
  (forall acc, store st !! kAccount id = Some (RRecord acc) -> acc_id acc = id) ->
  snd (delete_account (store st) id) = OK tt ->
  let st' := step env st (DeleteAccount id) in
  store st' !! kAccount id = None /\
  (forall acc s,
      store st !! kAccount id = Some (RRecord acc) ->
      store st' !! kUserIndex (acc_integrationId acc) = Some (RSet s) ->
      id ∉ s) /\
  watchers st' = watchers st /\ heap st' = heap st /\ timers st' = timers st.
Proof.
  intros Hkey Hok st'. subst st'. cbn [step with_store store watchers heap timers].
  split; [now apply delete_account_absent|].
  split; [|auto].
  intros acc s E. apply delete_account_index; auto.
Qed.

Lemma sample_delete_ok :
  snd (delete_account (store sample_watching) sample_id) = OK tt.
Proof. vm_compute. reflexivity. Qed.

Lemma sample_keyed (acc : AccountRecord) :
  store sample_watching !! kAccount sample_id = Some (RRecord acc) ->
  acc_id acc = sample_id.
Proof. vm_compute. intros [= <-]. reflexivity. Qed.

Lemma delete_cascade_witness :
  let st' := step sample_env sample_watching (DeleteAccount sample_id) in
  store st' !! kAccount sample_id = None /\
  (forall acc s,
      store sample_watching !! kAccount sample_id = Some (RRecord acc) ->
      store st' !! kUserIndex (acc_integrationId acc) = Some (RSet s) ->
      sample_id ∉ s) /\
  watchers st' = watchers sample_watching /\ heap st' = heap sample_watching /\
  timers st' = timers sample_watching.
Proof.
  exact (delete_cascade sample_env sample_watching sample_id
           sample_keyed sample_delete_ok).
Defined.

(** After a successful DELETE the watcher of the account is still
    registered, its IMAP client still attached. *)
Lemma delete_leaves_watcher_counterexample :
  let st' := step sample_env sample_watching (DeleteAccount sample_id) in
  snd (delete_account (store sample_watching) sample_id) = OK tt /\
  store st' !! kAccount sample_id = None /\
  exists wid w, lookup_watcher st' sample_id = Some (wid, w) /\
                client w = Some 0%nat /\ stopping w = false.
Proof.
  split; [exact sample_delete_ok|]. split; [vm_compute; reflexivity|].
  eexists _, _. split; [vm_compute; reflexivity|]. split; reflexivity.
Qed.

(** ** Bytes and base64 *)

Local Open Scope Z_scope.

Lemma Z_of_ascii_range (c : ascii) : 0 <= Z_of_ascii c < 256.
Proof.
  unfold Z_of_ascii. pose proof (N_ascii_bounded c). lia.
Qed.

Lemma ascii_of_Z_of_ascii (c : ascii) : ascii_of_Z (Z_of_ascii c) = c.
Proof.
  unfold ascii_of_Z. pose proof (Z_of_ascii_range c).
  rewrite Z.mod_small by lia. unfold Z_of_ascii.
  rewrite N2Z.id. apply ascii_N_embedding.
Qed.

Lemma buffer_of_bytes_of_buffer (b : list ascii) :
  buffer_of_bytes (bytes_of_buffer b) = b.
Proof.
  unfold buffer_of_bytes, bytes_of_buffer. rewrite map_map.
  rewrite <- (map_id b) at 2. apply map_ext. exact ascii_of_Z_of_ascii.
Qed.

Lemma bytes_of_buffer_range (b : list ascii) :
  Forall (fun x => 0 <= x < 256) (bytes_of_buffer b).
Proof.
  unfold bytes_of_buffer. apply Forall_forall. intros x Hx.
  apply list_elem_of_In, in_map_iff in Hx as (c & <- & _). apply Z_of_ascii_range.
Qed.

Lemma list_ind3 {A} (P : list A -> Prop) :
  P [] -> (forall a, P [a]) -> (forall a b, P [a; b]) ->
  (forall a b c r, P r -> P (a :: b :: c :: r)) ->
  forall l, P l.
Proof.
  intros H0 H1 H2 H3 l.
  assert (H : forall n l, (length l < n)%nat -> P l).
  { induction n as [|n IH]; intros l' Hl; [lia|].
    destruct l' as [|a [|b [|c r]]]; auto.
    apply H3, IH. simpl in Hl. lia. }
  apply (H (S (length l))). lia.
Qed.

Lemma b64_char_decodes (d : Z) :
  0 <= d < 64 ->
  Ascii.eqb (b64_char d) "="%char = false /\ unbase64 (b64_char d) = Some d.
Proof.
  intros Hd.
  assert (Hall : forallb (fun n => negb (Ascii.eqb (b64_char (Z.of_nat n)) "="%char)
                                   && match unbase64 (b64_char (Z.of_nat n)) with
                                      | Some d' => d' =? Z.of_nat n
                                      | None => false
                                      end) (seq 0 64) = true)
    by (vm_compute; reflexivity).
  rewrite forallb_forall in Hall.
  specialize (Hall (Z.to_nat d)). rewrite Z2Nat.id in Hall by lia.
  assert (Hin : In (Z.to_nat d) (seq 0 64)) by (apply in_seq; lia).
  apply Hall in Hin. apply andb_true_iff in Hin as [Hne Hdec].
  split; [now apply negb_true_iff|].
  destruct (unbase64 (b64_char d)) as [d'|]; [|discriminate].
  apply Z.eqb_eq in Hdec. now subst.
Qed.

Local Ltac Zify.zify_post_hook ::= Z.div_mod_to_equations.

Lemma b64_sextets_range (l : list Z) :
  Forall (fun x => 0 <= x < 256) l ->
  Forall (fun d => 0 <= d < 64) (b64_sextets l).
Proof.
  induction l as [|a|a b|a b c r IH] using list_ind3; intros H; cbn [b64_sextets].
  - constructor.
  - inversion H; subst. repeat constructor; lia.
  - inversion H as [|? ? Ha H']; subst. inversion H'; subst.
    repeat constructor; lia.
  - inversion H as [|? ? Ha H1]; subst. inversion H1 as [|? ? Hb H2]; subst.
    inversion H2 as [|? ? Hc H3]; subst.
    repeat (constructor; [lia|]). auto.
Qed.

Lemma b64_groups_sextets (l : list Z) :
  Forall (fun x => 0 <= x < 256) l -> b64_groups (b64_sextets l) = l.
Proof.
  induction l as [|a|a b|a b c r IH] using list_ind3; intros H;
    cbn [b64_sextets b64_groups].
  - reflexivity.
  - inversion H; subst. f_equal. lia.
  - inversion H as [|? ? Ha H']; subst. inversion H'; subst.
    f_equal; [lia|]. f_equal. lia.
  - inversion H as [|? ? Ha H1]; subst. inversion H1 as [|? ? Hb H2]; subst.
    inversion H2 as [|? ? Hc H3]; subst.
    rewrite (IH H3). f_equal; [lia|]. f_equal; [lia|]. f_equal. lia.
Qed.

Lemma b64_digits_encoded (ds : list Z) (pad : list ascii) :
  Forall (fun d => 0 <= d < 64) ds ->
  (pad = [] \/ exists r, pad = "="%char :: r) ->
  b64_digits (map b64_char ds ++ pad)%list = ds.
Proof.
  intros Hds Hpad. induction Hds as [|d ds Hd _ IH]; cbn [map app b64_digits].
  - destruct Hpad as [-> | [r ->]]; reflexivity.
  - destruct (b64_char_decodes d Hd) as [-> ->]. now rewrite IH.
Qed.

Lemma b64_padding_shape (n : nat) :
  b64_padding n = [] \/ exists r, b64_padding n = "="%char :: r.
Proof.
  unfold b64_padding. destruct (n mod 3)%nat as [|[|[|k]]]; eauto.
Qed.

Lemma b64_char_ascii (d : Z) : 0 <= d < 64 -> Z_of_ascii (b64_char d) < 128.
Proof.
  intros Hd.
  assert (Hall : forallb (fun n => Z_of_ascii (b64_char (Z.of_nat n)) <? 128) (seq 0 64)
                 = true) by (vm_compute; reflexivity).
  rewrite forallb_forall in Hall.
  specialize (Hall (Z.to_nat d)). rewrite Z2Nat.id in Hall by lia.
  apply Z.ltb_lt, Hall, in_seq. lia.
Qed.

(** A string of ASCII characters is the list of its own code units. *)
Lemma low_bytes_ascii (l : list ascii) :
  Forall (fun c => Z_of_ascii c < 128) l ->
  low_bytes (string_of_list_ascii l) = l.
Proof.
  unfold low_bytes. rewrite list_ascii_of_string_of_list_ascii.
  induction 1 as [|c r Hc _ IH]; [reflexivity|]. cbn [utf16_units].
  destruct (Z.ltb_spec (Z_of_ascii c) 192); [|lia].
  cbn [map]. now rewrite IH, ascii_of_Z_of_ascii.
Qed.

Lemma base64_encode_ascii (buf : list ascii) :
  Forall (fun c => Z_of_ascii c < 128)
    (map b64_char (b64_sextets (bytes_of_buffer buf)) ++ b64_padding (length buf)).
Proof.
  apply Forall_app. split.
  - apply Forall_map. eapply Forall_impl; [apply b64_sextets_range, bytes_of_buffer_range|].
    intros d Hd. now apply b64_char_ascii.
  - unfold b64_padding. destruct (length buf mod 3)%nat as [|[|[|k]]];
      repeat constructor.
Qed.

(** [Buffer.from(buf.toString("base64"), "base64")] is [buf]. *)
Lemma base64_decode_encode (buf : list ascii) :
  base64_decode (base64_encode buf) = buf.
Proof.
  unfold base64_decode, base64_encode.
  rewrite low_bytes_ascii by apply base64_encode_ascii.
  rewrite b64_digits_encoded.
  - rewrite b64_groups_sextets by apply bytes_of_buffer_range.
    apply buffer_of_bytes_of_buffer.
  - apply b64_sextets_range, bytes_of_buffer_range.
  - apply b64_padding_shape.
Qed.

Lemma base64_encode_inj (a b : list ascii) :
  base64_encode a = base64_encode b -> a = b.
Proof.
  intros H. rewrite <- (base64_decode_encode a), <- (base64_decode_encode b).
  now rewrite H.
Qed.

(** ** AES-GCM *)

Lemma xor_ascii_involutive (a k : ascii) : xor_ascii (xor_ascii a k) k = a.
Proof.
  destruct a, k. cbn [xor_ascii]. now rewrite !xorb_assoc, !xorb_nilpotent, !xorb_false_r.
Qed.

Lemma zip_xor_involutive (data ks : list ascii) :
  (length data <= length ks)%nat ->
  zip_with xor_ascii (zip_with xor_ascii data ks) ks = data.
Proof.
  revert ks. induction data as [|a data IH]; intros [|k ks] Hlen; simpl in *;
    try reflexivity; try lia.
  rewrite xor_ascii_involutive, IH by lia. reflexivity.
Qed.

Lemma length_Z_to_be (n : nat) (x : Z) : length (Z_to_be n x) = n.
Proof.
  revert x. induction n as [|n IH]; intros x; [reflexivity|].
  cbn [Z_to_be]. rewrite length_app, IH. simpl. lia.
Qed.

Lemma length_keystream (rks : list (list Z)) (n : nat) (cb : Z) :
  length (GCM.keystream rks n cb) = (16 * n)%nat.
Proof.
  revert cb. induction n as [|n IH]; intros cb; [reflexivity|].
  cbn [GCM.keystream]. rewrite length_app, length_Z_to_be, IH. lia.
Qed.

Lemma length_gctr (rks : list (list Z)) (icb : Z) (data : list ascii) :
  length (GCM.gctr rks icb data) = length data.
Proof.
  unfold GCM.gctr, buffer_of_bytes.
  rewrite length_zip_with, length_map, length_keystream.
  pose proof (Nat.div_mod_eq (length data + 15) 16).
  pose proof (Nat.mod_upper_bound (length data + 15) 16). lia.
Qed.

Lemma gctr_involutive (rks : list (list Z)) (icb : Z) (data : list ascii) :
  GCM.gctr rks icb (GCM.gctr rks icb data) = data.
Proof.
  unfold GCM.gctr at 1. rewrite length_gctr. unfold GCM.gctr.
  apply zip_xor_involutive. unfold buffer_of_bytes.
  rewrite length_map, length_keystream.
  pose proof (Nat.div_mod_eq (length data + 15) 16).
  pose proof (Nat.mod_upper_bound (length data + 15) 16). lia.
Qed.

(** Opening what [GCM.encrypt] sealed: under associated data [aad'] the
    tag check passes exactly when the tag recomputed over [aad'] is the
    stored one, and what is then released is the plaintext. *)
Lemma gcm_decrypt_encrypt (key iv aad aad' pt : list ascii) :
  let '(ct, tg) := GCM.encrypt key iv aad pt in
  GCM.decrypt key iv aad' ct tg =
    if decide (GCM.tag (AES.key_schedule (bytes_of_buffer key)) (bytes_of_buffer iv)
                 (bytes_of_buffer aad') ct = tg)
    then Some pt else None.
Proof.
  unfold GCM.encrypt, GCM.decrypt. cbv zeta.
  destruct (decide _); [|reflexivity].
  now rewrite gctr_involutive.
Qed.

(** ** JSON: [JSON.parse] reads back what [JSON.stringify] writes *)

Lemma parse_string_body_escape (c : ascii) (rest : list ascii) :
  parse_string_body (escape_char c ++ rest)%list =
    match parse_string_body rest with
    | Some (items, r) => Some (item_of_char c :: items, r)
    | None => None
    end.
Proof.
  destruct c as [[] [] [] [] [] [] [] []]; reflexivity.
Qed.

Lemma string_of_items_char (c : ascii) (items : list str_item) :
  string_of_items (item_of_char c :: items) = c :: string_of_items items.
Proof.
  destruct c as [[] [] [] [] [] [] [] []]; reflexivity.
Qed.

Lemma parse_string_body_quoted (cs rest : list ascii) :
  parse_string_body (flat_map escape_char cs ++ "034"%char :: rest)%list
    = Some (map item_of_char cs, rest).
Proof.
  induction cs as [|c cs IH]; [reflexivity|].
  cbn [flat_map]. rewrite <- app_assoc, parse_string_body_escape, IH. reflexivity.
Qed.

Lemma string_of_items_chars (cs : list ascii) :
  string_of_items (map item_of_char cs) = cs.
Proof.
  induction cs as [|c cs IH]; [reflexivity|].
  cbn [map]. now rewrite string_of_items_char, IH.
Qed.

Lemma parse_string_quoted (s : string) (rest : list ascii) :
  parse_string (tl (quote_string s) ++ rest)%list = Some (s, rest).
Proof.
  unfold parse_string, quote_string. cbn [tl].
  rewrite <- app_assoc. cbn [app].
  rewrite parse_string_body_quoted, string_of_items_chars.
  now rewrite string_of_list_ascii_of_string.
Qed.

Lemma after_value_not_number (rest : list ascii) :
  after_value rest ->
  starts_fraction rest = false /\
  match rest with c :: _ => digit_of_char c = None | [] => True end.
Proof.
  destruct rest as [|c r]; [easy|]. intros [-> | [-> | ->]]; split; reflexivity.
Qed.

Lemma parse_digits_cons (c : ascii) (dg : Decimal.uint -> Decimal.uint)
    (r : list ascii) :
  digit_of_char c = Some dg ->
  parse_digits (c :: r) = let '(u, rest) := parse_digits r in (dg u, rest).
Proof. intros H. cbn [parse_digits]. now rewrite H. Qed.

Lemma parse_digits_printed (d : Decimal.uint) (rest : list ascii) :
  match rest with c :: _ => digit_of_char c = None | [] => True end ->
  parse_digits (digits_of_uint d ++ rest)%list = (d, rest).
Proof.
  intros Hrest. induction d; cbn [digits_of_uint app];
    [|match goal with
      | |- parse_digits (?c :: _) = (?dg _, _) =>
          rewrite (parse_digits_cons c dg _ eq_refl), IHd; reflexivity
      end ..].
  destruct rest as [|c r]; [reflexivity|]. cbn [parse_digits]. now rewrite Hrest.
Qed.


Lemma to_uint_no_leading_zero (p : positive) (d : Decimal.uint) :
  Pos.to_uint p <> Decimal.D0 d.
Proof.
  intros H.
  assert (Hn : Decimal.unorm (Pos.to_uint p) = Pos.to_uint p).
  { rewrite <- DecimalPos.Unsigned.to_of, DecimalPos.Unsigned.of_to. reflexivity. }
  unfold Decimal.unorm in Hn.
  destruct (Decimal.nzhead (Pos.to_uint p)) eqn:E;
    try (rewrite H in Hn; discriminate Hn).
  - exact (DecimalPos.Unsigned.to_uint_nonzero p (eq_sym Hn)).
  - exact (DecimalFacts.nzhead_nonzero _ _ E).
Qed.

Lemma digits_start (d : Decimal.uint) :
  d <> Decimal.Nil ->
  exists c r, digits_of_uint d = c :: r /\ number_start c = true /\
              Ascii.eqb c "-"%char = false.
Proof.
  destruct d; [congruence|..]; intros _; cbn [digits_of_uint];
    eexists _, _; (split; [reflexivity|split; reflexivity]).
Qed.

Lemma parse_unsigned_printed (d : Decimal.uint) (rest : list ascii) :
  d <> Decimal.Nil ->
  (forall d', d = Decimal.D0 d' -> d' = Decimal.Nil) ->
  after_value rest ->
  parse_unsigned (digits_of_uint d ++ rest)%list = Some (d, rest).
Proof.
  intros Hnil Hzero Hrest.
  destruct (after_value_not_number rest Hrest) as [Hfrac Hdig].
  unfold parse_unsigned. rewrite (parse_digits_printed d rest Hdig).
  destruct d as [|d'| | | | | | | | |]; try congruence; rewrite ?Hfrac; try reflexivity.
  now rewrite (Hzero d' eq_refl).
Qed.

Lemma parse_number_printed (z : Z) (rest : list ascii) :
  after_value rest ->
  parse_number (print_Z z ++ rest)%list = Some (z, rest).
Proof.
  intros Hrest.
  enough (H : parse_number (print_Z z ++ rest)%list = Some (Z.of_int (Z.to_int z), rest))
    by now rewrite DecimalZ.of_to in H.
  unfold print_Z. destruct z as [|p|p]; cbn [Z.to_int].
  - cbn. destruct (after_value_not_number rest Hrest) as [Hfrac Hdig].
    unfold parse_unsigned.
    rewrite (parse_digits_cons "0" Decimal.D0 _ eq_refl).
    change rest with (digits_of_uint Decimal.Nil ++ rest)%list at 1.
    rewrite (parse_digits_printed _ rest Hdig). now rewrite Hfrac.
  - destruct (digits_start (Pos.to_uint p) (DecimalPos.Unsigned.to_uint_nonnil p))
      as (c & r & Hd & _ & Hminus).
    assert (Hu := parse_unsigned_printed (Pos.to_uint p) rest
                    (DecimalPos.Unsigned.to_uint_nonnil p)
                    (fun d' H => False_ind _ (to_uint_no_leading_zero p d' H)) Hrest).
    rewrite Hd in *. cbn [app] in *. unfold parse_number. rewrite Hminus, Hu.
    reflexivity.
  - assert (Hu := parse_unsigned_printed (Pos.to_uint p) rest
                    (DecimalPos.Unsigned.to_uint_nonnil p)
                    (fun d' H => False_ind _ (to_uint_no_leading_zero p d' H)) Hrest).
    cbn [app]. unfold parse_number. cbn [Ascii.eqb Bool.eqb]. rewrite Hu. reflexivity.
Qed.

Lemma print_Z_start (z : Z) :
  exists c r, print_Z z = c :: r /\ number_start c = true.
Proof.
  unfold print_Z. destruct z as [|p|p]; cbn [Z.to_int].
  - eexists _, _. split; reflexivity.
  - destruct (digits_start (Pos.to_uint p) (DecimalPos.Unsigned.to_uint_nonnil p))
      as (c & r & Hd & Hs & _). eauto.
  - eexists _, _. split; reflexivity.
Qed.

Lemma parse_value_number (f : nat) (c : ascii) (r : list ascii) :
  number_start c = true ->
  parse_value (S f) (c :: r) =
    match parse_number (c :: r) with
    | Some (n, rest) => Some (JNum n, rest)
    | None => None
    end.
Proof.
  destruct c as [[] [] [] [] [] [] [] []]; try discriminate; intros _; reflexivity.
Qed.

Lemma number_start_value_start (c : ascii) : number_start c = true -> value_start c.
Proof.
  destruct c as [[] [] [] [] [] [] [] []]; try discriminate; intros _;
    repeat split.
Qed.

Lemma stringify_start (j : json) :
  exists c r, stringify_chars j = c :: r /\ value_start c.
Proof.
  destruct j as [|[]|n|s|l|l]; cbn [stringify_chars];
    try (eexists _, _; split; [reflexivity|repeat split]).
  destruct (print_Z_start n) as (c & r & -> & Hs).
  eauto using number_start_value_start.
Qed.

Lemma skip_ws_start (c : ascii) (r : list ascii) :
  is_ws c = false -> skip_ws (c :: r) = c :: r.
Proof. intros H. cbn [skip_ws]. now rewrite H. Qed.

Lemma join_chars_cons {A} (f : A -> list ascii) (x : A) (xs : list A) :
  join_chars f (x :: xs) = (f x ++ flat_map (fun y => ","%char :: f y) xs)%list.
Proof.
  revert x. induction xs as [|y ys IH]; intros x.
  - cbn. now rewrite app_nil_r.
  - cbn [join_chars flat_map] in *. rewrite IH. reflexivity.
Qed.

Lemma jsize_pos (j : json) : (1 <= jsize j)%nat.
Proof. destruct j; cbn [jsize]; lia. Qed.

Lemma jsize_items (items : list json) :
  (length items <= fold_right (fun x n => (jsize x + n)%nat) O items)%nat /\
  Forall (fun x => (jsize x <= fold_right (fun x n => (jsize x + n)%nat) O items)%nat) items.
Proof.
  induction items as [|x xs [IH1 IH2]]; [split; [reflexivity|constructor]|].
  cbn [fold_right length]. pose proof (jsize_pos x). split; [lia|].
  constructor; [lia|]. eapply Forall_impl; [exact IH2|]. cbn. intros; lia.
Qed.

Lemma jsize_members (ms : list (string * json)) :
  (length ms <= fold_right (fun m n => (jsize (snd m) + n)%nat) O ms)%nat /\
  Forall (fun m => (jsize (snd m) <= fold_right (fun m n => (jsize (snd m) + n)%nat) O ms)%nat) ms.
Proof.
  induction ms as [|x xs [IH1 IH2]]; [split; [reflexivity|constructor]|].
  cbn [fold_right length]. pose proof (jsize_pos (snd x)). split; [lia|].
  constructor; [lia|]. eapply Forall_impl; [exact IH2|]. cbn. intros; lia.
Qed.

Lemma jsize_JArr (items : list json) :
  (length items < jsize (JArr items))%nat /\
  Forall (fun x => (jsize x < jsize (JArr items))%nat) items.
Proof.
  destruct (jsize_items items) as [H1 H2]. cbn [jsize]. split; [lia|].
  eapply Forall_impl; [exact H2|]. cbn. intros; lia.
Qed.

Lemma jsize_JObj (ms : list (string * json)) :
  (length ms < jsize (JObj ms))%nat /\
  Forall (fun m => (jsize (snd m) < jsize (JObj ms))%nat) ms.
Proof.
  destruct (jsize_members ms) as [H1 H2]. cbn [jsize]. split; [lia|].
  eapply Forall_impl; [exact H2|]. cbn. intros; lia.
Qed.

Section Lists.

Variable pv : list ascii -> option (json * list ascii).

Lemma parse_more_items_printed (xs : list json) (rest : list ascii) (fuel : nat) :
  (length xs < fuel)%nat ->
  Forall (reads pv) xs ->
  parse_more_items pv fuel
    (flat_map (fun y => ","%char :: stringify_chars y) xs ++ "]"%char :: rest)%list
  = Some (xs, rest).
Proof.
  revert fuel. induction xs as [|x xs IH]; intros fuel Hfuel Hreads;
    (destruct fuel as [|fuel]; [cbn in Hfuel; lia|]).
  - reflexivity.
  - inversion Hreads as [|? ? Hx Hxs]; subst.
    cbn [flat_map app parse_more_items]. rewrite skip_ws_start by reflexivity.
    cbn [Ascii.eqb Bool.eqb andb]. rewrite <- app_assoc.
    rewrite Hx.
    + rewrite IH; [reflexivity|cbn in Hfuel; lia|assumption].
    + destruct xs; cbn; auto.
Qed.

Lemma parse_member_printed (k : string) (x : json) (rest : list ascii) :
  reads pv x -> after_value rest ->
  parse_member pv (quote_string k ++ ":"%char :: stringify_chars x ++ rest)%list
  = Some ((k, x), rest).
Proof.
  intros Hx Hrest. unfold parse_member.
  change (quote_string k) with ("034"%char :: tl (quote_string k)).
  cbn [app]. rewrite skip_ws_start by reflexivity.
  cbn [Ascii.eqb Bool.eqb andb].
  rewrite parse_string_quoted. rewrite skip_ws_start by reflexivity.
  cbn [Ascii.eqb Bool.eqb andb]. now rewrite Hx.
Qed.

Lemma parse_more_members_printed (ms : list (string * json)) (rest : list ascii)
    (fuel : nat) :
  (length ms < fuel)%nat ->
  Forall (fun m => reads pv (snd m)) ms ->
  parse_more_members pv fuel
    (flat_map (fun m => ","%char :: quote_string (fst m) ++ ":"%char
                          :: stringify_chars (snd m)) ms ++ "}"%char :: rest)%list
  = Some (ms, rest).
Proof.
  revert fuel. induction ms as [|[k x] ms IH]; intros fuel Hfuel Hreads;
    (destruct fuel as [|fuel]; [cbn in Hfuel; lia|]).
  - reflexivity.
  - inversion Hreads as [|? ? Hx Hxs]; subst.
    cbn [flat_map app parse_more_members fst snd].
    rewrite skip_ws_start by reflexivity.
    cbn [Ascii.eqb Bool.eqb andb]. rewrite <- !app_assoc. cbn [app].
    rewrite parse_member_printed.
    + rewrite IH; [reflexivity|cbn in Hfuel; lia|assumption].
    + exact Hx.
    + destruct ms; cbn; auto.
Qed.

End Lists.

Lemma parse_value_printed (n : nat) :
  forall (j : json) (fuel : nat) (rest : list ascii),
    (jsize j <= n)%nat -> (jsize j <= fuel)%nat -> after_value rest ->
    parse_value fuel (stringify_chars j ++ rest)%list = Some (j, rest).
Proof.
  induction n as [|n IH]; intros j fuel rest Hn Hfuel Hrest;
    [pose proof (jsize_pos j); lia|].
  destruct fuel as [|f]; [pose proof (jsize_pos j); lia|].
  destruct j as [|[]|z|s|items|members]; cbn [stringify_chars].
  - reflexivity.
  - reflexivity.
  - reflexivity.
  - destruct (print_Z_start z) as (c & r & Hp & Hs).
    pose proof (parse_number_printed z rest Hrest) as Hnum.
    rewrite Hp in *. cbn [app] in *.
    rewrite parse_value_number by assumption. now rewrite Hnum.
  - change (quote_string s) with ("034"%char :: tl (quote_string s)).
    cbn [app parse_value]. rewrite skip_ws_start by reflexivity.
    cbn [Ascii.eqb Bool.eqb andb]. now rewrite parse_string_quoted.
  - destruct items as [|x xs]; [reflexivity|].
    rewrite join_chars_cons.
    destruct (jsize_JArr (x :: xs)) as [Hlen Hall].
    assert (Hreads : Forall (reads (parse_value f)) (x :: xs)).
    { eapply Forall_impl; [exact Hall|]. cbn beta. intros y Hy rest' Hrest'.
      apply IH; [lia|lia|assumption]. }
    inversion Hreads as [|? ? Hx Hxs]; subst.
    destruct (stringify_start x) as (c & r & Hc & Hws & Hb & _).
    cbn [app parse_value]. rewrite skip_ws_start by reflexivity.
    cbn [Ascii.eqb Bool.eqb andb].
    rewrite <- !app_assoc.
    replace (skip_ws (stringify_chars x ++ _)%list) with
      (c :: r ++ flat_map (fun y => ","%char :: stringify_chars y) xs
              ++ ["]"%char] ++ rest)%list
      by (rewrite Hc; cbn [app]; now rewrite skip_ws_start).
    rewrite Hb. cbn [app].
    rewrite Hx by (destruct xs; cbn; auto).
    rewrite parse_more_items_printed; [reflexivity|cbn [length] in Hlen; lia|assumption].
  - destruct members as [|[k x] ms]; [reflexivity|].
    rewrite join_chars_cons. cbn [fst snd].
    destruct (jsize_JObj ((k, x) :: ms)) as [Hlen Hall].
    assert (Hreads : Forall (fun m => reads (parse_value f) (snd m)) ((k, x) :: ms)).
    { eapply Forall_impl; [exact Hall|]. cbn beta. intros y Hy rest' Hrest'.
      apply IH; [lia|lia|assumption]. }
    inversion Hreads as [|? ? Hx Hxs]; subst.
    cbn [app parse_value]. rewrite skip_ws_start by reflexivity.
    cbn [Ascii.eqb Bool.eqb andb].
    rewrite <- !app_assoc. cbn [app].
    change (quote_string k) with ("034"%char :: tl (quote_string k)) at 1.
    cbn [app]. rewrite skip_ws_start by reflexivity.
    cbn [Ascii.eqb Bool.eqb andb].
    change ("034"%char :: tl (quote_string k)) with (quote_string k).
    rewrite parse_member_printed; [|exact Hx|destruct ms; cbn; auto].
    rewrite parse_more_members_printed; [reflexivity|cbn [length] in Hlen; lia|assumption].
Qed.

Lemma sum_le_flat_map {A} (size : A -> nat) (chars_of : A -> list ascii)
    (xs : list A) :
  Forall (fun y => (size y <= length (chars_of y))%nat) xs ->
  (fold_right (fun x k => (size x + k)%nat) O xs
   <= length (flat_map (fun y => ","%char :: chars_of y) xs))%nat.
Proof.
  induction 1 as [|y ys Hy _ IH]; [reflexivity|].
  cbn [fold_right flat_map]. rewrite length_app. cbn [length]. lia.
Qed.

Lemma sum_le_join {A} (size : A -> nat) (chars_of : A -> list ascii)
    (xs : list A) :
  Forall (fun y => (size y <= length (chars_of y))%nat) xs ->
  (fold_right (fun x k => (size x + k)%nat) O xs
   <= S (length (join_chars chars_of xs)))%nat.
Proof.
  intros H. destruct H as [|x xs Hx Hxs]; [cbn; lia|].
  rewrite join_chars_cons, length_app. cbn [fold_right].
  pose proof (sum_le_flat_map size chars_of xs Hxs). lia.
Qed.

Lemma jsize_le_length (n : nat) :
  forall j, (jsize j <= n)%nat -> (jsize j <= length (stringify_chars j))%nat.
Proof.
  induction n as [|n IH]; intros j Hn; [pose proof (jsize_pos j); lia|].
  destruct j as [|[]|z|s|items|members]; cbn [stringify_chars].
  - cbn. lia.
  - cbn. lia.
  - cbn. lia.
  - destruct (print_Z_start z) as (c & r & -> & _). cbn. lia.
  - unfold quote_string. cbn [jsize length]. lia.
  - destruct (jsize_JArr items) as [_ Hall].
    assert (Hsum := sum_le_join jsize stringify_chars items).
    cbn [jsize length] in *. rewrite length_app. cbn [length].
    enough (Forall (fun y => (jsize y <= length (stringify_chars y))%nat) items)
      by (specialize (Hsum H); lia).
    eapply Forall_impl; [exact Hall|]. cbn beta. intros y Hy. apply IH. lia.
  - destruct (jsize_JObj members) as [_ Hall].
    assert (Hsum := sum_le_join (fun m => jsize (snd m))
                      (fun m => quote_string (fst m) ++ ":"%char
                                  :: stringify_chars (snd m))%list members).
    cbn [jsize length] in *. rewrite length_app. cbn [length].
    enough (Forall (fun m => (jsize (snd m)
                              <= length (quote_string (fst m) ++ ":"%char
                                           :: stringify_chars (snd m))%list)%nat) members)
      by (specialize (Hsum H); lia).
    eapply Forall_impl; [exact Hall|]. cbn beta. intros y Hy.
    rewrite length_app. cbn [length]. pose proof (IH (snd y)). lia.
Qed.

(** [JSON.parse(JSON.stringify(j))] is [j]. *)
Theorem JSON_parse_stringify (j : json) : JSON_parse (JSON_stringify j) = Some j.
Proof.
  unfold JSON_parse, JSON_stringify.
  rewrite list_ascii_of_string_of_list_ascii.
  rewrite <- (app_nil_r (stringify_chars j)) at 2.
  rewrite (parse_value_printed (jsize j)); [reflexivity|lia| |exact I].
  pose proof (jsize_le_length (jsize j) j ltac:(lia)). lia.
Qed.

(** ** The envelope *)

Lemma hkdfSubkey_OK (env : Env) (master salt_bytes : list ascii) (info : string) :
  getMasterKey env = OK master ->
  exists key, hkdfSubkey env salt_bytes info = OK key.
Proof.
  intros H. unfold hkdfSubkey. rewrite H. cbn [mbind result_bind]. eauto.
Qed.

(** Opening an envelope [encryptJSON] made: under the associated data
    [aad'] the result is the payload when the tag computed over [aad'] is
    the stored one, and the authentication failure otherwise. *)
Lemma decryptJSON_sealed (env : Env) (salt_bytes iv_bytes : list ascii)
    (payload : json) (aad aad' : string) (e : Envelope) :
  encryptJSON env salt_bytes iv_bytes payload aad = OK e ->
  iv_bytes <> [] ->
  decryptJSON env e aad' =
    if decide (tag_under env e aad' = OK (base64_decode (tag e)))
    then OK payload else Err AuthFailure.
Proof.
  unfold encryptJSON, decryptJSON, tag_under, mbind, result_bind.
  destruct (hkdfSubkey env salt_bytes "mailbox:v1") as [key|] eqn:Ekey; [|discriminate].
  pose proof (gcm_decrypt_encrypt key iv_bytes (list_ascii_of_string aad)
                (list_ascii_of_string aad')
                (list_ascii_of_string (JSON_stringify payload))) as Hgcm.
  destruct (GCM.encrypt key iv_bytes (list_ascii_of_string aad)
              (list_ascii_of_string (JSON_stringify payload)))
    as [ct_bytes tag_bytes] eqn:Eenc.
  intros [= <-] Hiv. cbn [v alg salt iv tag ct].
  rewrite !base64_decode_encode, Ekey. cbn [negb orb Z.eqb Pos.eqb].
  rewrite String.eqb_refl. cbn [negb].
  destruct iv_bytes as [|i0 ivs]; [contradiction|].
  rewrite Hgcm. clear Hgcm.
  destruct (decide (GCM.tag _ _ _ _ = tag_bytes)) as [Ht|Ht].
  - rewrite decide_True by now rewrite Ht.
    now rewrite string_of_list_ascii_of_string, JSON_parse_stringify.
  - rewrite decide_False by (intros [= H]; contradiction). reflexivity.
Qed.

Lemma tag_under_sealed (env : Env) (salt_bytes iv_bytes : list ascii)
    (payload : json) (aad : string) (e : Envelope) :
  encryptJSON env salt_bytes iv_bytes payload aad = OK e ->
  tag_under env e aad = OK (base64_decode (tag e)).
Proof.
  unfold encryptJSON, tag_under, GCM.encrypt, mbind, result_bind.
  destruct (hkdfSubkey env salt_bytes "mailbox:v1") as [key|] eqn:Ekey; [|discriminate].
  intros [= <-]. cbn [v alg salt iv tag ct].
  rewrite !base64_decode_encode, Ekey. reflexivity.
Qed.

Lemma decryptJSON_encryptJSON (env : Env) (salt_bytes iv_bytes : list ascii)
    (payload : json) (aad : string) (e : Envelope) :
  encryptJSON env salt_bytes iv_bytes payload aad = OK e ->
  iv_bytes <> [] ->
  decryptJSON env e aad = OK payload.
Proof.
  intros He Hiv. rewrite (decryptJSON_sealed _ _ _ _ _ aad _ He Hiv).
  now rewrite decide_True by exact (tag_under_sealed _ _ _ _ _ _ He).
Qed.

Lemma envelope_roundtrip_sealed (env : Env) (master salt_bytes iv_bytes : list ascii)
    (payload : json) (aad : string) :
  getMasterKey env = OK master -> length iv_bytes = 12%nat ->
  exists e,
    encryptJSON env salt_bytes iv_bytes payload aad = OK e /\
    decryptJSON env e aad = OK payload.
Proof.
  intros Hkey Hiv.
  assert (Hne : iv_bytes <> []) by (intros ->; discriminate Hiv).
  destruct (hkdfSubkey_OK env master salt_bytes "mailbox:v1" Hkey) as [key Hk].
  assert (He : exists e, encryptJSON env salt_bytes iv_bytes payload aad = OK e).
  { unfold encryptJSON. rewrite Hk. cbn [mbind result_bind].
    destruct (GCM.encrypt _ _ _ _). eauto. }
  destruct He as [e He]. exists e. split; [exact He|].
  exact (decryptJSON_encryptJSON _ _ _ _ _ _ He Hne).
Qed.

(** C1, as the code has it: with a master key configured, sealing any
    payload succeeds and opening the envelope under the same associated
    data returns the payload exactly; under any other associated data the
    result is the authentication failure, with no plaintext, unless the
    16-byte tag computed over that associated data equals the stored one,
    in which case it is the payload. *)
Theorem envelope_roundtrip_and_binding (env : Env) (master salt_bytes iv_bytes : list ascii)
    (payload : json) (aad : string) :
  getMasterKey env = OK master ->
  length salt_bytes = 16%nat -> length iv_bytes = 12%nat ->
  exists e,
    encryptJSON env salt_bytes iv_bytes payload aad = OK e /\
    decryptJSON env e aad = OK payload /\
    forall aad',
      (tag_under env e aad' = OK (base64_decode (tag e)) ->
       decryptJSON env e aad' = OK payload) /\
      (tag_under env e aad' <> OK (base64_decode (tag e)) ->
       decryptJSON env e aad' = Err AuthFailure).
Proof.
  intros Hkey _ Hiv.
  assert (Hne : iv_bytes <> []) by (intros ->; discriminate Hiv).
  destruct (envelope_roundtrip_sealed env master salt_bytes iv_bytes payload aad Hkey Hiv)
    as (e & He & Hdec).
  exists e. split; [exact He|]. split; [exact Hdec|].
  intros aad'. rewrite (decryptJSON_sealed _ _ _ _ _ aad' _ He Hne).
  split; intros H; [now rewrite decide_True|now rewrite decide_False].
Qed.

Lemma sample_master_key :
  getMasterKey sample_env
    = OK (buffer_of_bytes [0; 1; 2; 3; 4; 5; 6; 7; 8; 9; 10; 11; 12; 13; 14; 15; 16;
                           17; 18; 19; 20; 21; 22; 23; 24; 25; 26; 27; 28; 29; 30; 31]).
Proof. vm_compute. reflexivity. Qed.

Lemma envelope_roundtrip_and_binding_witness :
  exists e,
    encryptJSON sample_env sample_salt sample_iv (json_of_Secret sample_secret)
      (aad_of sample_id "u1") = OK e /\
    decryptJSON sample_env e (aad_of sample_id "u1") = OK (json_of_Secret sample_secret) /\
    forall aad',
      (tag_under sample_env e aad' = OK (base64_decode (tag e)) ->
       decryptJSON sample_env e aad' = OK (json_of_Secret sample_secret)) /\
      (tag_under sample_env e aad' <> OK (base64_decode (tag e)) ->
       decryptJSON sample_env e aad' = Err AuthFailure).
Proof.
  exact (envelope_roundtrip_and_binding sample_env _ sample_salt sample_iv
           (json_of_Secret sample_secret) (aad_of sample_id "u1")
           sample_master_key eq_refl eq_refl).
Defined.

(** An envelope sealed for tenant [tenant_one] opens for the same account
    under tenant [tenant_two]. *)
Lemma aad_binding_counterexample :
  tenant_one <> tenant_two /\
  exists e,
    encryptJSON sample_env sample_salt sample_iv (json_of_Secret sample_secret)
      (aad_of sample_id tenant_one) = OK e /\
    decryptJSON sample_env e (aad_of sample_id tenant_two)
      = OK (json_of_Secret sample_secret).
Proof.
  split; [discriminate|].
  exists tenant_one_envelope. split; vm_compute; reflexivity.
Qed.

(** Another account id, or the sample tenant ids swapped for "u1" and
    "u2", does fail to open. *)
Lemma aad_mismatch_examples :
  decryptJSON sample_env sample_envelope (aad_of sample_id "u2") = Err AuthFailure /\
  decryptJSON sample_env sample_envelope (aad_of "01ARZ3NDEKTSV4RRFFQ69G5FAW" "u1")
    = Err AuthFailure.
Proof. split; vm_compute; reflexivity. Qed.

(** ** Update *)

Lemma encryptJSON_draws (env : Env) (salt_bytes iv_bytes : list ascii) (payload : json)
    (aad : string) (e : Envelope) :
  encryptJSON env salt_bytes iv_bytes payload aad = OK e ->
  salt e = base64_encode salt_bytes /\ iv e = base64_encode iv_bytes.
Proof.
  unfold encryptJSON, mbind, result_bind.
  destruct (hkdfSubkey _ _ _); [|discriminate].
  destruct (GCM.encrypt _ _ _ _). intros [= <-]. split; reflexivity.
Qed.


(** C8, as the code has it: for an account whose record is under its
    key, [PUT /accounts/:id] with a valid secret and a master key
    configured writes back, under the same key, the record with its [id],
    [integrationId] and [createdAt] as they were, [updatedAt] set to the
    current time and a new envelope; it leaves every other key alone. The
    new envelope opens to the new secret under the account's own
    associated data; its [salt] and [iv] are the two byte strings
    [crypto.randomBytes] returns in this call, whatever the previous
    envelope held: they equal the previous ones only if the draws are the
    previous bytes, and for an envelope [encryptJSON] wrote, exactly
    then. *)
Theorem update_frame (env : Env) (is_email : string -> bool) (store : Store)
    (id : string) (acc : AccountRecord) (body : option json) (secret : Secret)
    (now : string) (master salt_bytes iv_bytes : list ascii) :
  store !! kAccount id = Some (RRecord acc) ->
  acc_id acc = id ->
  SecretPayload_parse is_email body = OK secret ->
  getMasterKey env = OK master ->
  length salt_bytes = 16%nat -> length iv_bytes = 12%nat ->
  exists e',
    put_account env is_email store id body now salt_bytes iv_bytes
      = (<[kAccount id := RRecord {| acc_id := acc_id acc;
                                     acc_integrationId := acc_integrationId acc;
                                     createdAt := createdAt acc;
                                     updatedAt := now;
                                     enc := e' |}]> store, OK tt) /\
    (forall k, k <> kAccount id ->
               fst (put_account env is_email store id body now salt_bytes iv_bytes) !! k
               = store !! k) /\
    encryptJSON env salt_bytes iv_bytes (json_of_Secret secret)
      (aad_of id (acc_integrationId acc)) = OK e' /\
    decryptJSON env e' (aad_of id (acc_integrationId acc)) = OK (json_of_Secret secret) /\
    salt e' = base64_encode salt_bytes /\ iv e' = base64_encode iv_bytes /\
    base64_decode (salt e') = salt_bytes /\ base64_decode (iv e') = iv_bytes /\
    (salt e' = salt (enc acc) -> base64_decode (salt (enc acc)) = salt_bytes) /\
    (iv e' = iv (enc acc) -> base64_decode (iv (enc acc)) = iv_bytes) /\
    (forall salt0 iv0,
        salt (enc acc) = base64_encode salt0 -> iv (enc acc) = base64_encode iv0 ->
        (salt e' = salt (enc acc) <-> salt_bytes = salt0) /\
        (iv e' = iv (enc acc) <-> iv_bytes = iv0)).
Proof.
  intros Hacc Hid Hbody Hkey Hsalt Hiv.
  destruct (envelope_roundtrip_sealed env master salt_bytes iv_bytes
              (json_of_Secret secret) (aad_of id (acc_integrationId acc)) Hkey Hiv)
    as (e' & He & Hdec).
  exists e'.
  assert (Hput : put_account env is_email store id body now salt_bytes iv_bytes
      = (<[kAccount id := RRecord {| acc_id := acc_id acc;
                                     acc_integrationId := acc_integrationId acc;
                                     createdAt := createdAt acc;
                                     updatedAt := now;
                                     enc := e' |}]> store, OK tt)).
  { unfold put_account. rewrite loadAccount_lookup, Hacc, Hbody, Hid, He.
    reflexivity. }
  split; [exact Hput|]. split.
  { intros k Hk. rewrite Hput. cbn [fst]. now apply lookup_insert_ne. }
  split; [exact He|]. split; [exact Hdec|].
  destruct (encryptJSON_draws _ _ _ _ _ _ He) as [Hs Hi].
  assert (Hds : base64_decode (salt e') = salt_bytes)
    by (rewrite Hs; apply base64_decode_encode).
  assert (Hdi : base64_decode (iv e') = iv_bytes)
    by (rewrite Hi; apply base64_decode_encode).
  split; [exact Hs|]. split; [exact Hi|]. split; [exact Hds|]. split; [exact Hdi|].
  split; [intros H; rewrite <- H; assumption|].
  split; [intros H; rewrite <- H; assumption|].
  intros salt0 iv0 -> ->. rewrite Hs, Hi.
  split; (split; [apply base64_encode_inj|now intros ->]).
Qed.

Lemma update_frame_witness :
  exists e',
    put_account sample_env (fun _ => true) sample_store sample_id (Some rotated_body)
      "2024-02-02T08:00:00.000Z" second_salt second_iv
      = (<[kAccount sample_id :=
             RRecord {| acc_id := acc_id sample_record;
                        acc_integrationId := acc_integrationId sample_record;
                        createdAt := createdAt sample_record;
                        updatedAt := "2024-02-02T08:00:00.000Z";
                        enc := e' |}]> sample_store, OK tt) /\
    (forall k, k <> kAccount sample_id ->
               fst (put_account sample_env (fun _ => true) sample_store sample_id
                      (Some rotated_body) "2024-02-02T08:00:00.000Z" second_salt second_iv)
                 !! k
               = sample_store !! k) /\
    encryptJSON sample_env second_salt second_iv (json_of_Secret rotated_secret)
      (aad_of sample_id (acc_integrationId sample_record)) = OK e' /\
    decryptJSON sample_env e' (aad_of sample_id (acc_integrationId sample_record))
      = OK (json_of_Secret rotated_secret) /\
    salt e' = base64_encode second_salt /\ iv e' = base64_encode second_iv /\
    base64_decode (salt e') = second_salt /\ base64_decode (iv e') = second_iv /\
    (salt e' = salt (enc sample_record) ->
     base64_decode (salt (enc sample_record)) = second_salt) /\
    (iv e' = iv (enc sample_record) ->
     base64_decode (iv (enc sample_record)) = second_iv) /\
    (forall salt0 iv0,
        salt (enc sample_record) = base64_encode salt0 ->
        iv (enc sample_record) = base64_encode iv0 ->
        (salt e' = salt (enc sample_record) <-> second_salt = salt0) /\
        (iv e' = iv (enc sample_record) <-> second_iv = iv0)).
Proof.
  exact (update_frame sample_env (fun _ => true) sample_store sample_id sample_record
           (Some rotated_body) rotated_secret "2024-02-02T08:00:00.000Z" _
           second_salt second_iv
           sample_store_account eq_refl eq_refl sample_master_key eq_refl eq_refl).
Defined.

(** The handler does not look at the previous salt and iv: when
    [crypto.randomBytes] returns the bytes of the previous draws, the new
    envelope carries the previous salt and iv. *)
Lemma update_same_draws_counterexample :
  exists e',
    put_account sample_env (fun _ => true) sample_store sample_id (Some rotated_body)
      "2024-02-02T08:00:00.000Z" sample_salt sample_iv
      = (<[kAccount sample_id :=
             RRecord {| acc_id := sample_id; acc_integrationId := "u1";
                        createdAt := "2024-01-01T12:00:00.000Z";
                        updatedAt := "2024-02-02T08:00:00.000Z";
                        enc := e' |}]> sample_store, OK tt) /\
    decryptJSON sample_env e' (aad_of sample_id "u1")
      = OK (json_of_Secret rotated_secret) /\
    salt e' = salt (enc sample_record) /\ iv e' = iv (enc sample_record).
Proof.
  destruct (envelope_roundtrip_sealed sample_env _ sample_salt sample_iv
              (json_of_Secret rotated_secret) (aad_of sample_id "u1") sample_master_key
              eq_refl) as (e' & He & Hdec).
  exists e'. split; [|split; [exact Hdec|]].
  - assert (Hb : SecretPayload_parse (fun _ => true) (Some rotated_body) = OK rotated_secret)
      by reflexivity.
    unfold put_account. rewrite loadAccount_lookup, sample_store_account, Hb.
    cbn [acc_id acc_integrationId createdAt sample_record]. now rewrite He.
  - destruct (encryptJSON_draws _ _ _ _ _ _ He) as [-> ->]. split; vm_compute; reflexivity.
Qed.

(** ** Idle grace *)

(** Attaching to a watcher that is connected arms and clears no timer. *)
Lemma stream_open_keeps_timers (env : Env) (st : State) (a : string) (res wid : nat)
    (w : Watcher) :
  lookup_watcher st a = Some (wid, w) -> is_Some (client w) ->
  timers (stream_open env st a res) = timers st /\
  watchers (stream_open env st a res) = watchers st /\
  heap (stream_open env st a res)
    = <[wid := set_sseClients w ({[res]} ∪ sseClients w)]> (heap st).
Proof.
  intros Hw [c Hc]. unfold stream_open, ensureWatcher. rewrite Hw.
  destruct w as [acc last cl subs stop idle]. cbn [client] in Hc. subst cl.
  rewrite Hw. repeat split.
Qed.

(** The callback the idle timer holds stops the watcher registered for
    the account when it fires, whoever is subscribed by then. *)
Lemma idle_timer_stops_watcher (st : State) (h : nat) (due : Z)
    (a : string) (wid : nat) (w : Watcher) :
  timers st !! h = Some (due, StopWatcherCb a) ->
  lookup_watcher st a = Some (wid, w) -> stopping w = false ->
  watchers (fire st h) !! a = None /\
  heap (fire st h) !! wid = Some (set_stopped w).
Proof.
  intros Ht Hw Hs. unfold fire. rewrite Ht. unfold stopWatcher.
  assert (Hl : lookup_watcher (with_clock (with_timers st (delete h (timers st)))
                                 (Z.max (clock st) due)) a = Some (wid, w)) by exact Hw.
  rewrite Hl, Hs. destruct (idleTimer w); cbn; rewrite lookup_delete_eq, lookup_insert_eq; auto.
Qed.

(** C3, where the code departs from it: the last subscriber leaves at
    5 s, a new one attaches at 15 s, and at 65 s the timer armed on the
    departure stops the watcher all the same. The account is out of the
    [watchers] map while the stopped watcher still holds the new
    subscriber, which received nothing but its [SSEReady] and the two pings
    of its own interval, at 40 s and 65 s. *)
Lemma idle_timer_survives_attach :
  let st := run sample_env sample_watching
              [Advance 5000; StreamClose 100%nat;
               Advance 15000; StreamOpen sample_id 101%nat;
               Advance 66000] in
  watchers st !! sample_id = None /\
  (exists w, heap st !! 1%nat = Some w /\
             elements (sseClients w) = [101%nat] /\ stopping w = true /\
             client w = None) /\
  filter (fun x => x.1 = 101%nat) (written st)
  = [(101%nat, SSEReady sample_id); (101%nat, Ping); (101%nat, Ping)].
Proof.
  split; [vm_compute; reflexivity|]. split.
  - eexists. split; [vm_compute; reflexivity|].
    split; [vm_compute; reflexivity|]. split; reflexivity.
  - vm_compute. reflexivity.
Qed.

(** With no new subscriber the same timer tears the watcher down 60 s
    after the departure, and not before. *)
Lemma idle_teardown_example :
  let script := [Advance 5000; StreamClose 100%nat] in
  is_Some (watchers (run sample_env sample_watching (script ++ [Advance 64999]))
             !! sample_id) /\
  watchers (run sample_env sample_watching (script ++ [Advance 65000])) !! sample_id
    = None.
Proof. split; [eexists|]; vm_compute; reflexivity. Qed.

(** ** UID ordering *)

Lemma omap_one_subscriber (u : Z) (res : nat) (l : list nat) :
  NoDup l -> res ∈ l ->
  omap (fun r => if decide (r = res) then Some u else None) l = [u].
Proof.
  induction 1 as [|x l Hx Hnd IH]; intros Hin; [inversion Hin|].
  cbn [omap list_omap]. destruct (decide (x = res)) as [->|Hne].
  - f_equal. clear IH Hin. induction l as [|y l IH]; [reflexivity|].
    cbn [omap list_omap]. apply not_elem_of_cons in Hx as [Hy Hl].
    destruct (decide (y = res)); [congruence|]. apply IH.
    + assumption.
    + now apply NoDup_cons in Hnd.
  - apply IH. apply elem_of_cons in Hin as [?|?]; [congruence|assumption].
Qed.

Lemma received_uids_email (st : State) (a : string) (wid : nat) (subs : gset nat)
    (last : Z) (res : nat) (u : Z) s f t d fl :
  registered st wid a subs last -> res ∈ subs ->
  received_uids (broadcast st a (EmailReceived a u s f t d fl)) res
    = (received_uids st res ++ [u])%list.
Proof.
  intros (Hreg & w & Hw & _ & Hsubs & _) Hin. unfold broadcast, lookup_watcher.
  rewrite Hreg. cbn. rewrite Hw. cbn. unfold received_uids. cbn [written with_written].
  rewrite omap_app. f_equal. rewrite Hsubs.
  rewrite <- (omap_one_subscriber u res (elements subs));
    [|apply NoDup_elements|now apply elem_of_elements].
  induction (elements subs) as [|r l IH]; [reflexivity|].
  cbn [map omap list_omap]. rewrite IH. now destruct (decide (r = res)).
Qed.

Lemma broadcast_frame (st : State) (a : string) (ev : Event) :
  watchers (broadcast st a ev) = watchers st /\ heap (broadcast st a ev) = heap st.
Proof. unfold broadcast. now destruct (lookup_watcher st a) as [[? ?]|]. Qed.

Lemma on_message_publishes (st : State) (a : string) (wid : nat) (subs : gset nat)
    (last : Z) (res : nat) (m : Msg) :
  registered st wid a subs last -> res ∈ subs ->
  registered (on_message st wid m) wid a subs (Z.max last (uid m)) /\
  received_uids (on_message st wid m) res = (received_uids st res ++ [uid m])%list.
Proof.
  intros Hr Hin. pose proof Hr as (Hreg & w & Hw & Ha & Hsubs & Hlast).
  unfold on_message. rewrite Hw, Ha.
  set (st1 := with_heap st _).
  assert (Hr1 : registered st1 wid a subs (Z.max last (uid m))).
  { split; [exact Hreg|]. eexists. split; [apply lookup_insert_eq|].
    cbn. rewrite Hlast. auto. }
  split.
  - unfold registered. destruct (broadcast_frame st1 a
      (EmailReceived a (uid m) (msg_subject m) (filter (fun x => x <> ""%string) (msg_from m))
         (filter (fun x => x <> ""%string) (msg_to m)) (internalDate m) (flags m)))
      as [-> ->]. exact Hr1.
  - now rewrite (received_uids_email st1 a wid subs _ res _ _ _ _ _ _ Hr1 Hin).
Qed.

(** What a fetch pass publishes: each subscriber of the registered
    watcher is sent one event per message the fetch yields, in the order it
    yields them and whatever their uids, and [lastUid] ends at the largest
    uid seen. *)
Lemma on_fetched_publishes (st : State) (f : nat) (from : Z) (a : string) (wid : nat)
    (subs : gset nat) (last : Z) (res : nat) (msgs : list Msg) :
  fetches st !! f = Some (wid, from) ->
  registered st wid a subs last -> res ∈ subs ->
  registered (on_fetched st f msgs) wid a subs (fold_left Z.max (map uid msgs) last) /\
  received_uids (on_fetched st f msgs) res = (received_uids st res ++ map uid msgs)%list.
Proof.
  intros Hf Hr Hin. unfold on_fetched. rewrite Hf.
  set (st0 := with_fetches st _).
  assert (Hr0 : registered st0 wid a subs last) by exact Hr.
  change (received_uids st res) with (received_uids st0 res).
  clearbody st0. clear Hf Hr. revert st0 last Hr0.
  induction msgs as [|m msgs IH]; intros st0 last Hr0.
  - cbn. now rewrite app_nil_r.
  - cbn [fold_left map].
    destruct (on_message_publishes st0 a wid subs last res m Hr0 Hin) as [Hr1 Hu].
    destruct (IH _ _ Hr1) as [Hr2 Hu2]. split; [exact Hr2|].
    rewrite Hu2, Hu, <- app_assoc. reflexivity.
Qed.

(** C4, where the code departs from it: two messages arrive and the
    server announces each; both "exists" listeners read [lastUid] = 1000
    before either fetch answers, both fetch [1001:*], and the subscriber is
    sent the uids 1001 and 1002 twice, so not in strictly increasing
    order. *)
Lemma overlapping_exists_republish :
  let inbox := [sample_msg 1000; sample_msg 1001; sample_msg 1002] in
  let started := run sample_env sample_watching [ImapExists 0%nat; ImapExists 0%nat] in
  let st := run sample_env started
              [ImapFetched 3%nat (uid_fetch_from inbox 1001);
               ImapFetched 4%nat (uid_fetch_from inbox 1001)] in
  (lastUid <$> heap sample_watching !! 1%nat) = Some 1000 /\
  fetches started !! 3%nat = Some (1%nat, 1001) /\
  fetches started !! 4%nat = Some (1%nat, 1001) /\
  received_uids st 100%nat = [1001; 1002; 1001; 1002].
Proof. split; [|split; [|split]]; vm_compute; reflexivity. Qed.

(** One listener after the other: the second fetch asks for [1002:*],
    which by the rule for [*] is the last message again; and when the
    message that was announced is gone before the fetch, [1001:*] is the
    message of uid 1000, which is not above the baseline. *)
Lemma star_range_republish :
  let st := run sample_env sample_watching
              [ImapExists 0%nat;
               ImapFetched 3%nat (uid_fetch_from [sample_msg 1000; sample_msg 1001] 1001);
               ImapExists 0%nat;
               ImapFetched 4%nat (uid_fetch_from [sample_msg 1000; sample_msg 1001] 1002)] in
  let st' := run sample_env sample_watching
               [ImapExists 0%nat;
                ImapFetched 3%nat (uid_fetch_from [sample_msg 999; sample_msg 1000] 1001)] in
  received_uids st 100%nat = [1001; 1001] /\
  received_uids st' 100%nat = [1000].
Proof. split; vm_compute; reflexivity. Qed.

(** ** The master key at start-up *)

(** C7, as the code has it: with the master key absent or not 32 bytes
    long once decoded, starting the module succeeds all the same, and the
    configuration error is what every later encryption, and every
    decryption of a supported envelope, throws. The handlers that reach
    one (create, update, read, test, send and watch start) answer 400 with
    its message and change nothing; the stream handler, whose headers are
    sent by then, writes it as an [Error] event on the stream instead. *)
Theorem master_key_error_deferred (env : Env) :
  bad_master_key env ->
  exists m,
    (forall s, startup env s = OK (module_loaded s)) /\
    (forall salt_bytes iv_bytes payload aad,
        encryptJSON env salt_bytes iv_bytes payload aad = Err (ConfigError m)) /\
    (forall e aad,
        v e = 1 -> alg e = "AES-256-GCM" ->
        decryptJSON env e aad = Err (ConfigError m)) /\
    (forall is_email smtp_verify imap_login store body b id now salt_bytes iv_bytes,
        CreateAccountSchema_parse is_email body = OK b ->
        (testConnection b = true ->
         connectivity smtp_verify imap_login (json_of_Secret (secret_of b)) = OK tt) ->
        post_accounts env is_email smtp_verify imap_login store body id now
          salt_bytes iv_bytes = (store, Err (ConfigError m))) /\
    (forall is_email store id acc body secret now salt_bytes iv_bytes,
        store !! kAccount id = Some (RRecord acc) ->
        SecretPayload_parse is_email body = OK secret ->
        put_account env is_email store id body now salt_bytes iv_bytes
        = (store, Err (ConfigError m))) /\
    (forall store id acc q,
        store !! kAccount id = Some (RRecord acc) ->
        v (enc acc) = 1 -> alg (enc acc) = "AES-256-GCM" ->
        get_account env store id q = Caught (ConfigError m)) /\
    (forall smtp_verify imap_login store id acc,
        store !! kAccount id = Some (RRecord acc) ->
        v (enc acc) = 1 -> alg (enc acc) = "AES-256-GCM" ->
        post_test env smtp_verify imap_login store id = Err (ConfigError m)) /\
    (forall is_email smtp_sendMail store id acc body msg,
        SendSchema_parse is_email body = OK msg ->
        store !! kAccount id = Some (RRecord acc) ->
        v (enc acc) = 1 -> alg (enc acc) = "AES-256-GCM" ->
        post_send env is_email smtp_sendMail store id body = ([], Err (ConfigError m))) /\
    (forall st a acc,
        store st !! kAccount a = Some (RRecord acc) ->
        v (enc acc) = 1 -> alg (enc acc) = "AES-256-GCM" ->
        watchers st !! a = None ->
        ensureWatcher env st a = (st, Err (ConfigError m))) /\
    (forall st a acc res,
        store st !! kAccount a = Some (RRecord acc) ->
        v (enc acc) = 1 -> alg (enc acc) = "AES-256-GCM" ->
        watchers st !! a = None ->
        written (stream_open env st a res)
        = (written st ++ [(res, ErrorEvent m);
                          (res, ErrorEvent "Watcher unavailable");
                          (res, SSEReady a)])%list /\
        watchers (stream_open env st a res) = watchers st).
Proof.
  intros Hbad. destruct (getMasterKey_bad env Hbad) as [m Hm]. exists m.
  assert (Henc : forall salt_bytes iv_bytes payload aad,
             encryptJSON env salt_bytes iv_bytes payload aad = Err (ConfigError m)).
  { intros. unfold encryptJSON, hkdfSubkey. cbn [mbind result_bind]. now rewrite Hm. }
  assert (Hdec : forall e aad, v e = 1 -> alg e = "AES-256-GCM" ->
             decryptJSON env e aad = Err (ConfigError m)).
  { intros e aad Hv Halg. unfold decryptJSON, hkdfSubkey.
    rewrite Hv, Halg. cbn [mbind result_bind]. now rewrite Hm. }
  split; [reflexivity|]. split; [exact Henc|]. split; [exact Hdec|].
  split; [|split; [|split; [|split; [|split; [|split]]]]].
  - intros is_email smtp_verify imap_login store body b id now salt_bytes iv_bytes Hb Ht.
    unfold post_accounts. rewrite Hb.
    assert (Hconn : (if testConnection b
                     then connectivity smtp_verify imap_login (json_of_Secret (secret_of b))
                     else OK tt) = OK tt).
    { destruct (testConnection b); [now apply Ht|reflexivity]. }
    unfold connectivity, secret_of in Hconn. cbv zeta. rewrite Hconn.
    now rewrite Henc.
  - intros is_email store id acc body secret now salt_bytes iv_bytes Ha Hb.
    unfold put_account. now rewrite loadAccount_lookup, Ha, Hb, Henc.
  - intros store id acc q Ha Hv Halg.
    unfold get_account. rewrite loadAccount_lookup, Ha, (Hdec _ _ Hv Halg). reflexivity.
  - intros smtp_verify imap_login store id acc Ha Hv Halg.
    unfold post_test. rewrite loadAccount_lookup, Ha. cbn [mbind result_bind].
    now rewrite (Hdec _ _ Hv Halg).
  - intros is_email smtp_sendMail store id acc body msg Hmsg Ha Hv Halg.
    unfold post_send. rewrite Hmsg, loadAccount_lookup, Ha. cbn [mbind result_bind].
    now rewrite (Hdec _ _ Hv Halg).
  - intros st a acc Ha Hv Halg Hw.
    unfold ensureWatcher, lookup_watcher. rewrite Hw. cbn [mbind option_bind].
    rewrite loadAccount_lookup, Ha. cbn [mbind result_bind].
    now rewrite (Hdec _ _ Hv Halg).
  - intros st a acc res Ha Hv Halg Hw.
    unfold stream_open, ensureWatcher, lookup_watcher. rewrite Hw. cbn [mbind option_bind].
    rewrite loadAccount_lookup, Ha. cbn [mbind result_bind].
    rewrite (Hdec _ _ Hv Halg). cbn [mbind result_bind write written with_written watchers].
    rewrite Hw. cbn. rewrite <- !app_assoc. split; reflexivity.
Qed.

Lemma short_key_is_bad : bad_master_key short_key_env.
Proof.
  unfold bad_master_key. cbn [CONFIG_MASTER_KEY_BASE64 short_key_env].
  vm_compute. discriminate.
Qed.

Lemma master_key_error_deferred_witness :
  exists m,
    (forall s, startup short_key_env s = OK (module_loaded s)) /\
    (forall salt_bytes iv_bytes payload aad,
        encryptJSON short_key_env salt_bytes iv_bytes payload aad = Err (ConfigError m)) /\
    (forall e aad,
        v e = 1 -> alg e = "AES-256-GCM" ->
        decryptJSON short_key_env e aad = Err (ConfigError m)) /\
    (forall is_email smtp_verify imap_login store body b id now salt_bytes iv_bytes,
        CreateAccountSchema_parse is_email body = OK b ->
        (testConnection b = true ->
         connectivity smtp_verify imap_login (json_of_Secret (secret_of b)) = OK tt) ->
        post_accounts short_key_env is_email smtp_verify imap_login store body id now
          salt_bytes iv_bytes = (store, Err (ConfigError m))) /\
    (forall is_email store id acc body secret now salt_bytes iv_bytes,
        store !! kAccount id = Some (RRecord acc) ->
        SecretPayload_parse is_email body = OK secret ->
        put_account short_key_env is_email store id body now salt_bytes iv_bytes
        = (store, Err (ConfigError m))) /\
    (forall store id acc q,
        store !! kAccount id = Some (RRecord acc) ->
        v (enc acc) = 1 -> alg (enc acc) = "AES-256-GCM" ->
        get_account short_key_env store id q = Caught (ConfigError m)) /\
    (forall smtp_verify imap_login store id acc,
        store !! kAccount id = Some (RRecord acc) ->
        v (enc acc) = 1 -> alg (enc acc) = "AES-256-GCM" ->
        post_test short_key_env smtp_verify imap_login store id = Err (ConfigError m)) /\
    (forall is_email smtp_sendMail store id acc body msg,
        SendSchema_parse is_email body = OK msg ->
        store !! kAccount id = Some (RRecord acc) ->
        v (enc acc) = 1 -> alg (enc acc) = "AES-256-GCM" ->
        post_send short_key_env is_email smtp_sendMail store id body
        = ([], Err (ConfigError m))) /\
    (forall st a acc,
        store st !! kAccount a = Some (RRecord acc) ->
        v (enc acc) = 1 -> alg (enc acc) = "AES-256-GCM" ->
        watchers st !! a = None ->
        ensureWatcher short_key_env st a = (st, Err (ConfigError m))) /\
    (forall st a acc res,
        store st !! kAccount a = Some (RRecord acc) ->
        v (enc acc) = 1 -> alg (enc acc) = "AES-256-GCM" ->
        watchers st !! a = None ->
        written (stream_open short_key_env st a res)
        = (written st ++ [(res, ErrorEvent m);
                          (res, ErrorEvent "Watcher unavailable");
                          (res, SSEReady a)])%list /\
        watchers (stream_open short_key_env st a res) = watchers st).
Proof. exact (master_key_error_deferred short_key_env short_key_is_bad). Defined.

(** With no master key configured the module starts, and the error shows
    at the first encryption. *)
Lemma master_key_startup_counterexample :
  is_OK (startup {| CONFIG_MASTER_KEY_BASE64 := None |} ∅) = true /\
  encryptJSON {| CONFIG_MASTER_KEY_BASE64 := None |} [] [] JNull "a:t"
    = Err (ConfigError "CONFIG_MASTER_KEY_BASE64 is required").
Proof. split; reflexivity. Qed.

(** * Further properties of the router *)

(** ** The envelope, further *)

Lemma length_buffer_of_bytes (l : list Z) : length (buffer_of_bytes l) = length l.
Proof. apply length_map. Qed.

Lemma length_compress_fold (blocks : list (list Z)) (h : list Z) :
  length h = 8%nat -> length (fold_left SHA256.compress blocks h) = 8%nat.
Proof.
  revert h. induction blocks as [|b r IH]; intros h Hh; [exact Hh|].
  cbn [fold_left]. apply IH. reflexivity.
Qed.

Lemma length_concat_be4 (ws : list Z) :
  length (concat (map (Z_to_be 4) ws)) = (4 * length ws)%nat.
Proof.
  induction ws as [|w r IH]; [reflexivity|].
  cbn [map concat]. rewrite length_app, IH, length_Z_to_be. cbn [length]. lia.
Qed.

Lemma length_SHA256_hash (msg : list Z) : length (SHA256.hash msg) = 32%nat.
Proof.
  unfold SHA256.hash. rewrite length_concat_be4, length_compress_fold; reflexivity.
Qed.

Lemma length_hmac_sha256 (key msg : list Z) : length (hmac_sha256 key msg) = 32%nat.
Proof. apply length_SHA256_hash. Qed.

Lemma OK_inj {A} (a b : A) : OK a = OK b -> a = b.
Proof. now intros [=]. Qed.

(** X1. The key [hkdfSubkey] derives has 32 bytes, the size AES-256
    takes, whatever the salt and the info string are. *)
Theorem hkdfSubkey_length (env : Env) (salt_bytes : list ascii) (info : string)
    (key : list ascii) :
  hkdfSubkey env salt_bytes info = OK key -> length key = 32%nat.
Proof.
  unfold hkdfSubkey, mbind, result_bind.
  destruct (getMasterKey env) as [master|e]; [|discriminate].
  intros H. apply OK_inj in H. rewrite <- H, length_buffer_of_bytes.
  unfold hkdfSync_sha256, hkdf_expand.
  change ((32 + 31) / 32)%nat with 1%nat. cbn [hkdf_blocks].
  rewrite app_nil_r, firstn_all2; rewrite length_hmac_sha256; reflexivity.
Qed.

Lemma sample_subkey_OK :
  exists key, hkdfSubkey sample_env sample_salt "mailbox:v1" = OK key.
Proof. exact (hkdfSubkey_OK _ _ _ _ sample_master_key). Qed.

Lemma hkdfSubkey_length_witness :
  exists key, hkdfSubkey sample_env sample_salt "mailbox:v1" = OK key /\
              length key = 32%nat.
Proof.
  destruct sample_subkey_OK as [key H]. exists key.
  exact (conj H (hkdfSubkey_length sample_env sample_salt "mailbox:v1" key H)).
Defined.

(** X2. With a master key configured [encryptJSON] never fails, and the
    envelope it returns has version 1 and algorithm "AES-256-GCM", carries
    the salt and the iv of this call, a tag of 16 bytes, and a ciphertext
    of exactly as many bytes as the JSON text of the payload. *)
Theorem encryptJSON_shape (env : Env) (master salt_bytes iv_bytes : list ascii)
    (payload : json) (aad : string) :
  getMasterKey env = OK master ->
  exists e,
    encryptJSON env salt_bytes iv_bytes payload aad = OK e /\
    v e = 1 /\ alg e = "AES-256-GCM" /\
    base64_decode (salt e) = salt_bytes /\
    base64_decode (iv e) = iv_bytes /\
    length (base64_decode (tag e)) = 16%nat /\
    length (base64_decode (ct e)) = String.length (JSON_stringify payload).
Proof.
  intros Hkey.
  destruct (hkdfSubkey_OK env master salt_bytes "mailbox:v1" Hkey) as [key Hk].
  unfold encryptJSON. rewrite Hk. cbn [mbind result_bind].
  unfold GCM.encrypt. eexists. split; [reflexivity|].
  cbn [v alg salt iv tag ct]. rewrite !base64_decode_encode.
  split; [reflexivity|]. split; [reflexivity|]. split; [reflexivity|].
  split; [reflexivity|]. split.
  - unfold GCM.tag. now rewrite length_buffer_of_bytes, length_Z_to_be.
  - rewrite length_gctr. generalize (JSON_stringify payload). intros s.
    induction s as [|c s IH]; [reflexivity|]. cbn. now rewrite IH.
Qed.

Lemma encryptJSON_shape_witness :
  exists e,
    encryptJSON sample_env sample_salt sample_iv (json_of_Secret sample_secret)
      (aad_of sample_id "u1") = OK e /\
    v e = 1 /\ alg e = "AES-256-GCM" /\
    base64_decode (salt e) = sample_salt /\
    base64_decode (iv e) = sample_iv /\
    length (base64_decode (tag e)) = 16%nat /\
    length (base64_decode (ct e)) = String.length (JSON_stringify (json_of_Secret sample_secret)).
Proof.
  exact (encryptJSON_shape sample_env _ sample_salt sample_iv (json_of_Secret sample_secret)
           (aad_of sample_id "u1") sample_master_key).
Defined.

(** X3. An envelope [encryptJSON] made, with its tag replaced by any
    other tag of 16 bytes, does not open under its own associated data:
    [decryptJSON] fails with the authentication error. (A tag of another
    length is refused by [setAuthTag] before that.) *)
Theorem decryptJSON_other_tag (env : Env) (salt_bytes iv_bytes : list ascii)
    (payload : json) (aad : string) (e : Envelope) (tag' : string) :
  encryptJSON env salt_bytes iv_bytes payload aad = OK e ->
  iv_bytes <> [] ->
  length (base64_decode tag') = 16%nat ->
  base64_decode tag' <> base64_decode (tag e) ->
  decryptJSON env (with_tag e tag') aad = Err AuthFailure.
Proof.
  intros He Hiv _ Hneq.
  pose proof (tag_under_sealed _ _ _ _ _ _ He) as Htag.
  revert He Htag.
  unfold encryptJSON, decryptJSON, tag_under, with_tag, mbind, result_bind.
  destruct (hkdfSubkey env salt_bytes "mailbox:v1") as [key|] eqn:Ekey; [|discriminate].
  destruct (GCM.encrypt key iv_bytes (list_ascii_of_string aad)
              (list_ascii_of_string (JSON_stringify payload)))
    as [ct_bytes tag_bytes] eqn:Eenc.
  intros [= <-]. cbn [v alg salt iv tag ct] in *.
  rewrite !base64_decode_encode in *. rewrite Ekey.
  cbn [negb orb Z.eqb Pos.eqb]. rewrite String.eqb_refl. cbn [negb].
  intros [= Htag].
  destruct iv_bytes as [|i0 ivs]; [contradiction|].
  unfold GCM.decrypt. rewrite Htag.
  rewrite decide_False; [reflexivity|]. intros H. apply Hneq. now rewrite <- H.
Qed.

Lemma sample_iv_nonempty : sample_iv <> [].
Proof. discriminate. Qed.

Lemma sample_other_tag :
  length (base64_decode (tag tenant_one_envelope)) = 16%nat /\
  base64_decode (tag tenant_one_envelope) <> base64_decode (tag sample_envelope).
Proof. split; [vm_compute; reflexivity|vm_compute; discriminate]. Qed.

Lemma decryptJSON_other_tag_witness :
  decryptJSON sample_env (with_tag sample_envelope (tag tenant_one_envelope))
    (aad_of sample_id "u1") = Err AuthFailure.
Proof.
  exact (decryptJSON_other_tag sample_env sample_salt sample_iv (json_of_Secret sample_secret)
           (aad_of sample_id "u1") sample_envelope (tag tenant_one_envelope)
           sample_envelope_sealed sample_iv_nonempty
           (proj1 sample_other_tag) (proj2 sample_other_tag)).
Defined.

(** ** The store and its handlers *)

Lemma append_inv_tail (a b s : string) : (a ++ s = b ++ s)%string -> a = b.
Proof.
  intros H.
  assert (Hl : list_ascii_of_string (a ++ s) = list_ascii_of_string (b ++ s)) by now rewrite H.
  assert (Happ : forall x y, list_ascii_of_string (x ++ y)
                             = (list_ascii_of_string x ++ list_ascii_of_string y)%list).
  { intros x y. induction x as [|c x IH]; [reflexivity|]. simpl. now rewrite IH. }
  rewrite !Happ in Hl. apply app_inv_tail in Hl.
  rewrite <- (string_of_list_ascii_of_string a), <- (string_of_list_ascii_of_string b).
  now rewrite Hl.
Qed.

Lemma kAccount_inj (a b : string) : kAccount a = kAccount b -> a = b.
Proof. unfold kAccount. intros H. now injection H. Qed.

Lemma kUserIndex_inj (t u : string) : kUserIndex t = kUserIndex u -> t = u.
Proof. unfold kUserIndex. intros H. injection H as H.
  change (t ++ ":accounts" = u ++ ":accounts")%string in H.
  exact (append_inv_tail _ _ _ H).
Qed.

Lemma kAccount_not_index (a t : string) : kAccount a <> kUserIndex t.
Proof. unfold kAccount, kUserIndex. discriminate. Qed.

(** X4. The two key builders are injective and their ranges are
    disjoint: two accounts never share a record key, two tenants never
    share an index key, and no record key is an index key. *)
Theorem key_space_separate :
  (forall a b, kAccount a = kAccount b -> a = b) /\
  (forall t u, kUserIndex t = kUserIndex u -> t = u) /\
  (forall a t, kAccount a <> kUserIndex t).
Proof.
  split; [exact kAccount_inj|]. split; [exact kUserIndex_inj|exact kAccount_not_index].
Qed.

Ltac key_facts :=
  repeat match goal with
         | H : kAccount ?a = kAccount ?b |- _ =>
             apply kAccount_inj in H; first [subst b | subst a | rewrite H in * | idtac]
         | H : kUserIndex ?a = kUserIndex ?b |- _ =>
             apply kUserIndex_inj in H; first [subst b | subst a | rewrite H in * | idtac]
         | H : kAccount _ = kUserIndex _ |- _ => destruct (kAccount_not_index _ _ H)
         | H : kUserIndex _ = kAccount _ |- _ =>
             destruct (kAccount_not_index _ _ (eq_sym H))
         end.

Ltac lookups :=
  repeat match goal with
         | H : context [<[_ := _]> _ !! _] |- _ => rewrite lookup_insert in H
         | H : context [delete _ _ !! _] |- _ => rewrite lookup_delete in H
         | |- context [<[_ := _]> _ !! _] => rewrite lookup_insert
         | |- context [delete _ _ !! _] => rewrite lookup_delete
         end.

Lemma consistent_record_id (store : Store) (id : string) (r : AccountRecord) :
  consistent store -> store !! kAccount id = Some (RRecord r) -> acc_id r = id.
Proof.
  intros (H1 & _) Hr. apply H1 in Hr. now apply kAccount_inj in Hr.
Qed.

Lemma consistent_account_not_set (store : Store) (id : string) (s : gset string) :
  consistent store -> store !! kAccount id <> Some (RSet s).
Proof.
  intros (_ & H2 & _) Hs. apply H2 in Hs as (_ & t & Ht). key_facts.
Qed.

Lemma consistent_index_not_record (store : Store) (t : string) (r : AccountRecord) :
  consistent store -> store !! kUserIndex t <> Some (RRecord r).
Proof.
  intros (H1 & _) Hr. apply H1 in Hr. key_facts.
Qed.

Lemma srem_lookup (store : Store) (k0 k : string) (s : gset string) (id : string) :
  (if decide (s ∖ {[id]} = ∅) then delete k0 store
   else <[k0 := RSet (s ∖ {[id]})]> store) !! k
  = if decide (k0 = k)
    then (if decide (s ∖ {[id]} = ∅) then None else Some (RSet (s ∖ {[id]})))
    else store !! k.
Proof.
  destruct (decide (s ∖ {[id]} = ∅)); [apply lookup_delete|apply lookup_insert].
Qed.

Lemma delete_account_consistent (store : Store) (id : string) :
  consistent store ->
  consistent (fst (delete_account store id)) /\ snd (delete_account store id) = OK tt.
Proof.
  intros Hc. unfold delete_account. rewrite loadAccount_lookup.
  destruct (store !! kAccount id) as [[r|s]|] eqn:Ea; cbn [fst snd].
  2:{ destruct (consistent_account_not_set _ _ _ Hc Ea). }
  2:{ split; [exact Hc|reflexivity]. }
  pose proof (consistent_record_id _ _ _ Hc Ea) as Hid. rewrite Hid.
  destruct Hc as (H1 & H2 & H3 & H4).
  destruct (H3 _ _ Ea) as (s & Es & Hin).
  unfold redis_srem, redis_del.
  rewrite lookup_delete_ne by apply kAccount_not_index. rewrite Es.
  cbn [fst snd]. split; [|reflexivity].
  set (t := acc_integrationId r) in *.
  set (new := if decide (s ∖ {[id]} = ∅) then None else Some (RSet (s ∖ {[id]}))).
  assert (Hnew : forall v, new = Some v -> v = RSet (s ∖ {[id]}) /\ s ∖ {[id]} <> ∅).
  { intros v. unfold new. destruct (decide (s ∖ {[id]} = ∅)); [discriminate|].
    now intros [= <-]. }
  assert (Hnew' : s ∖ {[id]} <> ∅ -> new = Some (RSet (s ∖ {[id]}))).
  { intros Hne. unfold new. now rewrite decide_False. }
  assert (Hlook : forall k,
             (if decide (s ∖ {[id]} = ∅) then delete (kUserIndex t) (delete (kAccount id) store)
              else <[kUserIndex t := RSet (s ∖ {[id]})]> (delete (kAccount id) store)) !! k
             = if decide (kUserIndex t = k) then new
               else if decide (kAccount id = k) then None else store !! k).
  { intros k. rewrite srem_lookup. fold new. now rewrite lookup_delete. }
  clearbody new.
  split; [|split; [|split]].
  - intros k r' Hk. rewrite Hlook in Hk.
    destruct (decide (kUserIndex t = k)); [apply Hnew in Hk as [? _]; discriminate|].
    destruct (decide (kAccount id = k)); [discriminate|]. now apply H1.
  - intros k s' Hk. rewrite Hlook in Hk.
    destruct (decide (kUserIndex t = k)) as [<-|].
    + apply Hnew in Hk as [[= ->] Hne]. eauto.
    + destruct (decide (kAccount id = k)); [discriminate|]. now apply H2.
  - intros id' r' Hk. rewrite Hlook in Hk.
    destruct (decide (kUserIndex t = kAccount id')) as [He|_]; [key_facts|].
    destruct (decide (kAccount id = kAccount id')) as [|Hne]; [discriminate|].
    destruct (H3 _ _ Hk) as (s0 & Es0 & Hin0).
    destruct (decide (acc_integrationId r' = t)) as [Ht|Ht].
    + rewrite Ht in *. rewrite Es in Es0. injection Es0 as <-.
      assert (Hin' : id' ∈ s ∖ {[id]}).
      { apply elem_of_difference. split; [exact Hin0|].
        intros ->%elem_of_singleton. congruence. }
      exists (s ∖ {[id]}). split; [|exact Hin'].
      rewrite Hlook, decide_True by reflexivity. apply Hnew'.
      intros He. rewrite He in Hin'. now apply not_elem_of_empty in Hin'.
    + exists s0. split; [|exact Hin0]. rewrite Hlook.
      rewrite decide_False by (intros He; key_facts; congruence).
      rewrite decide_False by (intros He; key_facts). exact Es0.
  - intros t' s' id' Hk Hin'. rewrite Hlook in Hk.
    destruct (decide (kUserIndex t = kUserIndex t')) as [He|Ht].
    + key_facts. apply Hnew in Hk as [[= ->] _].
      apply elem_of_difference in Hin' as [Hin' Hne].
      destruct (H4 _ _ _ Es Hin') as (r' & Er' & Htn).
      exists r'. split; [|exact Htn]. rewrite Hlook.
      rewrite decide_False by (intros He; key_facts).
      rewrite decide_False; [exact Er'|]. intros He. key_facts.
      apply Hne. now apply elem_of_singleton.
    + destruct (decide (kAccount id = kUserIndex t')) as [He|_]; [key_facts|].
      destruct (H4 _ _ _ Hk Hin') as (r' & Er' & Htn).
      exists r'. split; [|exact Htn]. rewrite Hlook.
      rewrite decide_False by (intros He; key_facts).
      rewrite decide_False; [exact Er'|]. intros He. key_facts.
      rewrite Ea in Er'. injection Er' as <-. apply Ht. now rewrite <- Htn.
Qed.

Section Create.

Variable env : Env.
Variable is_email : string -> bool.
Variable smtp_verify : TransportOptions -> result unit.
Variable imap_login : ImapConfig -> result unit.

Lemma post_accounts_eq (store : Store) (body : option json) (id now : string)
    (salt_bytes iv_bytes : list ascii) :
  post_accounts env is_email smtp_verify imap_login store body id now salt_bytes iv_bytes =
    match CreateAccountSchema_parse is_email body with
    | Err e => (store, Err e)
    | OK b =>
        match (if testConnection b
               then connectivity smtp_verify imap_login (json_of_Secret (secret_of b))
               else OK tt) with
        | Err e => (store, Err e)
        | OK _ =>
            match encryptJSON env salt_bytes iv_bytes (json_of_Secret (secret_of b))
                    (aad_of id (c_integrationId b)) with
            | Err e => (store, Err e)
            | OK e =>
                let record := {| acc_id := id; acc_integrationId := c_integrationId b;
                                 createdAt := now; updatedAt := now; enc := e |} in
                match store !! kUserIndex (c_integrationId b) with
                | Some (RRecord _) => (<[kAccount id := RRecord record]> store, Err WrongType)
                | _ =>
                    (<[kUserIndex (c_integrationId b) :=
                         RSet ({[id]} ∪ index_of store (c_integrationId b))]>
                       (<[kAccount id := RRecord record]> store), OK id)
                end
            end
        end
    end.
Proof.
  unfold post_accounts, connectivity, secret_of.
  destruct (CreateAccountSchema_parse is_email body) as [b|]; [|reflexivity].
  destruct (if testConnection b then _ else _); [|reflexivity].
  destruct (encryptJSON _ _ _ _ _) as [e|]; [|reflexivity].
  unfold redis_sadd, redis_set, index_of.
  rewrite lookup_insert_ne by apply kAccount_not_index.
  destruct (store !! kUserIndex (c_integrationId b)) as [[r|s]|]; try reflexivity.
  now rewrite union_empty_r_L.
Qed.

End Create.

Lemma index_of_elem (store : Store) (t id : string) :
  id ∈ index_of store t <-> exists s, store !! kUserIndex t = Some (RSet s) /\ id ∈ s.
Proof.
  unfold index_of. destruct (store !! kUserIndex t) as [[r|s]|]; split.
  - intros H. now apply not_elem_of_empty in H.
  - intros (s & [=] & _).
  - eauto.
  - now intros (s' & [= <-] & H).
  - intros H. now apply not_elem_of_empty in H.
  - intros (s & [=] & _).
Qed.

Lemma insert_account_consistent (store : Store) (id : string) (rec : AccountRecord) :
  consistent store -> store !! kAccount id = None -> acc_id rec = id ->
  consistent
    (<[kUserIndex (acc_integrationId rec) :=
         RSet ({[id]} ∪ index_of store (acc_integrationId rec))]>
       (<[kAccount id := RRecord rec]> store)).
Proof.
  intros (H1 & H2 & H3 & H4) Hfresh Hid.
  set (t := acc_integrationId rec) in *.
  split; [|split; [|split]].
  - intros k r Hk. lookups.
    destruct (decide (kUserIndex t = k)); [discriminate|].
    destruct (decide (kAccount id = k)) as [<-|]; [|now apply H1].
    injection Hk as <-. now rewrite Hid.
  - intros k s Hk. lookups.
    destruct (decide (kUserIndex t = k)) as [<-|].
    + injection Hk as <-. split; [|eauto].
      intros He. assert (Hin : id ∈ ({[id]} ∪ index_of store t : gset string)).
      { apply elem_of_union_l. now apply elem_of_singleton. }
      rewrite He in Hin. now apply not_elem_of_empty in Hin.
    + destruct (decide (kAccount id = k)); [discriminate|]. now apply H2.
  - intros id' r Hk. lookups.
    destruct (decide (kUserIndex t = kAccount id')) as [He|_]; [key_facts|].
    destruct (decide (kAccount id = kAccount id')) as [He|Hne].
    + key_facts. injection Hk as <-. fold t. rewrite decide_True by reflexivity.
      eexists. split; [reflexivity|]. apply elem_of_union_l. now apply elem_of_singleton.
    + destruct (H3 _ _ Hk) as (s0 & Es0 & Hin0).
      destruct (decide (kUserIndex t = kUserIndex (acc_integrationId r))) as [He|Ht].
      * eexists. split; [reflexivity|]. apply elem_of_union_r.
        apply index_of_elem. rewrite He. eauto.
      * rewrite decide_False by (intros He; key_facts). eauto.
  - intros t' s id' Hk Hin. lookups.
    destruct (decide (kUserIndex t = kUserIndex t')) as [He|Ht].
    + key_facts. injection Hk as <-.
      apply elem_of_union in Hin as [->%elem_of_singleton|Hin].
      * exists rec. split; [|reflexivity].
        rewrite decide_False by (intros He; key_facts).
        now rewrite decide_True by reflexivity.
      * apply index_of_elem in Hin as (s0 & Es0 & Hin0).
        destruct (H4 _ _ _ Es0 Hin0) as (r & Er & Htn).
        exists r. split; [|exact Htn].
        rewrite decide_False by (intros He; key_facts).
        rewrite decide_False; [exact Er|]. intros He. key_facts. congruence.
    + destruct (decide (kAccount id = kUserIndex t')) as [He|_]; [key_facts|].
      destruct (H4 _ _ _ Hk Hin) as (r & Er & Htn).
      exists r. split; [|exact Htn].
      rewrite decide_False by (intros He; key_facts).
      rewrite decide_False; [exact Er|]. intros He. key_facts. congruence.
Qed.

Lemma replace_record_consistent (store : Store) (id : string) (old new : AccountRecord) :
  consistent store -> store !! kAccount id = Some (RRecord old) ->
  acc_id new = acc_id old -> acc_integrationId new = acc_integrationId old ->
  consistent (<[kAccount id := RRecord new]> store).
Proof.
  intros (H1 & H2 & H3 & H4) Hold Hid Htn.
  split; [|split; [|split]].
  - intros k r Hk. lookups.
    destruct (decide (kAccount id = k)) as [<-|]; [|now apply H1].
    injection Hk as <-. rewrite Hid. now apply H1.
  - intros k s Hk. lookups.
    destruct (decide (kAccount id = k)); [discriminate|]. now apply H2.
  - intros id' r Hk. lookups.
    destruct (decide (kAccount id = kAccount id')) as [He|Hne].
    + key_facts. injection Hk as <-. rewrite Htn.
      rewrite decide_False by apply kAccount_not_index. now apply H3.
    + rewrite decide_False by apply kAccount_not_index. now apply H3.
  - intros t s id' Hk Hin. lookups.
    destruct (decide (kAccount id = kUserIndex t)) as [He|_]; [key_facts|].
    destruct (H4 _ _ _ Hk Hin) as (r & Er & Hr).
    destruct (decide (kAccount id = kAccount id')) as [He|Hne].
    + key_facts. rewrite Hold in Er. injection Er as <-.
      exists new. split; [reflexivity|]. now rewrite Htn.
    + eauto.
Qed.

Lemma consistent_empty : consistent ∅.
Proof.
  split; [|split; [|split]]; intros *; rewrite lookup_empty; discriminate.
Qed.

Lemma post_accounts_consistent (env : Env) (is_email : string -> bool)
    (smtp_verify : TransportOptions -> result unit)
    (imap_login : ImapConfig -> result unit)
    (store : Store) (body : option json) (id now : string)
    (salt_bytes iv_bytes : list ascii) :
  consistent store -> store !! kAccount id = None ->
  consistent (fst (post_accounts env is_email smtp_verify imap_login store body id now
                     salt_bytes iv_bytes)).
Proof.
  intros Hc Hfresh. rewrite post_accounts_eq.
  destruct (CreateAccountSchema_parse is_email body) as [b|]; [|exact Hc].
  destruct (if testConnection b then _ else _); [|exact Hc].
  destruct (encryptJSON _ _ _ _ _) as [e|]; [|exact Hc].
  cbv zeta.
  destruct (store !! kUserIndex (c_integrationId b)) as [[r|s]|] eqn:Ei; cbn [fst].
  - destruct (consistent_index_not_record _ _ _ Hc Ei).
  - exact (insert_account_consistent store id
             {| acc_id := id; acc_integrationId := c_integrationId b; createdAt := now;
                updatedAt := now; enc := e |} Hc Hfresh eq_refl).
  - exact (insert_account_consistent store id
             {| acc_id := id; acc_integrationId := c_integrationId b; createdAt := now;
                updatedAt := now; enc := e |} Hc Hfresh eq_refl).
Qed.

Lemma put_account_consistent (env : Env) (is_email : string -> bool)
    (store : Store) (id : string) (body : option json) (now : string)
    (salt_bytes iv_bytes : list ascii) :
  consistent store ->
  consistent (fst (put_account env is_email store id body now salt_bytes iv_bytes)).
Proof.
  intros Hc. unfold put_account. rewrite loadAccount_lookup.
  destruct (store !! kAccount id) as [[acc|s]|] eqn:Ea; try exact Hc.
  destruct (SecretPayload_parse is_email body) as [secret|]; [|exact Hc].
  destruct (encryptJSON _ _ _ _ _) as [e|]; [|exact Hc].
  cbn [fst]. unfold redis_set.
  replace (kAccount (acc_id acc)) with (kAccount id)
    by now rewrite (consistent_record_id _ _ _ Hc Ea).
  now apply (replace_record_consistent store id acc).
Qed.

(** X5. The three handlers that write keep the store consistent when
    they answer success: records under the key of their own id, every
    record in the index of its tenant and every index member the id of a
    record of that tenant. For the create handler the id [ulid()] returns
    has to be new. *)
Theorem handlers_keep_consistent (env : Env) (is_email : string -> bool)
    (smtp_verify : TransportOptions -> result unit)
    (imap_login : ImapConfig -> result unit) (store : Store) :
  consistent store ->
  (forall body id now salt_bytes iv_bytes rid,
      store !! kAccount id = None ->
      snd (post_accounts env is_email smtp_verify imap_login store body id now
             salt_bytes iv_bytes) = OK rid ->
      consistent (fst (post_accounts env is_email smtp_verify imap_login store body id now
                         salt_bytes iv_bytes))) /\
  (forall id body now salt_bytes iv_bytes,
      snd (put_account env is_email store id body now salt_bytes iv_bytes) = OK tt ->
      consistent (fst (put_account env is_email store id body now salt_bytes iv_bytes))) /\
  (forall id,
      snd (delete_account store id) = OK tt ->
      consistent (fst (delete_account store id))).
Proof.
  intros Hc. split; [|split].
  - intros. now apply post_accounts_consistent.
  - intros. now apply put_account_consistent.
  - intros id _. now apply delete_account_consistent.
Qed.

Lemma mapM_OK {A B} (f : A -> result B) (l : list A) (l' : list B) :
  mapM f l = OK l' -> Forall2 (fun x y => f x = OK y) l l'.
Proof.
  revert l'. induction l as [|x r IH]; intros l'; cbn [mapM].
  - intros [= <-]. constructor.
  - unfold mbind, result_bind. destruct (f x) as [y|] eqn:Ey; [|discriminate].
    destruct (mapM f r) as [ys|]; [|discriminate].
    intros [= <-]. constructor; [exact Ey|]. now apply IH.
Qed.

Lemma summary_of_OK (env : Env) (r : AccountRecord) (s : AccountSummary) :
  summary_of env r = OK s ->
  s_id s = acc_id r /\ s_integrationId s = acc_integrationId r /\
  s_createdAt s = createdAt r /\ s_updatedAt s = updatedAt r.
Proof.
  unfold summary_of, mbind, result_bind.
  destruct (decryptJSON _ _ _) as [secret|]; [|discriminate].
  destruct (js_get (Some secret) "label"); [|discriminate].
  destruct (js_get (Some secret) "primaryEmail"); [|discriminate].
  now intros [= <-].
Qed.

Lemma existing_records_all (store : Store) (ids : list string) :
  (forall id, id ∈ ids -> exists r, store !! kAccount id = Some (RRecord r) /\ acc_id r = id) ->
  map acc_id (existing_records store ids) = ids.
Proof.
  induction ids as [|id r IH]; intros H; [reflexivity|].
  unfold existing_records in *. cbn [omap list_omap].
  destruct (H id) as (rec & -> & Hid); [constructor|].
  cbn [map]. rewrite Hid. f_equal. apply IH. intros id' Hin. apply H. now constructor.
Qed.

(** X6. On a consistent store the list of a tenant is the tenant's
    accounts and nothing else: every entry carries the tenant's id, the ids
    listed are exactly the ids of the stored records of that tenant, and no
    id is listed twice. *)
Theorem list_is_tenant_accounts (env : Env) (store : Store) (t : string)
    (l : list AccountSummary) :
  consistent store -> t <> "" ->
  get_accounts env store (Some (JStr t)) = OK l ->
  (forall s, s ∈ l -> s_integrationId s = t) /\
  (forall id, id ∈ map s_id l <->
              exists r, store !! kAccount id = Some (RRecord r) /\ acc_integrationId r = t) /\
  NoDup (map s_id l).
Proof.
  intros Hc Ht. unfold get_accounts.
  cbn [js_truthy].
  destruct (String.eqb_spec t ""); [contradiction|]. cbn [negb js_String js_String_json].
  destruct (String.eqb_spec t ""); [contradiction|].
  unfold redis_smembers, mbind, result_bind.
  assert (Hloop : forall ids,
             list_loop env store ids = mapM (summary_of env) (existing_records store ids)).
  { intros ids. apply list_loop_existing.
    intros id s _. apply (consistent_account_not_set _ _ _ Hc). }
  assert (Hids : forall ids,
             (forall id, id ∈ ids <-> id ∈ index_of store t) -> NoDup ids ->
             mapM (summary_of env) (existing_records store ids) = OK l ->
             (forall s, s ∈ l -> s_integrationId s = t) /\
             (forall id, id ∈ map s_id l <->
                exists r, store !! kAccount id = Some (RRecord r) /\ acc_integrationId r = t) /\
             NoDup (map s_id l)).
  { intros ids Hin Hnd Hm. apply mapM_OK in Hm.
    destruct Hc as (H1 & H2 & H3 & H4).
    assert (Hrec : forall id, id ∈ ids ->
               exists r, store !! kAccount id = Some (RRecord r) /\ acc_id r = id).
    { intros id Hid. apply Hin, index_of_elem in Hid as (s & Es & Hs).
      destruct (H4 _ _ _ Es Hs) as (r & Er & _). exists r. split; [exact Er|].
      apply H1 in Er. now apply kAccount_inj in Er. }
    assert (Hmap : map s_id l = ids).
    { rewrite <- (existing_records_all store ids Hrec).
      clear -Hm. induction Hm as [|r s rs ss Hs _ IH]; [reflexivity|].
      cbn [map]. rewrite IH. f_equal. now apply summary_of_OK in Hs. }
    split; [|split].
    - intros s Hs. apply list_elem_of_lookup in Hs as [i Hi].
      destruct (Forall2_lookup_r _ _ _ _ _ Hm Hi) as (r & Hr & Hsum).
      apply list_elem_of_lookup_2, elem_of_existing_records in Hr as (id & Hid & Er).
      apply summary_of_OK in Hsum as (_ & -> & _).
      apply Hin, index_of_elem in Hid as (s0 & Es0 & Hs0).
      destruct (H4 _ _ _ Es0 Hs0) as (r' & Er' & Htn). congruence.
    - intros id. rewrite Hmap, Hin, index_of_elem. split.
      + intros (s & Es & Hs). exact (H4 _ _ _ Es Hs).
      + intros (r & Er & <-). exact (H3 _ _ Er).
    - now rewrite Hmap. }
  destruct (store !! kUserIndex t) as [[r|s]|] eqn:Ei.
  - destruct (consistent_index_not_record _ _ _ Hc Ei).
  - cbv beta iota. rewrite Hloop. apply Hids; [|apply NoDup_elements].
    intros id. rewrite elem_of_elements. unfold index_of. now rewrite Ei.
  - cbv beta iota. rewrite Hloop. apply Hids; [|constructor].
    intros id. unfold index_of. rewrite Ei. split; intros H.
    + now apply elem_of_nil in H.
    + now apply not_elem_of_empty in H.
Qed.

Lemma consistent_index_of (store : Store) (t : string) :
  consistent store ->
  store !! kUserIndex t
  = if decide (index_of store t = ∅) then None else Some (RSet (index_of store t)).
Proof.
  intros Hc. unfold index_of.
  destruct (store !! kUserIndex t) as [[r|s]|] eqn:Ei.
  - destruct (consistent_index_not_record _ _ _ Hc Ei).
  - destruct Hc as (_ & H2 & _). apply H2 in Ei as [Hne _]. now rewrite decide_False.
  - now rewrite decide_True.
Qed.

(** X7. Deleting the account a successful create has just stored gives
    back the store as it was before the create, index included. *)
Theorem delete_undoes_create (env : Env) (is_email : string -> bool)
    (smtp_verify : TransportOptions -> result unit)
    (imap_login : ImapConfig -> result unit)
    (store store' : Store) (body : option json) (id now rid : string)
    (salt_bytes iv_bytes : list ascii) :
  consistent store -> store !! kAccount id = None ->
  post_accounts env is_email smtp_verify imap_login store body id now salt_bytes iv_bytes
    = (store', OK rid) ->
  delete_account store' id = (store, OK tt).
Proof.
  intros Hc Hfresh. rewrite post_accounts_eq.
  destruct (CreateAccountSchema_parse is_email body) as [b|]; [|discriminate].
  destruct (if testConnection b then _ else _); [|discriminate].
  destruct (encryptJSON _ _ _ _ _) as [e|]; [|discriminate].
  cbv zeta. set (t := c_integrationId b). set (idx := index_of store t).
  set (rec := {| acc_id := id; acc_integrationId := t; createdAt := now;
                 updatedAt := now; enc := e |}).
  assert (Hnot : id ∉ idx).
  { intros Hin. apply index_of_elem in Hin as (s & Es & Hs).
    destruct Hc as (_ & _ & _ & H4). destruct (H4 _ _ _ Es Hs) as (r & Er & _).
    congruence. }
  assert (Hdiff : ({[id]} ∪ idx) ∖ {[id]} = idx).
  { apply set_eq. intros x.
    rewrite elem_of_difference, elem_of_union, elem_of_singleton. split.
    - intros [[->|Hx] Hne]; [contradiction|exact Hx].
    - intros Hx. split; [now right|]. intros ->. contradiction. }
  intros Hpost.
  assert (Hs' : store' = <[kUserIndex t := RSet ({[id]} ∪ idx)]>
                           (<[kAccount id := RRecord rec]> store)).
  { destruct (store !! kUserIndex t) as [[r|s]|] eqn:Ei; [discriminate| |];
      now injection Hpost as <- _. }
  clear Hpost. subst store'.
  unfold delete_account. rewrite loadAccount_lookup.
  rewrite lookup_insert_ne by (intros He; key_facts).
  rewrite lookup_insert_eq. cbn [acc_id acc_integrationId rec].
  unfold redis_srem, redis_del.
  rewrite lookup_delete_ne by apply kAccount_not_index.
  rewrite lookup_insert_eq, Hdiff.
  f_equal. apply map_eq. intros k.
  pose proof (srem_lookup (delete (kAccount id)
                             (<[kUserIndex t := RSet ({[id]} ∪ idx)]>
                                (<[kAccount id := RRecord rec]> store)))
                (kUserIndex t) k ({[id]} ∪ idx) id) as Hl.
  rewrite Hdiff in Hl. rewrite Hl. clear Hl.
  destruct (decide (kUserIndex t = k)) as [<-|Hk].
  - now rewrite (consistent_index_of store t Hc).
  - rewrite lookup_delete. destruct (decide (kAccount id = k)) as [<-|Ha].
    + now rewrite Hfresh.
    + now rewrite lookup_insert_ne, lookup_insert_ne.
Qed.

(** X8. After a delete that answered success on a consistent store the
    account key holds nothing, and a second delete of the same id writes
    nothing: the store stays as the first delete left it. *)
Theorem delete_account_idempotent (store : Store) (id : string) :
  consistent store ->
  snd (delete_account store id) = OK tt ->
  fst (delete_account store id) !! kAccount id = None /\
  fst (delete_account (fst (delete_account store id)) id) = fst (delete_account store id).
Proof.
  intros Hc Hok.
  assert (Hgone : fst (delete_account store id) !! kAccount id = None).
  { apply delete_account_absent; [|exact Hok].
    intros acc. apply consistent_record_id, Hc. }
  split; [exact Hgone|].
  unfold delete_account at 1. now rewrite loadAccount_lookup, Hgone.
Qed.

Section CreateEffects.

Variable env : Env.
Variable is_email : string -> bool.
Variable smtp_verify : TransportOptions -> result unit.
Variable imap_login : ImapConfig -> result unit.

(** X9. A create whose body passes the schema, with a master key
    configured and the connectivity test passed or not asked for, answers
    the new id and writes two keys: the record under the account key, whose
    envelope opens under [id:integrationId] to the secret of the request,
    and the tenant's index with the id added. *)
Theorem post_accounts_stores (store : Store) (body : option json) (b : CreateAccount)
    (id now : string) (master salt_bytes iv_bytes : list ascii) :
  CreateAccountSchema_parse is_email body = OK b ->
  (testConnection b = true ->
   connectivity smtp_verify imap_login (json_of_Secret (secret_of b)) = OK tt) ->
  getMasterKey env = OK master -> length iv_bytes = 12%nat ->
  (forall r, store !! kUserIndex (c_integrationId b) <> Some (RRecord r)) ->
  exists e,
    post_accounts env is_email smtp_verify imap_login store body id now salt_bytes iv_bytes
      = (<[kUserIndex (c_integrationId b) :=
             RSet ({[id]} ∪ index_of store (c_integrationId b))]>
           (<[kAccount id :=
                RRecord {| acc_id := id; acc_integrationId := c_integrationId b;
                           createdAt := now; updatedAt := now; enc := e |}]> store),
         OK id) /\
    decryptJSON env e (aad_of id (c_integrationId b)) = OK (json_of_Secret (secret_of b)).
Proof.
  intros Hb Htest Hkey Hiv Hidx. rewrite post_accounts_eq, Hb.
  destruct (envelope_roundtrip_sealed env master salt_bytes iv_bytes
              (json_of_Secret (secret_of b)) (aad_of id (c_integrationId b)) Hkey Hiv)
    as (e & He & Hdec).
  exists e. split; [|exact Hdec].
  assert (Hconn : (if testConnection b
                   then connectivity smtp_verify imap_login (json_of_Secret (secret_of b))
                   else OK tt) = OK tt).
  { destruct (testConnection b); [now apply Htest|reflexivity]. }
  rewrite Hconn, He. cbv zeta.
  destruct (store !! kUserIndex (c_integrationId b)) as [[r|s]|] eqn:Ei;
    [destruct (Hidx r eq_refl)|reflexivity|reflexivity].
Qed.

(** X10. A create is refused by the schema, by the connectivity test
    or for want of a usable master key before its first store command: the
    answer is that error and the store is as it was, whatever it holds. *)
Theorem post_accounts_refused (store : Store) (body : option json)
    (id now : string) (salt_bytes iv_bytes : list ascii) :
  (forall e, CreateAccountSchema_parse is_email body = Err e ->
     post_accounts env is_email smtp_verify imap_login store body id now salt_bytes iv_bytes
     = (store, Err e)) /\
  (forall b e, CreateAccountSchema_parse is_email body = OK b ->
     testConnection b = true ->
     connectivity smtp_verify imap_login (json_of_Secret (secret_of b)) = Err e ->
     post_accounts env is_email smtp_verify imap_login store body id now salt_bytes iv_bytes
     = (store, Err e)) /\
  (forall b e, CreateAccountSchema_parse is_email body = OK b ->
     (testConnection b = true ->
      connectivity smtp_verify imap_login (json_of_Secret (secret_of b)) = OK tt) ->
     getMasterKey env = Err e ->
     post_accounts env is_email smtp_verify imap_login store body id now salt_bytes iv_bytes
     = (store, Err e)).
Proof.
  split; [|split].
  - intros e Hb. now rewrite post_accounts_eq, Hb.
  - intros b e Hb Ht Hconn. now rewrite post_accounts_eq, Hb, Ht, Hconn.
  - intros b e Hb Ht Hkey. rewrite post_accounts_eq, Hb.
    assert (Hconn : (if testConnection b
                     then connectivity smtp_verify imap_login (json_of_Secret (secret_of b))
                     else OK tt) = OK tt).
    { destruct (testConnection b); [now apply Ht|reflexivity]. }
    rewrite Hconn. unfold encryptJSON, hkdfSubkey. cbn [mbind result_bind].
    now rewrite Hkey.
Qed.

End CreateEffects.

(** X11. [POST /accounts/:id/test] on an account a create has stored
    runs the connectivity test on the very secret of the create request:
    the secret read back from the envelope is the one that was sealed. *)
Theorem test_after_create (env : Env) (is_email : string -> bool)
    (smtp_verify verify' : TransportOptions -> result unit)
    (imap_login login' : ImapConfig -> result unit)
    (store store' : Store) (body : option json) (b : CreateAccount)
    (id now rid : string) (salt_bytes iv_bytes : list ascii) :
  CreateAccountSchema_parse is_email body = OK b ->
  iv_bytes <> [] ->
  post_accounts env is_email smtp_verify imap_login store body id now salt_bytes iv_bytes
    = (store', OK rid) ->
  post_test env verify' login' store' id
    = connectivity verify' login' (json_of_Secret (secret_of b)).
Proof.
  intros Hb Hiv. rewrite post_accounts_eq, Hb.
  destruct (if testConnection b then _ else _); [|discriminate].
  destruct (encryptJSON _ _ _ _ _) as [e|] eqn:He; [|discriminate].
  cbv zeta. intros Hpost.
  assert (Hs' : store' !! kAccount id
                = Some (RRecord {| acc_id := id; acc_integrationId := c_integrationId b;
                                   createdAt := now; updatedAt := now; enc := e |})).
  { destruct (store !! kUserIndex (c_integrationId b)) as [[r|s]|]; [discriminate| |];
      injection Hpost as <- _;
      (rewrite lookup_insert_ne by (intros Hk; key_facts)); apply lookup_insert_eq. }
  unfold post_test. rewrite loadAccount_lookup, Hs'.
  cbn [mbind result_bind acc_id acc_integrationId enc].
  now rewrite (decryptJSON_encryptJSON _ _ _ _ _ _ He Hiv).
Qed.

Lemma sample_create_parsed :
  CreateAccountSchema_parse (fun _ => true) (Some sample_create_body) = OK sample_create.
Proof. reflexivity. Qed.

Lemma sample_created (smtp_verify : TransportOptions -> result unit)
    (imap_login : ImapConfig -> result unit) :
  post_accounts sample_env (fun _ => true) smtp_verify imap_login ∅
    (Some sample_create_body) sample_id "2024-01-01T12:00:00.000Z" sample_salt sample_iv
  = (sample_store, OK sample_id).
Proof.
  rewrite post_accounts_eq, sample_create_parsed. cbn [testConnection sample_create].
  change (json_of_Secret (secret_of sample_create)) with (json_of_Secret sample_secret).
  cbn [c_integrationId sample_create].
  rewrite sample_envelope_sealed. cbv zeta. rewrite lookup_empty.
  unfold index_of. rewrite lookup_empty, union_empty_r_L. reflexivity.
Qed.

Lemma sample_consistent : consistent sample_store.
Proof.
  pose proof (post_accounts_consistent sample_env (fun _ => true) (fun _ => OK tt)
                (fun _ => OK tt) ∅ (Some sample_create_body) sample_id
                "2024-01-01T12:00:00.000Z" sample_salt sample_iv consistent_empty
                (lookup_empty _)) as H.
  now rewrite sample_created in H.
Qed.

Lemma handlers_keep_consistent_witness :
  (forall body id now salt_bytes iv_bytes rid,
      sample_store !! kAccount id = None ->
      snd (post_accounts sample_env (fun _ => true) (fun _ => OK tt) (fun _ => OK tt)
             sample_store body id now salt_bytes iv_bytes) = OK rid ->
      consistent (fst (post_accounts sample_env (fun _ => true) (fun _ => OK tt)
                         (fun _ => OK tt) sample_store body id now salt_bytes iv_bytes))) /\
  (forall id body now salt_bytes iv_bytes,
      snd (put_account sample_env (fun _ => true) sample_store id body now
             salt_bytes iv_bytes) = OK tt ->
      consistent (fst (put_account sample_env (fun _ => true) sample_store id body now
                         salt_bytes iv_bytes))) /\
  (forall id,
      snd (delete_account sample_store id) = OK tt ->
      consistent (fst (delete_account sample_store id))).
Proof.
  exact (handlers_keep_consistent sample_env (fun _ => true) (fun _ => OK tt)
           (fun _ => OK tt) sample_store sample_consistent).
Defined.

Lemma sample_listed :
  get_accounts sample_env sample_store (Some (JStr "u1"))
  = OK [ {| s_id := sample_id; s_integrationId := "u1"; s_label := JNull;
            primaryEmailMasked := "a*@b.co";
            s_createdAt := "2024-01-01T12:00:00.000Z";
            s_updatedAt := "2024-01-01T12:00:00.000Z" |} ].
Proof. vm_compute. reflexivity. Qed.

Lemma u1_nonempty : "u1" <> "".
Proof. discriminate. Qed.

Lemma list_is_tenant_accounts_witness :
  let l := [ {| s_id := sample_id; s_integrationId := "u1"; s_label := JNull;
                primaryEmailMasked := "a*@b.co";
                s_createdAt := "2024-01-01T12:00:00.000Z";
                s_updatedAt := "2024-01-01T12:00:00.000Z" |} ] in
  (forall s, s ∈ l -> s_integrationId s = "u1") /\
  (forall id, id ∈ map s_id l <->
              exists r, sample_store !! kAccount id = Some (RRecord r) /\
                        acc_integrationId r = "u1") /\
  NoDup (map s_id l).
Proof.
  exact (list_is_tenant_accounts sample_env sample_store "u1" _ sample_consistent
           u1_nonempty sample_listed).
Defined.

Lemma delete_undoes_create_witness :
  delete_account sample_store sample_id = (∅, OK tt).
Proof.
  exact (delete_undoes_create sample_env (fun _ => true) (fun _ => OK tt) (fun _ => OK tt)
           ∅ sample_store (Some sample_create_body) sample_id "2024-01-01T12:00:00.000Z"
           sample_id sample_salt sample_iv consistent_empty (lookup_empty _)
           (sample_created _ _)).
Defined.

Lemma sample_store_delete_ok : snd (delete_account sample_store sample_id) = OK tt.
Proof. vm_compute. reflexivity. Qed.

Lemma delete_account_idempotent_witness :
  fst (delete_account sample_store sample_id) !! kAccount sample_id = None /\
  fst (delete_account (fst (delete_account sample_store sample_id)) sample_id)
  = fst (delete_account sample_store sample_id).
Proof.
  exact (delete_account_idempotent sample_store sample_id sample_consistent
           sample_store_delete_ok).
Defined.

Lemma sample_iv_length : length sample_iv = 12%nat.
Proof. reflexivity. Qed.

Lemma sample_no_test :
  testConnection sample_create = true ->
  connectivity (fun _ => OK tt) (fun _ => OK tt) (json_of_Secret (secret_of sample_create))
  = OK tt.
Proof. discriminate. Qed.

Lemma empty_index_free (r : AccountRecord) :
  (∅ : Store) !! kUserIndex (c_integrationId sample_create) <> Some (RRecord r).
Proof. rewrite lookup_empty. discriminate. Qed.

Lemma post_accounts_stores_witness :
  exists e,
    post_accounts sample_env (fun _ => true) (fun _ => OK tt) (fun _ => OK tt) ∅
      (Some sample_create_body) sample_id "2024-01-01T12:00:00.000Z" sample_salt sample_iv
      = (<[kUserIndex (c_integrationId sample_create) :=
             RSet ({[sample_id]} ∪ index_of ∅ (c_integrationId sample_create))]>
           (<[kAccount sample_id :=
                RRecord {| acc_id := sample_id;
                           acc_integrationId := c_integrationId sample_create;
                           createdAt := "2024-01-01T12:00:00.000Z";
                           updatedAt := "2024-01-01T12:00:00.000Z"; enc := e |}]> ∅),
         OK sample_id) /\
    decryptJSON sample_env e (aad_of sample_id (c_integrationId sample_create))
    = OK (json_of_Secret (secret_of sample_create)).
Proof.
  exact (post_accounts_stores sample_env (fun _ => true) (fun _ => OK tt) (fun _ => OK tt)
           ∅ (Some sample_create_body) sample_create sample_id "2024-01-01T12:00:00.000Z"
           _ sample_salt sample_iv sample_create_parsed sample_no_test sample_master_key
           sample_iv_length empty_index_free).
Defined.

Lemma test_after_create_witness :
  post_test sample_env (fun _ => OK tt) (fun _ => Err (Upstream "no route")) sample_store
    sample_id
  = connectivity (fun _ => OK tt) (fun _ => Err (Upstream "no route"))
      (json_of_Secret (secret_of sample_create)).
Proof.
  exact (test_after_create sample_env (fun _ => true) (fun _ => OK tt) (fun _ => OK tt)
           (fun _ => OK tt) (fun _ => Err (Upstream "no route")) ∅ sample_store
           (Some sample_create_body) sample_create sample_id "2024-01-01T12:00:00.000Z"
           sample_id sample_salt sample_iv sample_create_parsed sample_iv_nonempty
           (sample_created _ _)).
Defined.

(** ** Reading an account *)

Lemma obj_get_fold (k : string) (ms : list (string * json)) (acc : option json) :
  fold_left (fun acc m => if String.eqb (fst m) k then Some (snd m) else acc) ms acc
  = match obj_get k ms with Some v => Some v | None => acc end.
Proof.
  unfold obj_get. revert acc. induction ms as [|m ms IH]; intros acc; [reflexivity|].
  cbn [fold_left]. rewrite IH, (IH (if String.eqb (fst m) k then _ else None)).
  destruct (fold_left _ ms None); [reflexivity|]. now destruct (String.eqb (fst m) k).
Qed.

Lemma obj_get_cons (k : string) (m : string * json) (ms : list (string * json)) :
  obj_get k (m :: ms)
  = match obj_get k ms with
    | Some v => Some v
    | None => if String.eqb (fst m) k then Some (snd m) else None
    end.
Proof. unfold obj_get at 1. cbn [fold_left]. apply obj_get_fold. Qed.

Lemma obj_get_app (k : string) (a b : list (string * json)) :
  obj_get k (a ++ b) = match obj_get k b with Some v => Some v | None => obj_get k a end.
Proof.
  induction a as [|m a IH]; cbn [app].
  - now destruct (obj_get k b).
  - rewrite !obj_get_cons, IH. now destruct (obj_get k b).
Qed.

Lemma obj_get_unset (k k' : string) (ms : list (string * json)) :
  obj_get k' (js_unset k ms) = if String.eqb k k' then None else obj_get k' ms.
Proof.
  unfold js_unset. induction ms as [|m ms IH]; cbn [List.filter].
  - now destruct (String.eqb k k').
  - destruct (String.eqb_spec (fst m) k) as [Hm|Hm]; cbn [negb].
    + rewrite IH, obj_get_cons. destruct (String.eqb_spec k k') as [Hk|Hk]; [reflexivity|].
      destruct (obj_get k' ms); [reflexivity|].
      destruct (String.eqb_spec (fst m) k'); [congruence|reflexivity].
    + rewrite !obj_get_cons, IH. destruct (String.eqb_spec k k') as [Hk|Hk]; [|reflexivity].
      destruct (String.eqb_spec (fst m) k'); [congruence|reflexivity].
Qed.

Lemma obj_get_replace (k k' : string) (v : json) (ms : list (string * json)) :
  obj_get k' (map (fun m => if String.eqb (fst m) k then (k, v) else m) ms)
  = if String.eqb k k'
    then (if existsb (fun m => String.eqb (fst m) k) ms then Some v else None)
    else obj_get k' ms.
Proof.
  induction ms as [|m ms IH]; cbn [map existsb].
  - now destruct (String.eqb k k').
  - rewrite !obj_get_cons, IH.
    destruct (String.eqb_spec k k') as [Hk|Hk].
    + subst k'. destruct (existsb _ ms); [now rewrite orb_true_r|].
      rewrite orb_false_r. destruct (String.eqb_spec (fst m) k) as [Hm|Hm]; cbn [fst snd].
      * now rewrite String.eqb_refl.
      * now destruct (String.eqb_spec (fst m) k).
    + destruct (obj_get k' ms); [reflexivity|].
      destruct (String.eqb_spec (fst m) k) as [Hm|Hm]; cbn [fst snd]; [|reflexivity].
      destruct (String.eqb_spec k k'); [contradiction|].
      destruct (String.eqb_spec (fst m) k'); [congruence|reflexivity].
Qed.

Lemma obj_get_set (k k' : string) (v : json) (ms : list (string * json)) :
  obj_get k' (js_set k v ms) = if String.eqb k k' then Some v else obj_get k' ms.
Proof.
  unfold js_set. destruct (existsb _ ms) eqn:Hex.
  - rewrite obj_get_replace, Hex. reflexivity.
  - rewrite obj_get_app. unfold obj_get at 1. cbn [fold_left fst snd].
    destruct (String.eqb_spec k k'); [reflexivity|].
    reflexivity.
Qed.

Lemma redact_off (s : option json) :
  exists ms, redact false s = Some (JObj ms) /\
    obj_get "password" ms = None /\
    obj_get "hasPassword" ms = Some (JBool true) /\
    forall k, k <> "password" -> k <> "hasPassword" -> obj_get k ms = obj_get k (js_spread s).
Proof.
  unfold redact. eexists. split; [reflexivity|]. split; [|split].
  - now rewrite obj_get_set, obj_get_unset.
  - now rewrite obj_get_set.
  - intros k Hp Hh. rewrite obj_get_set, obj_get_unset.
    destruct (String.eqb_spec "hasPassword" k); [congruence|].
    destruct (String.eqb_spec "password" k); [congruence|reflexivity].
Qed.

Lemma js_get_member (j : json) (k : string) (o : option json) :
  js_get (Some j) k = OK o -> o = member k j.
Proof. destruct j; cbn; congruence. Qed.

(** X12. [GET /accounts/:id] answers 200 only for a stored account
    whose envelope opens. Unless the query asks [includePasswords=true],
    the [imap] and [smtp] parts of the answer are objects without a
    [password] member and with [hasPassword] true, every other member being
    the stored one; with [includePasswords=true] the two parts are the
    stored ones, passwords included. *)
Theorem get_account_redacts (env : Env) (store : Store) (id : string)
    (q : option json) (st : Z) (body : json) :
  get_account env store id q = Sent st body ->
  st = 200 /\
  exists acc secret members,
    store !! kAccount id = Some (RRecord acc) /\
    decryptJSON env (enc acc) (aad_of (acc_id acc) (acc_integrationId acc)) = OK secret /\
    member "secret" body = Some (JObj members) /\
    forall part, part = "imap" \/ part = "smtp" ->
      if String.eqb (js_String (if js_truthy q then q else Some (JStr "false"))) "true"
      then obj_get part members = member part secret
      else exists ms,
          obj_get part members = Some (JObj ms) /\
          obj_get "password" ms = None /\
          obj_get "hasPassword" ms = Some (JBool true) /\
          forall k, k <> "password" -> k <> "hasPassword" ->
                    obj_get k ms = obj_get k (js_spread (member part secret)).
Proof.
  unfold get_account. rewrite loadAccount_lookup.
  destruct (store !! kAccount id) as [[acc|s]|] eqn:Ea; try discriminate.
  unfold mbind, result_bind.
  destruct (decryptJSON _ _ _) as [secret|] eqn:Hdec; [|discriminate].
  destruct (js_get (Some secret) "label") as [lb|] eqn:Hlb; [|discriminate].
  destruct (js_get (Some secret) "primaryEmail") as [pe|] eqn:Hpe; [|discriminate].
  destruct (js_get (Some secret) "imap") as [im|] eqn:Him; [|discriminate].
  destruct (js_get (Some secret) "smtp") as [sm|] eqn:Hsm; [|discriminate].
  apply js_get_member in Him, Hsm. subst im sm.
  intros [= <- <-]. split; [reflexivity|].
  exists acc, secret. eexists. split; [reflexivity|]. split; [exact Hdec|].
  split; [reflexivity|].
  set (includePw := String.eqb _ "true").
  intros part Hpart. destruct includePw.
  - cbn [redact]. destruct Hpart as [-> | ->];
      destruct pe, (member "imap" secret), (member "smtp" secret); reflexivity.
  - destruct (redact_off (member "imap" secret)) as (msi & Ei & Hi).
    destruct (redact_off (member "smtp" secret)) as (mss & Es & Hs).
    rewrite Ei, Es. destruct Hpart as [-> | ->]; [exists msi|exists mss];
      (split; [destruct pe; reflexivity|assumption]).
Qed.

Lemma sample_details_sent :
  get_account sample_env sample_store sample_id None = Sent 200 sample_details.
Proof.
  unfold get_account. rewrite loadAccount_lookup, sample_store_account.
  cbn [enc acc_id acc_integrationId sample_record].
  change (aad_of sample_id "u1") with (aad_of sample_id "u1").
  rewrite sample_envelope_opens. reflexivity.
Qed.

Lemma get_account_redacts_witness :
  200 = 200 /\
  exists acc secret members,
    sample_store !! kAccount sample_id = Some (RRecord acc) /\
    decryptJSON sample_env (enc acc) (aad_of (acc_id acc) (acc_integrationId acc))
      = OK secret /\
    member "secret" sample_details = Some (JObj members) /\
    forall part, part = "imap" \/ part = "smtp" ->
      if String.eqb (js_String (if js_truthy None then None else Some (JStr "false"))) "true"
      then obj_get part members = member part secret
      else exists ms,
          obj_get part members = Some (JObj ms) /\
          obj_get "password" ms = None /\
          obj_get "hasPassword" ms = Some (JBool true) /\
          forall k, k <> "password" -> k <> "hasPassword" ->
                    obj_get k ms = obj_get k (js_spread (member part secret)).
Proof.
  exact (get_account_redacts sample_env sample_store sample_id None 200 sample_details
           sample_details_sent).
Defined.

(** X13. [GET /accounts/:id] never answers 404: [loadAccount] throws for
    an id with no record, so the answer is the 400 of the [catch] block
    with "Account not found", and every answer sent outside it has status
    200. *)
Theorem get_account_never_404 (env : Env) (store : Store) (id : string) (q : option json) :
  (store !! kAccount id = None -> get_account env store id q = Caught NotFound) /\
  (forall st body, get_account env store id q = Sent st body -> st = 200).
Proof.
  split.
  - intros Ha. unfold get_account. now rewrite loadAccount_lookup, Ha.
  - intros st body. unfold get_account. rewrite loadAccount_lookup.
    destruct (store !! kAccount id) as [[acc|s]|]; try discriminate.
    unfold mbind, result_bind.
    destruct (decryptJSON _ _ _) as [secret|]; [|discriminate].
    destruct (js_get (Some secret) "label"); [|discriminate].
    destruct (js_get (Some secret) "primaryEmail"); [|discriminate].
    destruct (js_get (Some secret) "imap"); [|discriminate].
    destruct (js_get (Some secret) "smtp"); [|discriminate].
    now intros [= <- _].
Qed.

(** ** Schemas, sending and masking *)

Lemma z_string_min1_OK what o s :
  z_string_min1 what o = OK s -> o = Some (JStr s) /\ s <> "".
Proof.
  destruct o as [[| | |s'| |]|]; cbn; try discriminate.
  destruct (String.eqb_spec s' ""); [discriminate|]. now intros [= <-].
Qed.

Lemma z_positive_int_OK what o n :
  z_positive_int what o = OK n -> o = Some (JNum n) /\ (0 < n)%Z.
Proof.
  destruct o as [[| |n'| | |]|]; cbn; try discriminate.
  destruct (Z.ltb_spec 0 n'); [|discriminate]. now intros [= <-].
Qed.

Lemma ServerSettings_parse_valid (o : option json) (s : ServerSettings) :
  ServerSettings_parse o = OK s -> valid_settings s.
Proof.
  intros H. pose proof (ServerSettings_parse_connection o s H) as Hc. revert H.
  destruct o as [[| | | | |ms]|]; try discriminate. cbn [ServerSettings_parse].
  intros H. bind_cases H. injection H as <-. cbn [connection] in Hc.
  apply z_string_min1_OK in E as [_ ?], E1 as [_ ?], E2 as [_ ?].
  apply z_positive_int_OK in E0 as [_ ?].
  repeat split; cbn; assumption.
Qed.

Lemma ServerSettings_parse_stored (s : ServerSettings) :
  valid_settings s -> ServerSettings_parse (Some (json_of_ServerSettings s)) = OK s.
Proof.
  intros (Hsv & Hpt & Hus & Hpw & Hcn). destruct s as [sv pt us pw cn]. cbn in *.
  unfold ServerSettings_parse, json_of_ServerSettings.
  cbn [server port username password connection].
  change (obj_get "server" _) with (Some (JStr sv)).
  change (obj_get "port" _) with (Some (JNum pt)).
  change (obj_get "username" _) with (Some (JStr us)).
  change (obj_get "password" _) with (Some (JStr pw)).
  change (obj_get "connection" _) with (Some (JStr cn)).
  unfold z_string_min1, z_positive_int, ConnType_parse, mbind, result_bind.
  destruct (String.eqb_spec sv ""); [contradiction|].
  destruct (Z.ltb_spec 0 pt); [|lia].
  destruct (String.eqb_spec us ""); [contradiction|].
  destruct (String.eqb_spec pw ""); [contradiction|].
  destruct Hcn as [-> | ->]; reflexivity.
Qed.

Lemma SecretPayload_parse_settings (is_email : string -> bool) (body : option json)
    (s : Secret) :
  SecretPayload_parse is_email body = OK s ->
  valid_settings (imap s) /\ valid_settings (smtp s).
Proof.
  destruct body as [[| | | | |ms]|]; try discriminate. cbn [SecretPayload_parse].
  unfold mbind, result_bind.
  destruct (z_string_optional "label" (obj_get "label" ms)) as [s0|]; [|discriminate].
  destruct (z_email is_email "primaryEmail" (obj_get "primaryEmail" ms)) as [s1|];
    [|discriminate].
  destruct (ServerSettings_parse (obj_get "imap" ms)) as [s2|] eqn:E1; [|discriminate].
  destruct (ServerSettings_parse (obj_get "smtp" ms)) as [s3|] eqn:E2; [|discriminate].
  intros [= <-]. cbn [imap smtp].
  split; [exact (ServerSettings_parse_valid _ _ E1)|exact (ServerSettings_parse_valid _ _ E2)].
Qed.

(** X14. Whatever [SecretPayload] accepts is stored in a form it accepts
    again, with the same result: the address passes the email test, both
    server settings have non-empty server, username and password, a
    positive port and one of the two connection modes. *)
Theorem SecretPayload_stored_form (is_email : string -> bool) (body : option json)
    (s : Secret) :
  SecretPayload_parse is_email body = OK s ->
  is_email (primaryEmail s) = true /\ valid_settings (imap s) /\ valid_settings (smtp s) /\
  SecretPayload_parse is_email (Some (json_of_Secret s)) = OK s.
Proof.
  destruct body as [[| | | | |ms]|]; try discriminate. cbn [SecretPayload_parse].
  unfold mbind, result_bind.
  destruct (z_string_optional "label" (obj_get "label" ms)) as [s0|]; [|discriminate].
  destruct (z_email is_email "primaryEmail" (obj_get "primaryEmail" ms)) as [s1|] eqn:E0;
    [|discriminate].
  destruct (ServerSettings_parse (obj_get "imap" ms)) as [s2|] eqn:E1; [|discriminate].
  destruct (ServerSettings_parse (obj_get "smtp" ms)) as [s3|] eqn:E2; [|discriminate].
  intros [= <-].
  assert (Hpe : is_email s1 = true).
  { revert E0. unfold z_email. destruct (obj_get "primaryEmail" ms) as [[| | |x| |]|];
      try discriminate. destruct (is_email x) eqn:Hx; [|discriminate]. now intros [= <-]. }
  pose proof (ServerSettings_parse_valid _ _ E1) as Him.
  pose proof (ServerSettings_parse_valid _ _ E2) as Hsm.
  cbn [primaryEmail imap smtp]. split; [exact Hpe|]. split; [exact Him|].
  split; [exact Hsm|].
  assert (Hlb : s0 = None \/ exists l, s0 = Some l).
  { destruct s0; eauto. }
  unfold json_of_Secret. cbn [label primaryEmail imap smtp].
  assert (Hget : forall k, k <> "label" ->
             obj_get k ((match s0 with Some l => [("label", JStr l)] | None => [] end)
                        ++ [("primaryEmail", JStr s1); ("imap", json_of_ServerSettings s2);
                            ("smtp", json_of_ServerSettings s3)])
             = obj_get k [("primaryEmail", JStr s1); ("imap", json_of_ServerSettings s2);
                          ("smtp", json_of_ServerSettings s3)]).
  { intros k Hk. rewrite obj_get_app. destruct (obj_get k [_; _; _]); [reflexivity|].
    destruct s0; [|reflexivity]. unfold obj_get. cbn [fold_left fst snd].
    destruct (String.eqb_spec "label" k); [congruence|reflexivity]. }
  rewrite (Hget "primaryEmail"), (Hget "imap"), (Hget "smtp") by discriminate.
  assert (Hl : obj_get "label"
                 ((match s0 with Some l => [("label", JStr l)] | None => [] end)
                  ++ [("primaryEmail", JStr s1); ("imap", json_of_ServerSettings s2);
                      ("smtp", json_of_ServerSettings s3)])
               = option_map JStr s0).
  { rewrite obj_get_app. destruct s0; reflexivity. }
  rewrite Hl.
  change (obj_get "primaryEmail" _) with (Some (JStr s1)).
  change (obj_get "imap" _) with (Some (json_of_ServerSettings s2)).
  change (obj_get "smtp" _) with (Some (json_of_ServerSettings s3)).
  rewrite (ServerSettings_parse_stored _ Him), (ServerSettings_parse_stored _ Hsm).
  unfold z_email. rewrite Hpe. destruct s0; reflexivity.
Qed.

Lemma rotated_parsed :
  SecretPayload_parse (fun _ => true) (Some rotated_body) = OK rotated_secret.
Proof. reflexivity. Qed.

Lemma SecretPayload_stored_form_witness :
  (fun _ : string => true) (primaryEmail rotated_secret) = true /\
  valid_settings (imap rotated_secret) /\ valid_settings (smtp rotated_secret) /\
  SecretPayload_parse (fun _ => true) (Some (json_of_Secret rotated_secret))
  = OK rotated_secret.
Proof.
  exact (SecretPayload_stored_form (fun _ => true) (Some rotated_body) rotated_secret
           rotated_parsed).
Defined.

Lemma obj_get_other (k k' : string) (v : json) (ms1 ms2 : list (string * json)) :
  k <> k' -> obj_get k' (ms1 ++ (k, v) :: ms2) = obj_get k' (ms1 ++ ms2).
Proof.
  intros Hk. rewrite !obj_get_app, obj_get_cons. cbn [fst snd].
  destruct (obj_get k' ms2); [reflexivity|].
  destruct (String.eqb_spec k k'); [contradiction|reflexivity].
Qed.

Lemma ServerSettings_parse_unknown (k : string) (v : json) (ms1 ms2 : list (string * json)) :
  k <> "server" -> k <> "port" -> k <> "username" -> k <> "password" ->
  k <> "connection" ->
  ServerSettings_parse (Some (JObj (ms1 ++ (k, v) :: ms2)))
  = ServerSettings_parse (Some (JObj (ms1 ++ ms2))).
Proof.
  intros. unfold ServerSettings_parse. now rewrite !obj_get_other.
Qed.

Lemma SecretPayload_parse_unknown (is_email : string -> bool) (k : string) (v : json)
    (ms1 ms2 : list (string * json)) :
  k <> "label" -> k <> "primaryEmail" -> k <> "imap" -> k <> "smtp" ->
  SecretPayload_parse is_email (Some (JObj (ms1 ++ (k, v) :: ms2)))
  = SecretPayload_parse is_email (Some (JObj (ms1 ++ ms2))).
Proof.
  intros. unfold SecretPayload_parse. now rewrite !obj_get_other.
Qed.

Lemma CreateAccountSchema_parse_unknown (is_email : string -> bool) (k : string) (v : json)
    (ms1 ms2 : list (string * json)) :
  k <> "integrationId" -> k <> "label" -> k <> "primaryEmail" -> k <> "imap" ->
  k <> "smtp" -> k <> "testConnection" ->
  CreateAccountSchema_parse is_email (Some (JObj (ms1 ++ (k, v) :: ms2)))
  = CreateAccountSchema_parse is_email (Some (JObj (ms1 ++ ms2))).
Proof.
  intros. unfold CreateAccountSchema_parse. now rewrite !obj_get_other.
Qed.

(** X15. A member of the request body that the schema does not name
    changes nothing: update and create do exactly what they do without
    it. *)
Theorem unknown_members_not_stored (env : Env) (is_email : string -> bool)
    (smtp_verify : TransportOptions -> result unit)
    (imap_login : ImapConfig -> result unit)
    (store : Store) (id now : string) (salt_bytes iv_bytes : list ascii)
    (k : string) (v : json) (ms1 ms2 : list (string * json)) :
  k <> "label" -> k <> "primaryEmail" -> k <> "imap" -> k <> "smtp" ->
  put_account env is_email store id (Some (JObj (ms1 ++ (k, v) :: ms2))) now
    salt_bytes iv_bytes
  = put_account env is_email store id (Some (JObj (ms1 ++ ms2))) now salt_bytes iv_bytes /\
  (k <> "integrationId" -> k <> "testConnection" ->
   post_accounts env is_email smtp_verify imap_login store
     (Some (JObj (ms1 ++ (k, v) :: ms2))) id now salt_bytes iv_bytes
   = post_accounts env is_email smtp_verify imap_login store
       (Some (JObj (ms1 ++ ms2))) id now salt_bytes iv_bytes).
Proof.
  intros Hl Hp Hi Hs. split.
  - unfold put_account. now rewrite SecretPayload_parse_unknown.
  - intros Hg Ht. unfold post_accounts. now rewrite CreateAccountSchema_parse_unknown.
Qed.

Lemma note_is_unknown :
  "note" <> "label" /\ "note" <> "primaryEmail" /\ "note" <> "imap" /\ "note" <> "smtp".
Proof. repeat split; discriminate. Qed.

Lemma unknown_members_not_stored_witness :
  put_account sample_env (fun _ => true) sample_store sample_id
    (Some (JObj ([] ++ ("note", JStr "x") :: members_of rotated_body)))
    "2024-02-02T08:00:00.000Z" second_salt second_iv
  = put_account sample_env (fun _ => true) sample_store sample_id
      (Some (JObj ([] ++ members_of rotated_body))) "2024-02-02T08:00:00.000Z"
      second_salt second_iv /\
  ("note" <> "integrationId" -> "note" <> "testConnection" ->
   post_accounts sample_env (fun _ => true) (fun _ => OK tt) (fun _ => OK tt) sample_store
     (Some (JObj ([] ++ ("note", JStr "x") :: members_of rotated_body))) sample_id
     "2024-02-02T08:00:00.000Z" second_salt second_iv
   = post_accounts sample_env (fun _ => true) (fun _ => OK tt) (fun _ => OK tt) sample_store
       (Some (JObj ([] ++ members_of rotated_body))) sample_id "2024-02-02T08:00:00.000Z"
       second_salt second_iv).
Proof.
  exact (unknown_members_not_stored sample_env (fun _ => true) (fun _ => OK tt)
           (fun _ => OK tt) sample_store sample_id "2024-02-02T08:00:00.000Z"
           second_salt second_iv "note" (JStr "x") [] (members_of rotated_body)
           (proj1 note_is_unknown) (proj1 (proj2 note_is_unknown))
           (proj1 (proj2 (proj2 note_is_unknown))) (proj2 (proj2 (proj2 note_is_unknown)))).
Defined.

(** X16. For an accepted payload the IMAP configuration is built from
    the [imap] settings alone, and asks for TLS on connect exactly when the
    connection mode is "SSL/TLS". *)
Theorem imap_config_of_payload (is_email : string -> bool) (body : option json)
    (s : Secret) :
  SecretPayload_parse is_email body = OK s ->
  exists c,
    imapConfigFromSecret (Some (json_of_Secret s)) = OK c /\
    i_host c = Some (JStr (server (imap s))) /\
    i_port c = Some (JNum (port (imap s))) /\
    i_user c = Some (JStr (username (imap s))) /\
    i_pass c = Some (JStr (password (imap s))) /\
    (i_secure c = true <-> connection (imap s) = "SSL/TLS") /\
    (i_secure c = false <-> connection (imap s) = "STARTTLS").
Proof.
  intros H. apply SecretPayload_parse_settings in H as ((_ & _ & _ & _ & Hc) & _).
  destruct s as [lb pe [sv pt us pw cn] sm]. cbn [imap connection server port username
    password] in *.
  unfold imapConfigFromSecret, json_of_Secret. cbn [label primaryEmail imap smtp].
  assert (Hget : js_get (Some (JObj ((match lb with Some l => [("label", JStr l)]
                                      | None => [] end)
                                     ++ [("primaryEmail", JStr pe);
                                         ("imap", json_of_ServerSettings
                                                    {| server := sv; port := pt;
                                                       username := us; password := pw;
                                                       connection := cn |});
                                         ("smtp", json_of_ServerSettings sm)]))) "imap"
                 = OK (Some (json_of_ServerSettings
                               {| server := sv; port := pt; username := us;
                                  password := pw; connection := cn |}))).
  { cbn [js_get]. rewrite obj_get_app. reflexivity. }
  rewrite Hget. cbn [mbind result_bind]. eexists. split; [reflexivity|].
  cbn [i_host i_port i_user i_pass i_secure js_is_string].
  repeat (split; [reflexivity|]).
  destruct Hc as [-> | ->]; split; split; (reflexivity || discriminate).
Qed.

Lemma imap_config_of_payload_witness :
  exists c,
    imapConfigFromSecret (Some (json_of_Secret rotated_secret)) = OK c /\
    i_host c = Some (JStr (server (imap rotated_secret))) /\
    i_port c = Some (JNum (port (imap rotated_secret))) /\
    i_user c = Some (JStr (username (imap rotated_secret))) /\
    i_pass c = Some (JStr (password (imap rotated_secret))) /\
    (i_secure c = true <-> connection (imap rotated_secret) = "SSL/TLS") /\
    (i_secure c = false <-> connection (imap rotated_secret) = "STARTTLS").
Proof.
  exact (imap_config_of_payload (fun _ => true) (Some rotated_body) rotated_secret
           rotated_parsed).
Defined.

Lemma z_email_array_OK (is_email : string -> bool) (what : string) (o : option json)
    (l : list string) :
  z_email_array is_email what o = OK l -> Forall (fun a => is_email a = true) l.
Proof.
  destruct o as [[| | | |items|]|]; try discriminate. cbn [z_email_array].
  intros H. apply mapM_OK in H. induction H as [|x y xs ys Hx _ IH]; constructor; [|exact IH].
  revert Hx. unfold z_email. destruct x; try discriminate.
  destruct (is_email s) eqn:Hs; [|discriminate]. now intros [= <-].
Qed.

Lemma SendSchema_parse_recipients (is_email : string -> bool) (body : option json)
    (msg : SendRequest) :
  SendSchema_parse is_email body = OK msg ->
  to msg <> [] /\ all_emails is_email (to msg) /\
  (forall l, cc msg = Some l -> all_emails is_email l) /\
  (forall l, bcc msg = Some l -> all_emails is_email l).
Proof.
  destruct body as [[| | | | |ms]|]; try discriminate. cbn [SendSchema_parse].
  unfold mbind, result_bind.
  destruct (z_email_array is_email "to" (obj_get "to" ms)) as [t|] eqn:Et; [|discriminate].
  destruct t as [|t0 ts]; [discriminate|]. cbn [invalid].
  destruct (match obj_get "cc" ms with None => OK None | _ => _ end) as [c|] eqn:Ec;
    [|discriminate].
  destruct (match obj_get "bcc" ms with None => OK None | _ => _ end) as [b|] eqn:Eb;
    [|discriminate].
  destruct (match obj_get "subject" ms with None => OK "" | _ => _ end); [|discriminate].
  destruct (z_string_optional "text" _); [|discriminate].
  destruct (z_string_optional "html" _); [|discriminate].
  destruct (match obj_get "attachments" ms with None => OK None | _ => _ end);
    [|discriminate].
  intros [= <-]. cbn [to cc bcc].
  split; [discriminate|]. split; [exact (z_email_array_OK _ _ _ _ Et)|]. split.
  - intros l ->. destruct (obj_get "cc" ms) as [x|]; [|discriminate].
    destruct (z_email_array is_email "cc" (Some x)) as [l'|] eqn:El; [|discriminate].
    injection Ec as <-. exact (z_email_array_OK _ _ _ _ El).
  - intros l ->. destruct (obj_get "bcc" ms) as [x|]; [|discriminate].
    destruct (z_email_array is_email "bcc" (Some x)) as [l'|] eqn:El; [|discriminate].
    injection Eb as <-. exact (z_email_array_OK _ _ _ _ El).
Qed.

(** X17. A send request that fails the schema reaches no mail server;
    a request hands at most one message to the transport, and that message
    has at least one recipient, every address of [to], [cc] and [bcc]
    having passed the email test. *)
Theorem post_send_recipients (env : Env) (is_email : string -> bool)
    (sendMail : TransportOptions -> MailOptions -> result SendInfo)
    (store : Store) (id : string) (body : option json) :
  (forall e, SendSchema_parse is_email body = Err e ->
             post_send env is_email sendMail store id body = ([], Err e)) /\
  (length (fst (post_send env is_email sendMail store id body)) <= 1)%nat /\
  (forall tr mail,
      (tr, mail) ∈ fst (post_send env is_email sendMail store id body) ->
      snd (post_send env is_email sendMail store id body) = sendMail tr mail /\
      m_to mail <> [] /\ all_emails is_email (m_to mail) /\
      (forall l, m_cc mail = Some l -> all_emails is_email l) /\
      (forall l, m_bcc mail = Some l -> all_emails is_email l)).
Proof.
  unfold post_send, mbind, result_bind.
  destruct (SendSchema_parse is_email body) as [msg|e0] eqn:Hmsg.
  2:{ split; [now intros e [= <-]|]. split; [cbn; lia|].
      intros tr mail H. now apply elem_of_nil in H. }
  split; [discriminate|].
  pose proof (SendSchema_parse_recipients _ _ _ Hmsg) as (Hto & Hall & Hcc & Hbcc).
  destruct (loadAccount store id true) as [[a|]|]; try (split; [cbn; lia|];
    intros tr mail H; now apply elem_of_nil in H).
  destruct (decryptJSON _ _ _) as [secret|]; try (split; [cbn; lia|];
    intros tr mail H; now apply elem_of_nil in H).
  destruct (smtpTransportFromSecret (Some secret)) as [tr0|]; try (split; [cbn; lia|];
    intros tr mail H; now apply elem_of_nil in H).
  destruct (mail_of secret msg) as [mail0|] eqn:Hmail; try (split; [cbn; lia|];
    intros tr mail H; now apply elem_of_nil in H).
  cbn [fst snd length]. split; [lia|].
  intros tr mail H. apply list_elem_of_singleton in H. injection H as -> ->.
  split; [reflexivity|].
  revert Hmail. unfold mail_of, mbind, result_bind.
  destruct (js_get (Some secret) "smtp") as [s|]; [|discriminate].
  destruct (js_get s "username") as [us|]; [|discriminate].
  intros [= <-]. cbn [m_to m_cc m_bcc]. auto.
Qed.

Lemma split_at_sign_cons (name rest : string) :
  has_at name = false ->
  split_at_sign (name ++ "@" ++ rest) = name :: split_at_sign rest.
Proof.
  intros Hn. induction name as [|c r IH]; simpl in *; [reflexivity|].
  apply orb_false_iff in Hn as [Hc Hr]. now rewrite Hc, (IH Hr).
Qed.

(** X18. [maskEmail] outside well-formed addresses: a value whose text
    has no "@", or nothing between the first "@" and the next, masks to
    "***"; the text after a second "@" is dropped; and an empty local part
    masks to the text "undefined*". *)
Theorem maskEmail_malformed :
  (forall email, has_at (js_String email) = false -> maskEmail email = "***") /\
  (forall name rest, has_at name = false ->
      maskEmail (Some (JStr (name ++ "@@" ++ rest))) = "***" /\
      maskEmail (Some (JStr (name ++ "@"))) = "***") /\
  (forall name domain rest,
      has_at name = false -> has_at domain = false ->
      maskEmail (Some (JStr (name ++ "@" ++ domain ++ "@" ++ rest)))
      = maskEmail (Some (JStr (name ++ "@" ++ domain)))) /\
  (forall domain, domain <> "" -> has_at domain = false ->
      maskEmail (Some (JStr ("@" ++ domain))) = "undefined*@" ++ domain).
Proof.
  split; [|split; [|split]].
  - intros email H. unfold maskEmail. now rewrite (split_at_sign_plain _ H).
  - intros name rest Hn. split; unfold maskEmail; cbn [js_String js_String_json].
    + change (name ++ "@@" ++ rest) with (name ++ "@" ++ ("" ++ "@" ++ rest)).
      rewrite (split_at_sign_cons _ _ Hn), (split_at_sign_cons "" rest eq_refl). reflexivity.
    + change (name ++ "@") with (name ++ "@" ++ "").
      now rewrite (split_at_sign_cons _ _ Hn).
  - intros name domain rest Hn Hd. unfold maskEmail. cbn [js_String js_String_json].
    rewrite (split_at_sign_cons _ _ Hn), (split_at_sign_cons _ _ Hd).
    rewrite (split_at_sign_address _ _ Hn Hd). reflexivity.
  - intros domain Hne Hd. unfold maskEmail. cbn [js_String js_String_json].
    change ("@" ++ domain) with ("" ++ "@" ++ domain).
    rewrite (split_at_sign_cons "" domain eq_refl), (split_at_sign_plain _ Hd).
    cbn [nth nth_error]. destruct domain; [contradiction|]. reflexivity.
Qed.

(** ** The watcher, further *)

Lemma lookup_watcher_Some (st : State) (a : string) (wid : nat) (w : Watcher) :
  lookup_watcher st a = Some (wid, w) <->
  watchers st !! a = Some wid /\ heap st !! wid = Some w.
Proof.
  unfold lookup_watcher. destruct (watchers st !! a) as [wid'|]; cbn.
  - destruct (heap st !! wid') as [w'|] eqn:Hw; cbn.
    + split; [intros [= <- <-]; auto|]. intros [[= <-] Hw']. congruence.
    + split; [discriminate|]. intros [[= <-] Hw']. congruence.
  - split; [discriminate|]. now intros [? _].
Qed.

Lemma lookup_watcher_None (st : State) (a : string) :
  watchers st !! a = None -> lookup_watcher st a = None.
Proof. unfold lookup_watcher. now intros ->. Qed.

Lemma stopWatcher_running (st : State) (a : string) (wid : nat) (w : Watcher) :
  lookup_watcher st a = Some (wid, w) -> stopping w = false ->
  stopWatcher st a
  = with_watchers
      (with_heap (clearTimeout st (idleTimer w))
         (<[wid := set_stopped w]> (heap st)))
      (delete a (watchers st)).
Proof.
  intros Hl Hs. unfold stopWatcher. rewrite Hl, Hs. now destruct (idleTimer w).
Qed.

Lemma stopWatcher_idle (st : State) (a : string) :
  (lookup_watcher st a = None \/
   exists wid w, lookup_watcher st a = Some (wid, w) /\ stopping w = true) ->
  stopWatcher st a = st.
Proof.
  unfold stopWatcher. intros [-> | (wid & w & -> & ->)]; reflexivity.
Qed.

(** X19. [stopWatcher] writes to no stream and to no key; stopping a
    running watcher takes it out of the registry, cancels its timer and
    drops its client; and stopping again changes nothing. *)
Theorem stopWatcher_stops (st : State) (a : string) :
  stopWatcher (stopWatcher st a) a = stopWatcher st a /\
  written (stopWatcher st a) = written st /\
  store (stopWatcher st a) = store st /\
  forall wid w,
    lookup_watcher st a = Some (wid, w) -> stopping w = false ->
    watchers (stopWatcher st a) = delete a (watchers st) /\
    heap (stopWatcher st a) = <[wid := set_stopped w]> (heap st) /\
    timers (stopWatcher st a)
    = match idleTimer w with Some h => delete h (timers st) | None => timers st end.
Proof.
  destruct (lookup_watcher st a) as [[wid w]|] eqn:Hl.
  2:{ rewrite (stopWatcher_idle st a) by now left. rewrite (stopWatcher_idle st a) by now left.
      split; [reflexivity|]. split; [reflexivity|]. split; [reflexivity|]. discriminate. }
  destruct (stopping w) eqn:Hs.
  { rewrite (stopWatcher_idle st a) by (right; eauto).
    rewrite (stopWatcher_idle st a) by (right; eauto).
    split; [reflexivity|]. split; [reflexivity|]. split; [reflexivity|].
    intros ? ? [= <- <-]. congruence. }
  rewrite (stopWatcher_running st a wid w Hl Hs).
  split; [|split; [|split]].
  - apply stopWatcher_idle. left. apply lookup_watcher_None.
    cbn [watchers with_watchers]. apply lookup_delete_eq.
  - now destruct (idleTimer w).
  - now destruct (idleTimer w).
  - intros wid' w' [= <- <-] _. now destruct (idleTimer w).
Qed.

Section WatchMore.

Variable env : Env.

Lemma ensureWatcher_running (st : State) (a : string) (wid : nat) (w : Watcher) :
  lookup_watcher st a = Some (wid, w) -> is_Some (client w) ->
  ensureWatcher env st a = (st, OK wid).
Proof.
  intros Hl [c Hc]. unfold ensureWatcher. rewrite Hl.
  destruct w as [acc last cl subs stop idle]. cbn [client] in Hc. now subst cl.
Qed.

Lemma ensureWatcher_new (st : State) (a : string) :
  (forall wid w, lookup_watcher st a = Some (wid, w) -> client w = None) ->
  ensureWatcher env st a =
    match watch_config env st a with
    | Err e => (st, Err e)
    | OK _ =>
        let c := fresh st in
        let w := {| accountId := a; lastUid := 0; client := Some c;
                    sseClients := match lookup_watcher st a with
                                  | Some (_, w0) => sseClients w0
                                  | None => ∅
                                  end;
                    stopping := false; idleTimer := None |} in
        (with_fresh
           (with_owner
              (with_watchers (with_heap st (<[S c := w]> (heap st)))
                 (<[a := S c]> (watchers st)))
              (<[c := S c]> (owner st)))
           (S (S c)), OK (S c))
    end.
Proof.
  intros Hno. unfold ensureWatcher, watch_config.
  destruct (lookup_watcher st a) as [[wid w]|] eqn:Hl; [|reflexivity].
  specialize (Hno wid w eq_refl).
  destruct w as [acc last cl subs stop idle]. cbn [client] in Hno. subst cl. reflexivity.
Qed.

(** X20. Once [ensureWatcher] has returned, calling it again for the
    same account returns the same result and changes nothing: no second
    connection is opened. A call that fails leaves the process as it was,
    and the watcher a call returns is the one registered, with a client. *)
Theorem ensureWatcher_idempotent (st : State) (a : string) :
  ensureWatcher env (fst (ensureWatcher env st a)) a = ensureWatcher env st a /\
  (forall e, snd (ensureWatcher env st a) = Err e -> fst (ensureWatcher env st a) = st) /\
  (forall wid, snd (ensureWatcher env st a) = OK wid ->
     exists w, lookup_watcher (fst (ensureWatcher env st a)) a = Some (wid, w) /\
               is_Some (client w)).
Proof.
  assert (Hnew : forall cfg,
             (forall wid w, lookup_watcher st a = Some (wid, w) -> client w = None) ->
             watch_config env st a = OK cfg ->
             let st' := fst (ensureWatcher env st a) in
             ensureWatcher env st a = (st', OK (S (fresh st))) /\
             exists w, lookup_watcher st' a = Some (S (fresh st), w) /\
                       client w = Some (fresh st)).
  { intros cfg Hno Hcfg. rewrite (ensureWatcher_new st a Hno), Hcfg. cbn [fst].
    split; [reflexivity|]. eexists. split.
    - apply lookup_watcher_Some. cbn. rewrite !lookup_insert_eq. split; reflexivity.
    - reflexivity. }
  assert (Hcases : (exists wid w, lookup_watcher st a = Some (wid, w) /\ is_Some (client w))
                   \/ (forall wid w, lookup_watcher st a = Some (wid, w) -> client w = None)).
  { destruct (lookup_watcher st a) as [[wid w]|]; [|right; discriminate].
    destruct (client w) eqn:Hc; [left; eauto 6|].
    right. now intros ? ? [= <- <-]. }
  destruct Hcases as [(wid & w & Hl & Hc)|Hno].
  - rewrite (ensureWatcher_running st a wid w Hl Hc). cbn [fst snd].
    rewrite (ensureWatcher_running st a wid w Hl Hc).
    split; [reflexivity|]. split; [discriminate|]. intros ? [= <-]. eauto.
  - destruct (watch_config env st a) as [cfg|e] eqn:Hcfg.
    + destruct (Hnew cfg Hno eq_refl) as (Heq & w & Hl & Hc). rewrite Heq. cbn [fst snd].
      split; [|split; [discriminate|]].
      * rewrite Heq in Hl. cbn [fst] in Hl. apply (ensureWatcher_running _ _ _ _ Hl). eauto.
      * intros ? [= <-]. rewrite Heq in Hl. eauto.
    + rewrite (ensureWatcher_new st a Hno), Hcfg. cbn [fst snd].
      rewrite (ensureWatcher_new st a Hno), Hcfg.
      split; [reflexivity|]. split; [reflexivity|discriminate].
Qed.

(** X21. Opening the stream of an account that has no record and no
    watcher does not fail: the response is sent the errors "Account not
    found" and "Watcher unavailable" and then [SSEReady]. No watcher is
    created and no timeout armed, neither then nor when the stream closes;
    the one timer is the ping interval of the response, due 25 s after the
    open and cleared by the close. *)
Theorem stream_open_unknown_account (st : State) (a : string) (res : nat) :
  store st !! kAccount a = None -> watchers st !! a = None ->
  let st' := stream_open env st a res in
  written st' = (written st
                 ++ [(res, ErrorEvent "Account not found");
                     (res, ErrorEvent "Watcher unavailable");
                     (res, SSEReady a)])%list /\
  watchers st' = watchers st /\ heap st' = heap st /\ timers st' = timers st /\
  streams st' = <[res := None]> (streams st) /\
  pings st' = <[res := clock st + 25000]> (pings st) /\
  timers (stream_close st' res) = timers st /\
  watchers (stream_close st' res) = watchers st /\
  pings (stream_close st' res) = delete res (pings st).
Proof.
  intros Hacc Hw. unfold stream_open.
  assert (Hl : lookup_watcher st a = None) by now apply lookup_watcher_None.
  rewrite ensureWatcher_new by (rewrite Hl; discriminate).
  unfold watch_config. rewrite loadAccount_lookup, Hacc. cbn [mbind result_bind].
  assert (Hl' : lookup_watcher (write st res (ErrorEvent (error_message NotFound))) a = None)
    by exact Hl.
  rewrite Hl'. cbv zeta. cbn [error_message].
  split; [|split; [|split; [|split; [|split; [|split; [|split; [|split]]]]]]];
    try reflexivity.
  - cbn [written write with_written with_streams with_pings]. now rewrite <- !app_assoc.
  - unfold stream_close. cbn [streams write with_written with_streams with_pings].
    rewrite lookup_insert_eq. reflexivity.
  - unfold stream_close. cbn [streams write with_written with_streams with_pings].
    rewrite lookup_insert_eq. reflexivity.
  - unfold stream_close. cbn [streams write with_written with_streams with_pings].
    rewrite lookup_insert_eq. cbn [pings with_streams with_pings write with_written].
    apply delete_insert_eq.
Qed.

End WatchMore.

Lemma no_account_x : store (module_loaded ∅) !! kAccount "x" = None.
Proof. apply lookup_empty. Qed.

Lemma no_watcher_x : watchers (module_loaded ∅) !! "x" = None.
Proof. apply lookup_empty. Qed.

Lemma stream_open_unknown_account_witness :
  let st' := stream_open sample_env (module_loaded ∅) "x" 7%nat in
  written st' = (written (module_loaded ∅)
                 ++ [(7%nat, ErrorEvent "Account not found");
                     (7%nat, ErrorEvent "Watcher unavailable");
                     (7%nat, SSEReady "x")])%list /\
  watchers st' = watchers (module_loaded ∅) /\ heap st' = heap (module_loaded ∅) /\
  timers st' = timers (module_loaded ∅) /\
  streams st' = <[7%nat := None]> (streams (module_loaded ∅)) /\
  pings st' = <[7%nat := clock (module_loaded ∅) + 25000]> (pings (module_loaded ∅)) /\
  timers (stream_close st' 7%nat) = timers (module_loaded ∅) /\
  watchers (stream_close st' 7%nat) = watchers (module_loaded ∅) /\
  pings (stream_close st' 7%nat) = delete 7%nat (pings (module_loaded ∅)).
Proof.
  exact (stream_open_unknown_account sample_env (module_loaded ∅) "x" 7%nat
           no_account_x no_watcher_x).
Defined.

Lemma fold_max_bounds (l : list Z) (a : Z) :
  a <= fold_left Z.max l a /\ Forall (fun x => x <= fold_left Z.max l a) l.
Proof.
  revert a. induction l as [|x l IH]; intros a; cbn [fold_left].
  - split; [lia|constructor].
  - destruct (IH (Z.max a x)) as [H1 H2]. split; [lia|]. constructor; [lia|exact H2].
Qed.

Lemma received_uids_other (st : State) (a : string) (wid : nat) (subs : gset nat)
    (last : Z) (res : nat) (ev : Event) :
  registered st wid a subs last -> res ∉ subs ->
  received_uids (broadcast st a ev) res = received_uids st res.
Proof.
  intros (Hreg & w & Hw & _ & Hsubs & _) Hin. unfold broadcast, lookup_watcher.
  rewrite Hreg. cbn. rewrite Hw. cbn. unfold received_uids. cbn [written with_written].
  rewrite omap_app, Hsubs.
  assert (Hnil : forall l : list nat, res ∉ l ->
             omap (fun w0 : nat * Event =>
                     match w0 with
                     | (r, EmailReceived _ u _ _ _ _ _) =>
                         if decide (r = res) then Some u else None
                     | _ => None
                     end) (map (fun r => (r, ev)) l) = []).
  { induction l as [|r l IH]; intros Hl; [reflexivity|].
    apply not_elem_of_cons in Hl as [Hr Hl]. cbn [map omap list_omap].
    rewrite (IH Hl). destruct ev; try reflexivity.
    destruct (decide (r = res)); [congruence|reflexivity]. }
  rewrite Hnil; [apply app_nil_r|]. now rewrite elem_of_elements.
Qed.

Lemma on_fetched_others (st : State) (f : nat) (from : Z) (a : string) (wid : nat)
    (subs : gset nat) (last : Z) (res : nat) (msgs : list Msg) :
  fetches st !! f = Some (wid, from) ->
  registered st wid a subs last -> res ∉ subs ->
  received_uids (on_fetched st f msgs) res = received_uids st res.
Proof.
  intros Hf Hr Hin. unfold on_fetched. rewrite Hf.
  set (st0 := with_fetches st _).
  assert (Hr0 : registered st0 wid a subs last) by exact Hr.
  change (received_uids st res) with (received_uids st0 res).
  clearbody st0. clear Hf Hr. revert st0 last Hr0.
  induction msgs as [|m msgs IH]; intros st0 last Hr0; [reflexivity|].
  cbn [fold_left].
  assert (Hm : registered (on_message st0 wid m) wid a subs (Z.max last (uid m)) /\
               received_uids (on_message st0 wid m) res = received_uids st0 res).
  { pose proof Hr0 as (Hreg & w & Hw & Ha & Hsubs & Hlast).
    unfold on_message. rewrite Hw, Ha.
    set (st1 := with_heap st0 _).
    assert (Hr1 : registered st1 wid a subs (Z.max last (uid m))).
    { split; [exact Hreg|]. eexists. split; [apply lookup_insert_eq|].
      cbn. rewrite Hlast. auto. }
    split.
    - unfold registered. destruct (broadcast_frame st1 a
        (EmailReceived a (uid m) (msg_subject m)
           (filter (fun x => x <> ""%string) (msg_from m))
           (filter (fun x => x <> ""%string) (msg_to m)) (internalDate m) (flags m)))
        as [-> ->]. exact Hr1.
    - now rewrite (received_uids_other st1 a wid subs _ res _ Hr1 Hin). }
  destruct Hm as [Hr1 Hu]. rewrite (IH _ _ Hr1). exact Hu.
Qed.

Lemma on_fetched_done (st : State) (f : nat) (msgs : list Msg) :
  fetches (on_fetched st f msgs) !! f = None.
Proof.
  unfold on_fetched. destruct (fetches st !! f) as [[wid from]|] eqn:Hf; [|exact Hf].
  assert (Hfold : forall l s, fetches (fold_left (fun s m => on_message s wid m) l s)
                              = fetches s).
  { induction l as [|m l IH]; intros s; [reflexivity|]. cbn [fold_left]. rewrite IH.
    unfold on_message. destruct (heap s !! wid); [|reflexivity].
    unfold broadcast. now destruct (lookup_watcher _ _) as [[? ?]|]. }
  rewrite Hfold. cbn. apply lookup_delete_eq.
Qed.

(** X22. When a fetch ends, every subscriber of the watcher has been
    sent one event per message the fetch yielded, in that order; a response
    that is not subscribed has been sent nothing; [lastUid] is the largest
    of its old value and the uids seen; and the fetch is over. *)
Theorem fetch_delivers (st : State) (f : nat) (from : Z) (a : string) (wid : nat)
    (subs : gset nat) (last : Z) (msgs : list Msg) :
  fetches st !! f = Some (wid, from) ->
  registered st wid a subs last ->
  let st' := on_fetched st f msgs in
  let last' := fold_left Z.max (map uid msgs) last in
  registered st' wid a subs last' /\
  last <= last' /\ (forall m, m ∈ msgs -> uid m <= last') /\
  (forall res, res ∈ subs ->
     received_uids st' res = (received_uids st res ++ map uid msgs)%list) /\
  (forall res, res ∉ subs -> received_uids st' res = received_uids st res) /\
  fetches st' !! f = None.
Proof.
  intros Hf Hr st' last'.
  destruct (fold_max_bounds (map uid msgs) last) as [Hlast Hall].
  split; [|split; [exact Hlast|split; [|split; [|split]]]].
  - destruct (decide (subs = ∅)) as [->|Hne].
    + clear Hlast Hall. subst st' last'. unfold on_fetched. rewrite Hf.
      set (st0 := with_fetches st _).
      assert (Hr0 : registered st0 wid a ∅ last) by exact Hr.
      clearbody st0. clear Hf Hr. revert st0 last Hr0.
      induction msgs as [|m msgs IH]; intros st0 last Hr0; [exact Hr0|].
      cbn [fold_left map]. apply IH.
      pose proof Hr0 as (Hreg & w & Hw & Ha & Hsubs & Hl).
      unfold on_message. rewrite Hw, Ha. set (st1 := with_heap st0 _).
      unfold registered. destruct (broadcast_frame st1 a
        (EmailReceived a (uid m) (msg_subject m)
           (filter (fun x => x <> ""%string) (msg_from m))
           (filter (fun x => x <> ""%string) (msg_to m)) (internalDate m) (flags m)))
        as [-> ->].
      split; [exact Hreg|]. eexists. split; [apply lookup_insert_eq|].
      cbn. rewrite Hl. auto.
    + apply set_choose_L in Hne as [res Hres].
      exact (proj1 (on_fetched_publishes st f from a wid subs last res msgs Hf Hr Hres)).
  - intros m Hm. rewrite Forall_forall in Hall. apply Hall.
    apply list_elem_of_fmap. eauto.
  - intros res Hres.
    exact (proj2 (on_fetched_publishes st f from a wid subs last res msgs Hf Hr Hres)).
  - intros res Hres. exact (on_fetched_others st f from a wid subs last res msgs Hf Hr Hres).
  - apply on_fetched_done.
Qed.

Lemma sample_fetch_running : fetches sample_fetching !! 3%nat = Some (1%nat, 1001).
Proof. vm_compute. reflexivity. Qed.

Lemma sample_fetching_registered :
  registered sample_fetching 1%nat sample_id {[100%nat]} 1000.
Proof.
  split; [vm_compute; reflexivity|].
  exists {| accountId := sample_id; lastUid := 1000; client := Some 0%nat;
            sseClients := {[100%nat]}; stopping := false; idleTimer := Some 2%nat |}.
  split; [vm_compute; reflexivity|]. split; [reflexivity|]. split; reflexivity.
Qed.

Lemma fetch_delivers_witness :
  let msgs := [sample_msg 1001; sample_msg 1002] in
  let st' := on_fetched sample_fetching 3%nat msgs in
  let last' := fold_left Z.max (map uid msgs) 1000 in
  registered st' 1%nat sample_id {[100%nat]} last' /\
  1000 <= last' /\ (forall m, m ∈ msgs -> uid m <= last') /\
  (forall res, res ∈ ({[100%nat]} : gset nat) ->
     received_uids st' res = (received_uids sample_fetching res ++ map uid msgs)%list) /\
  (forall res, res ∉ ({[100%nat]} : gset nat) ->
     received_uids st' res = received_uids sample_fetching res) /\
  fetches st' !! 3%nat = None.
Proof.
  exact (fetch_delivers sample_fetching 3%nat 1001 sample_id 1%nat {[100%nat]} 1000
           [sample_msg 1001; sample_msg 1002] sample_fetch_running
           sample_fetching_registered).
Defined.

(** ** Timers *)









Section Owned.

Variable env : Env.
















(** The ping intervals are those of the open streams. *)


Lemma streams_clearTimeout (st : State) (t : option nat) :
  pings (clearTimeout st t) = pings st /\ streams (clearTimeout st t) = streams st.
Proof. now destruct t. Qed.


















End Owned.

(** ** The page of messages *)

Lemma skip_spaces_none (fuel : nat) (s : list ascii) :
  strip_space s = None -> skip_spaces fuel s = s.
Proof. destruct fuel; [reflexivity|]. cbn [skip_spaces]. now intros ->. Qed.

Lemma digit_not_space (c : ascii) (r : list ascii) :
  number_start c = true -> strip_space (c :: r) = None.
Proof.
  intros H.
  destruct c as [[] [] [] [] [] [] [] []]; try (exfalso; vm_compute in H; discriminate H);
    destruct r as [|c1 [|c2 r2]]; reflexivity.
Qed.

Lemma js_parseInt_printed (z : Z) :
  js_parseInt (string_of_list_ascii (print_Z z)) = Some z.
Proof.
  unfold js_parseInt. rewrite list_ascii_of_string_of_list_ascii.
  assert (Htrim : trim_start (print_Z z) = print_Z z).
  { destruct (print_Z_start z) as (c & r & Hp & Hc).
    unfold trim_start. rewrite Hp. apply skip_spaces_none. now apply digit_not_space. }
  rewrite Htrim. clear Htrim. unfold print_Z.
  replace (Some z) with (Some (Z.of_int (Z.to_int z))) by now rewrite DecimalZ.of_to.
  assert (Hd : forall d, fst (parse_digits (digits_of_uint d)) = d).
  { intros d. rewrite <- (app_nil_r (digits_of_uint d)).
    now rewrite parse_digits_printed. }
  assert (Hne : forall d, Z.to_int z = Decimal.Pos d \/ Z.to_int z = Decimal.Neg d ->
                          d <> Decimal.Nil).
  { intros d Hz ->. destruct z; cbn in Hz; destruct Hz as [Hz|Hz]; try discriminate;
      injection Hz as Hz; pose proof (DecimalPos.Unsigned.to_uint_nonnil p); congruence. }
  destruct (Z.to_int z) as [d|d] eqn:Hz.
  - specialize (Hne d (or_introl eq_refl)).
    destruct (digits_start d Hne) as (c & r & Hp & Hc & Hminus).
    rewrite Hp, Hminus.
    assert (Hplus : Ascii.eqb c "+"%char = false).
    { destruct (Ascii.eqb_spec c "+"%char) as [->|]; [discriminate Hc|reflexivity]. }
    rewrite Hplus, <- Hp, Hd. cbn [Z.of_int]. now destruct d.
  - specialize (Hne d (or_intror eq_refl)).
    rewrite Ascii.eqb_refl, Hd. cbn [Z.of_int]. now destruct d.
Qed.

Lemma print_Z_truthy (z : Z) :
  js_truthy (Some (JStr (string_of_list_ascii (print_Z z)))) = true.
Proof.
  destruct (print_Z_start z) as (c & r & -> & _). reflexivity.
Qed.

Lemma js_slice_last {A} (a : list A) (n : Z) :
  0 < n -> js_slice a (- n) = drop (length a - Z.to_nat n) a.
Proof.
  intros Hn. unfold js_slice. destruct (Z.ltb_spec (- n) 0); [|lia].
  f_equal. lia.
Qed.

Lemma js_slice_drop {A} (a : list A) (n : Z) :
  0 <= n -> js_slice a n = drop (Z.to_nat n) a.
Proof.
  intros Hn. unfold js_slice. destruct (Z.ltb_spec n 0); [lia|].
  destruct (Z.le_gt_cases n (Z.of_nat (length a))).
  - now rewrite Z.min_l.
  - rewrite Z.min_r by lia. rewrite Nat2Z.id, !drop_ge; [reflexivity|lia|lia].
Qed.

(** X24. The page of [GET /accounts/:id/messages]: [limit] is never
    above 100 and never 0, and is 20 without a usable [limit] parameter. A
    positive [limit] keeps the last [limit] results of the search, at most
    100. A negative parameter is not refused: [limit] is that number, and
    the page is the whole search result but its first [-limit] entries. *)
Theorem messages_page (query_limit : option json) (seq : list Z) :
  let limit := messages_limit query_limit in
  limit <= 100 /\ limit <> 0 /\
  (0 < limit ->
   messages_uids query_limit seq = drop (length seq - Z.to_nat limit) seq /\
   (length (messages_uids query_limit seq) <= 100)%nat) /\
  (limit < 0 ->
   messages_uids query_limit seq = drop (Z.to_nat (- limit)) seq) /\
  (js_truthy query_limit = false -> limit = 20) /\
  (forall n, messages_limit (Some (JStr (string_of_list_ascii (print_Z n))))
             = if n =? 0 then 20 else Z.min n 100).
Proof.
  intros limit.
  assert (Hle : limit <= 100) by (unfold limit, messages_limit; lia).
  assert (Hnz : limit <> 0).
  { unfold limit, messages_limit.
    destruct (js_parseInt _) as [n|]; [|lia].
    destruct (Z.eqb_spec n 0); lia. }
  split; [exact Hle|]. split; [exact Hnz|]. split; [|split; [|split]].
  - intros Hpos. unfold messages_uids. fold limit.
    rewrite (js_slice_last seq limit Hpos). split; [reflexivity|].
    rewrite length_drop. lia.
  - intros Hneg. unfold messages_uids. fold limit.
    apply js_slice_drop. lia.
  - intros Hq. unfold limit, messages_limit. rewrite Hq. reflexivity.
  - intros n. unfold messages_limit.
    rewrite print_Z_truthy. cbn [js_String js_String_json].
    rewrite js_parseInt_printed. destruct (Z.eqb_spec n 0); [reflexivity|reflexivity].
Qed.

(** ** Listing, the baseline and a failed connection *)

Lemma get_accounts_tenant (env : Env) (store : Store) (t : string) :
  t <> "" ->
  get_accounts env store (Some (JStr t))
  = (ids ← redis_smembers store (kUserIndex t); list_loop env store ids).
Proof.
  intros Ht. unfold get_accounts. cbn [js_truthy].
  destruct (String.eqb_spec t ""); [contradiction|]. cbn [negb js_String js_String_json].
  destruct (String.eqb_spec t ""); [contradiction|reflexivity].
Qed.

Lemma mapM_Err {A B} (f : A -> result B) (l : list A) (x : A) (e : error) :
  x ∈ l -> f x = Err e -> exists e', mapM f l = Err e'.
Proof.
  intros Hin Hx. induction l as [|y r IH]; [now apply elem_of_nil in Hin|].
  cbn [mapM]. unfold mbind, result_bind.
  destruct (f y) as [b|e0] eqn:Ey; [|eauto].
  apply elem_of_cons in Hin as [->|Hin]; [congruence|].
  destruct (IH Hin) as [e' ->]. eauto.
Qed.

(** X25. [GET /accounts] has no [try] inside its loop: when one record
    in the tenant's index cannot be summarised (its envelope does not
    open, or no master key is configured) the whole request fails, and
    the accounts that could be read are not listed either. *)
Theorem list_fails_on_bad_record (env : Env) (store : Store) (t : string)
    (index : gset string) (id : string) (r : AccountRecord) (e : error) :
  t <> "" ->
  store !! kUserIndex t = Some (RSet index) ->
  (forall id s, id ∈ index -> store !! kAccount id <> Some (RSet s)) ->
  id ∈ index -> store !! kAccount id = Some (RRecord r) ->
  summary_of env r = Err e ->
  exists e', get_accounts env store (Some (JStr t)) = Err e'.
Proof.
  intros Ht Hidx Hrec Hin Hr He. rewrite (get_accounts_tenant _ _ _ Ht).
  unfold redis_smembers. rewrite Hidx. cbn [mbind result_bind].
  rewrite list_loop_existing by (intros i s Hi; apply Hrec; now apply elem_of_elements).
  apply (mapM_Err _ _ r e); [|exact He].
  apply elem_of_existing_records. exists id. split; [|exact Hr]. now apply elem_of_elements.
Qed.

Lemma sample_summary_unreadable :
  summary_of {| CONFIG_MASTER_KEY_BASE64 := None |} sample_record
  = Err (ConfigError "CONFIG_MASTER_KEY_BASE64 is required").
Proof. reflexivity. Qed.

Lemma sample_index : sample_store !! kUserIndex "u1" = Some (RSet {[sample_id]}).
Proof. apply lookup_insert_eq. Qed.

Lemma sample_index_records (id : string) (s : gset string) :
  id ∈ ({[sample_id]} : gset string) -> sample_store !! kAccount id <> Some (RSet s).
Proof. intros ->%elem_of_singleton. vm_compute. discriminate. Qed.

Lemma sample_id_indexed : sample_id ∈ ({[sample_id]} : gset string).
Proof. now apply elem_of_singleton. Qed.

Lemma list_fails_on_bad_record_witness :
  exists e', get_accounts {| CONFIG_MASTER_KEY_BASE64 := None |} sample_store
               (Some (JStr "u1")) = Err e'.
Proof.
  exact (list_fails_on_bad_record {| CONFIG_MASTER_KEY_BASE64 := None |} sample_store "u1"
           {[sample_id]} sample_id sample_record _ u1_nonempty sample_index
           sample_index_records sample_id_indexed sample_store_account
           sample_summary_unreadable).
Defined.

Lemma heap_broadcast (st : State) (a : string) (ev : Event) :
  heap (broadcast st a ev) = heap st.
Proof. apply broadcast_frame. Qed.

Lemma keepAliveWatcher_watcher (st : State) (wid : nat) (w : Watcher) :
  heap st !! wid = Some w ->
  heap (keepAliveWatcher st wid) !! wid = Some (set_idleTimer w (Some (fresh st))) /\
  fresh (keepAliveWatcher st wid) = S (fresh st) /\
  owner (keepAliveWatcher st wid) = owner st /\
  listening (keepAliveWatcher st wid) = listening st /\
  fetches (keepAliveWatcher st wid) = fetches st.
Proof.
  intros Hw. unfold keepAliveWatcher. rewrite Hw.
  destruct (idleTimer w), (decide (size (sseClients w) = 0%nat)); cbn;
    rewrite lookup_insert_eq; auto.
Qed.

(** X26. When the connection of a watcher is up, [lastUid] becomes
    [max(0, (uidNext || 1) - 1)] while the subscribers and the client stay;
    the first "exists" after that fetches from one above this baseline,
    that is from [UIDNEXT] on. Before the connection is up the listener
    is not attached, and "exists" does nothing. *)
Theorem first_fetch_from_baseline (st : State) (c wid : nat) (w : Watcher)
    (uidNext : option Z) :
  owner st !! c = Some wid -> heap st !! wid = Some w -> is_Some (client w) ->
  let st1 := imap_ready st c uidNext in
  (exists w1, heap st1 !! wid = Some w1 /\ lastUid w1 = baseline uidNext /\
              sseClients w1 = sseClients w /\ client w1 = client w) /\
  fetches (on_exists st1 c) = <[fresh st1 := (wid, baseline uidNext + 1)]> (fetches st1) /\
  (c ∉ listening st -> on_exists st c = st).
Proof.
  intros Ho Hw [cl Hc] st1.
  assert (Hbase : Z.max 0 (match uidNext with
                           | Some n => if n =? 0 then 1 else n
                           | None => 1
                           end - 1) = baseline uidNext).
  { unfold baseline. destruct uidNext as [n|]; [|reflexivity].
    destruct (Z.eqb_spec n 0); reflexivity. }
  assert (H1 : heap st1 !! wid
               = Some (set_idleTimer (set_lastUid w (baseline uidNext)) (Some (fresh st)))
               /\ owner st1 = owner st /\ listening st1 = {[c]} ∪ listening st).
  { unfold st1, imap_ready. rewrite Ho, Hw, Hbase.
    set (st0 := with_listening _ _).
    assert (Hw0 : heap st0 !! wid = Some (set_lastUid w (baseline uidNext)))
      by apply lookup_insert_eq.
    destruct (keepAliveWatcher_watcher st0 wid _ Hw0) as (Hk & _ & Hko & Hkl & _).
    assert (Hb : forall a ev s, owner (broadcast s a ev) = owner s
                                /\ listening (broadcast s a ev) = listening s).
    { intros a ev s. unfold broadcast. now destruct (lookup_watcher s a) as [[? ?]|]. }
    destruct (Hb (accountId w) (WatcherReady (accountId w)) (keepAliveWatcher st0 wid))
      as [Hbo Hbl].
    rewrite heap_broadcast, Hbo, Hbl, Hk, Hko, Hkl. auto. }
  destruct H1 as (Hw1 & Ho1 & Hl1).
  split; [|split].
  - eexists. split; [exact Hw1|]. cbn. auto.
  - unfold on_exists. rewrite decide_True by (rewrite Hl1; apply elem_of_union_l; now apply elem_of_singleton).
    rewrite Ho1, Ho, Hw1. destruct w as [acc last cl' subs stop idle].
    cbn [client] in Hc. subst cl'. reflexivity.
  - intros Hnot. unfold on_exists. now rewrite decide_False.
Qed.

(** X27. When [connect], [mailboxOpen] or [status] throws for the
    registered watcher of an account, every subscriber is sent the
    [Error] event, the watcher leaves the registry with its idle timer
    cleared, and the subscribers are lost with it: the watcher a later
    [ensureWatcher] creates for the account starts with no subscriber and
    [lastUid] 0. *)
Theorem imap_failed_detaches (env : Env) (st : State) (c wid : nat) (w : Watcher)
    (message : string) :
  owner st !! c = Some wid -> heap st !! wid = Some w ->
  watchers st !! accountId w = Some wid -> stopping w = false ->
  let a := accountId w in
  let st1 := imap_failed st c message in
  written st1
  = (written st ++ map (fun res => (res, ErrorEvent message)) (elements (sseClients w)))%list /\
  watchers st1 !! a = None /\
  heap st1 !! wid = Some (set_stopped w) /\
  (forall h, idleTimer w = Some h -> timers st1 !! h = None) /\
  forall cfg, watch_config env st1 a = OK cfg ->
    exists wid' w',
      lookup_watcher (fst (ensureWatcher env st1 a)) a = Some (wid', w') /\
      snd (ensureWatcher env st1 a) = OK wid' /\
      sseClients w' = ∅ /\ lastUid w' = 0.
Proof.
  intros Ho Hw Hreg Hs a st1.
  assert (Hl : lookup_watcher st a = Some (wid, w)).
  { apply lookup_watcher_Some. auto. }
  assert (Hst1 : st1 = stopWatcher (broadcast st a (ErrorEvent message)) a).
  { unfold st1, imap_failed. now rewrite Ho, Hw. }
  set (st0 := broadcast st a (ErrorEvent message)) in *.
  assert (Hst0 : st0 = with_written st
                   (written st ++ map (fun res => (res, ErrorEvent message))
                                      (elements (sseClients w)))).
  { unfold st0, broadcast. now rewrite Hl. }
  assert (Hl0 : lookup_watcher st0 a = Some (wid, w)) by now rewrite Hst0.
  rewrite (stopWatcher_running st0 a wid w Hl0 Hs) in Hst1.
  assert (Hgone : watchers st1 !! a = None).
  { rewrite Hst1. cbn [watchers with_watchers]. apply lookup_delete_eq. }
  split; [|split; [exact Hgone|split; [|split]]].
  - rewrite Hst1, Hst0. now destruct (idleTimer w).
  - rewrite Hst1, Hst0. cbn. destruct (idleTimer w); cbn; apply lookup_insert_eq.
  - intros h Hh. rewrite Hst1, Hst0, Hh. cbn. apply lookup_delete_eq.
  - intros cfg Hcfg.
    assert (Hnone : lookup_watcher st1 a = None) by now apply lookup_watcher_None.
    rewrite (ensureWatcher_new env st1 a) by (rewrite Hnone; discriminate).
    rewrite Hcfg, Hnone. cbv zeta. cbn [fst snd].
    eexists _, _. split.
    { apply lookup_watcher_Some. cbn. rewrite !lookup_insert_eq. split; reflexivity. }
    split; [reflexivity|]. split; reflexivity.
Qed.

(** ** Reading back what was written *)

Lemma obj_get_secret (s : Secret) :
  obj_get "label" (members_of (json_of_Secret s)) = option_map JStr (label s) /\
  obj_get "primaryEmail" (members_of (json_of_Secret s)) = Some (JStr (primaryEmail s)) /\
  obj_get "imap" (members_of (json_of_Secret s)) = Some (json_of_ServerSettings (imap s)) /\
  obj_get "smtp" (members_of (json_of_Secret s)) = Some (json_of_ServerSettings (smtp s)).
Proof.
  destruct s as [[l|] pe im sm]; repeat split; reflexivity.
Qed.

Lemma get_account_stored (env : Env) (store : Store) (id : string) (acc : AccountRecord)
    (s : Secret) :
  store !! kAccount id = Some (RRecord acc) ->
  decryptJSON env (enc acc) (aad_of (acc_id acc) (acc_integrationId acc))
    = OK (json_of_Secret s) ->
  get_account env store id (Some (JStr "true")) = Sent 200 (details_of acc s).
Proof.
  intros Ha Hdec. unfold get_account. rewrite loadAccount_lookup, Ha, Hdec.
  cbn [mbind result_bind js_truthy js_String js_String_json String.eqb Ascii.eqb
       Bool.eqb negb].
  destruct (obj_get_secret s) as (Hl & Hp & Hi & Hs).
  unfold js_get, json_of_Secret in *. cbn [members_of] in *.
  rewrite Hl, Hp, Hi, Hs. cbn [mbind result_bind redact js_member app]. unfold details_of.
  destruct (label s) as [l|]; cbn [option_map js_or_null js_truthy]; [|reflexivity].
  now destruct (String.eqb l "").
Qed.

(** X28. Update then read: after [PUT /accounts/:id] with a valid body
    on a stored account, [GET /accounts/:id?includePasswords=true] answers
    200 with the secret of the update, the id, tenant and [createdAt] of
    the record as they were, and the time of the update as [updatedAt]. *)
Theorem read_after_update (env : Env) (is_email : string -> bool) (store : Store)
    (id : string) (acc : AccountRecord) (body : option json) (secret : Secret)
    (now : string) (master salt_bytes iv_bytes : list ascii) :
  store !! kAccount id = Some (RRecord acc) -> acc_id acc = id ->
  SecretPayload_parse is_email body = OK secret ->
  getMasterKey env = OK master -> length iv_bytes = 12%nat ->
  snd (put_account env is_email store id body now salt_bytes iv_bytes) = OK tt /\
  exists e,
    get_account env (fst (put_account env is_email store id body now salt_bytes iv_bytes))
      id (Some (JStr "true"))
    = Sent 200 (details_of {| acc_id := id; acc_integrationId := acc_integrationId acc;
                              createdAt := createdAt acc; updatedAt := now; enc := e |}
                  secret).
Proof.
  intros Ha Hid Hbody Hkey Hiv.
  destruct (envelope_roundtrip_sealed env master salt_bytes iv_bytes (json_of_Secret secret)
              (aad_of (acc_id acc) (acc_integrationId acc)) Hkey Hiv) as (e & He & Hdec).
  unfold put_account. rewrite loadAccount_lookup, Ha, Hbody, He. cbn [fst snd].
  split; [reflexivity|]. exists e. rewrite Hid in *.
  apply get_account_stored; [apply lookup_insert_eq|exact Hdec].
Qed.

Lemma mapM_Permutation {A B} (f : A -> result B) (l1 l2 : list A) (r1 : list B) :
  l1 ≡ₚ l2 -> mapM f l1 = OK r1 -> exists r2, mapM f l2 = OK r2 /\ r1 ≡ₚ r2.
Proof.
  intros Hp. revert r1. induction Hp as [|x l1 l2 _ IH|x y l|l1 l2 l3 _ IH1 _ IH2];
    intros r1; cbn [mapM]; unfold mbind, result_bind.
  - intros [= <-]. now exists [].
  - destruct (f x) as [b|]; [|discriminate].
    destruct (mapM f l1) as [bs|] eqn:E1; [|discriminate]. intros [= <-].
    destruct (IH bs eq_refl) as (r2 & -> & Hr). exists (b :: r2). split; [reflexivity|].
    now constructor.
  - destruct (f y) as [b|]; [|discriminate]. destruct (f x) as [a|]; [|discriminate].
    destruct (mapM f l) as [bs|]; [|discriminate]. intros [= <-].
    exists (a :: b :: bs). split; [reflexivity|]. constructor.
  - intros H1. destruct (IH1 _ H1) as (r2 & H2 & Hr12).
    destruct (IH2 _ H2) as (r3 & H3 & Hr23). exists r3. split; [exact H3|].
    now transitivity r2.
Qed.

Lemma existing_records_agree (store store' : Store) (ids : list string) :
  (forall id, id ∈ ids -> store' !! kAccount id = store !! kAccount id) ->
  existing_records store' ids = existing_records store ids.
Proof.
  induction ids as [|id r IH]; intros H; [reflexivity|].
  unfold existing_records in *. cbn [omap list_omap].
  rewrite (H id) by constructor. rewrite IH; [reflexivity|].
  intros id' Hin. apply H. now constructor.
Qed.

Lemma summary_of_stored (env : Env) (rec : AccountRecord) (s : Secret) :
  decryptJSON env (enc rec) (aad_of (acc_id rec) (acc_integrationId rec))
    = OK (json_of_Secret s) ->
  summary_of env rec
  = OK {| s_id := acc_id rec; s_integrationId := acc_integrationId rec;
          s_label := match label s with
                     | Some l => if String.eqb l "" then JNull else JStr l
                     | None => JNull
                     end;
          primaryEmailMasked := maskEmail (Some (JStr (primaryEmail s)));
          s_createdAt := createdAt rec; s_updatedAt := updatedAt rec |}.
Proof.
  intros Hdec. unfold summary_of. rewrite Hdec. cbn [mbind result_bind].
  destruct (obj_get_secret s) as (Hl & Hp & _).
  unfold js_get, json_of_Secret in *. cbn [members_of] in *.
  rewrite Hl, Hp. cbn [mbind result_bind].
  destruct (label s) as [l|]; cbn [option_map js_truthy]; [|reflexivity].
  now destruct (String.eqb l "").
Qed.

(** X29. Create then list: in a consistent store, after a successful
    [POST /accounts] under a fresh id, [GET /accounts] of the tenant of
    the request succeeds whenever it did before, with the entries it had
    before and one more, the summary of the new account. *)
Theorem list_after_create (env : Env) (is_email : string -> bool)
    (smtp_verify : TransportOptions -> result unit)
    (imap_login : ImapConfig -> result unit)
    (store store' : Store) (body : option json) (b : CreateAccount)
    (id now rid : string) (salt_bytes iv_bytes : list ascii) (l : list AccountSummary) :
  consistent store -> store !! kAccount id = None ->
  CreateAccountSchema_parse is_email body = OK b -> iv_bytes <> [] ->
  post_accounts env is_email smtp_verify imap_login store body id now salt_bytes iv_bytes
    = (store', OK rid) ->
  get_accounts env store (Some (JStr (c_integrationId b))) = OK l ->
  exists l',
    get_accounts env store' (Some (JStr (c_integrationId b))) = OK l' /\
    l' ≡ₚ summary_of_create b id now :: l.
Proof.
  intros Hc Hfresh Hb Hiv Hpost Hlist.
  set (t := c_integrationId b) in *.
  assert (Ht : t <> "").
  { revert Hb. unfold CreateAccountSchema_parse.
    destruct body as [[| | | | |ms]|]; try discriminate. unfold mbind, result_bind.
    destruct (z_string_min1 "integrationId" _) as [ig|] eqn:Eg; [|discriminate].
    destruct (z_string_optional "label" _); [|discriminate].
    destruct (z_email is_email "primaryEmail" _); [|discriminate].
    destruct (ServerSettings_parse (obj_get "imap" ms)); [|discriminate].
    destruct (ServerSettings_parse (obj_get "smtp" ms)); [|discriminate].
    destruct (z_boolean_default_false "testConnection" _); [|discriminate].
    intros [= <-]. unfold t. cbn. now apply z_string_min1_OK in Eg. }
  rewrite post_accounts_eq, Hb in Hpost.
  destruct (if testConnection b then _ else _); [|discriminate].
  destruct (encryptJSON _ _ _ _ _) as [e|] eqn:He; [|discriminate].
  cbv zeta in Hpost. fold t in Hpost, He.
  set (rec := {| acc_id := id; acc_integrationId := t; createdAt := now;
                 updatedAt := now; enc := e |}) in *.
  set (idx := index_of store t) in *.
  assert (Hs' : store' = <[kUserIndex t := RSet ({[id]} ∪ idx)]>
                           (<[kAccount id := RRecord rec]> store)).
  { destruct (store !! kUserIndex t) as [[r|s]|]; [discriminate| |];
      now injection Hpost as <- _. }
  clear Hpost.
  assert (Hnot : id ∉ idx).
  { intros Hin. apply index_of_elem in Hin as (s & Es & Hs).
    destruct Hc as (_ & _ & _ & H4). destruct (H4 _ _ _ Es Hs) as (r & Er & _).
    congruence. }
  assert (Hold : mapM (summary_of env) (existing_records store (elements idx)) = OK l).
  { rewrite (get_accounts_tenant _ _ _ Ht) in Hlist. revert Hlist.
    unfold redis_smembers, idx, index_of.
    destruct (store !! kUserIndex t) as [[r|s]|]; cbn [mbind result_bind];
      [discriminate| |].
    - rewrite list_loop_existing; [exact (fun H => H)|].
      intros i s0 _. apply (consistent_account_not_set _ _ _ Hc).
    - now rewrite elements_empty. }
  assert (Hc' : consistent store').
  { rewrite Hs'. exact (insert_account_consistent store id rec Hc Hfresh eq_refl). }
  assert (Hget : get_accounts env store' (Some (JStr t))
                 = mapM (summary_of env)
                     (existing_records store' (elements ({[id]} ∪ idx)))).
  { rewrite (get_accounts_tenant _ _ _ Ht). unfold redis_smembers.
    replace (store' !! kUserIndex t) with (Some (RSet ({[id]} ∪ idx)))
      by (rewrite Hs'; symmetry; apply lookup_insert_eq).
    cbn [mbind result_bind]. apply list_loop_existing.
    intros i s0 _. apply (consistent_account_not_set _ _ _ Hc'). }
  rewrite Hget. clear Hget.
  assert (Hnew : summary_of env rec = OK (summary_of_create b id now)).
  { apply (summary_of_stored env rec (secret_of b)).
    exact (decryptJSON_encryptJSON _ _ _ _ _ _ He Hiv). }
  assert (Hrecs : existing_records store' (id :: elements idx)
                  = rec :: existing_records store (elements idx)).
  { unfold existing_records at 1. cbn [omap list_omap]. rewrite Hs' at 1.
    rewrite lookup_insert_ne by (intros Hk; key_facts). rewrite lookup_insert_eq.
    f_equal. apply existing_records_agree. intros i Hi. rewrite Hs'.
    rewrite lookup_insert_ne by (intros Hk; key_facts).
    apply lookup_insert_ne. intros Hk. key_facts. apply Hnot. now apply elem_of_elements. }
  assert (Hperm : existing_records store' (elements ({[id]} ∪ idx))
                  ≡ₚ rec :: existing_records store (elements idx)).
  { rewrite <- Hrecs. unfold existing_records. apply omap_Permutation.
    now apply elements_union_singleton. }
  assert (Hm : mapM (summary_of env) (rec :: existing_records store (elements idx))
               = OK (summary_of_create b id now :: l)).
  { cbn [mapM]. now rewrite Hnew, Hold. }
  destruct (mapM_Permutation _ _ _ _ (symmetry Hperm) Hm) as (l' & Hl' & Hp).
  exists l'. split; [exact Hl'|]. now symmetry.
Qed.

(** X30. Create then read: the id [POST /accounts] answers with is the
    id the record is stored under, and
    [GET /accounts/:id?includePasswords=true] on it answers 200 with the
    tenant and the secret of the request and both timestamps equal to
    the time of the create. *)
Theorem read_after_create (env : Env) (is_email : string -> bool)
    (smtp_verify : TransportOptions -> result unit)
    (imap_login : ImapConfig -> result unit)
    (store store' : Store) (body : option json) (b : CreateAccount)
    (id now rid : string) (salt_bytes iv_bytes : list ascii) :
  CreateAccountSchema_parse is_email body = OK b -> iv_bytes <> [] ->
  post_accounts env is_email smtp_verify imap_login store body id now salt_bytes iv_bytes
    = (store', OK rid) ->
  rid = id /\
  exists e,
    get_account env store' rid (Some (JStr "true"))
    = Sent 200 (details_of {| acc_id := id; acc_integrationId := c_integrationId b;
                              createdAt := now; updatedAt := now; enc := e |}
                  (secret_of b)).
Proof.
  intros Hb Hiv. rewrite post_accounts_eq, Hb.
  destruct (if testConnection b then _ else _); [|discriminate].
  destruct (encryptJSON _ _ _ _ _) as [e|] eqn:He; [|discriminate].
  cbv zeta. intros Hpost.
  assert (Hrid : rid = id).
  { destruct (store !! kUserIndex (c_integrationId b)) as [[r|s]|]; [discriminate| |];
      congruence. }
  split; [exact Hrid|]. subst rid. exists e.
  apply get_account_stored.
  - destruct (store !! kUserIndex (c_integrationId b)) as [[r|s]|]; [discriminate| |];
      injection Hpost as <-;
      (rewrite lookup_insert_ne by (intros Hk; key_facts)); apply lookup_insert_eq.
  - exact (decryptJSON_encryptJSON _ _ _ _ _ _ He Hiv).
Qed.

Lemma read_after_create_witness :
  sample_id = sample_id /\
  exists e,
    get_account sample_env sample_store sample_id (Some (JStr "true"))
    = Sent 200 (details_of {| acc_id := sample_id; acc_integrationId := "u1";
                              createdAt := "2024-01-01T12:00:00.000Z";
                              updatedAt := "2024-01-01T12:00:00.000Z"; enc := e |}
                  (secret_of sample_create)).
Proof.
  exact (read_after_create sample_env (fun _ => true) (fun _ => OK tt) (fun _ => OK tt)
           ∅ sample_store (Some sample_create_body) sample_create sample_id
           "2024-01-01T12:00:00.000Z" sample_id sample_salt sample_iv
           sample_create_parsed sample_iv_nonempty (sample_created _ _)).
Defined.

Lemma second_iv_length : length second_iv = 12%nat.
Proof. reflexivity. Qed.

Lemma read_after_update_witness :
  snd (put_account sample_env (fun _ => true) sample_store sample_id (Some rotated_body)
         "2024-02-01T08:00:00.000Z" second_salt second_iv) = OK tt /\
  exists e,
    get_account sample_env
      (fst (put_account sample_env (fun _ => true) sample_store sample_id
              (Some rotated_body) "2024-02-01T08:00:00.000Z" second_salt second_iv))
      sample_id (Some (JStr "true"))
    = Sent 200 (details_of {| acc_id := sample_id; acc_integrationId := "u1";
                              createdAt := "2024-01-01T12:00:00.000Z";
                              updatedAt := "2024-02-01T08:00:00.000Z"; enc := e |}
                  rotated_secret).
Proof.
  exact (read_after_update sample_env (fun _ => true) sample_store sample_id sample_record
           (Some rotated_body) rotated_secret "2024-02-01T08:00:00.000Z" _ second_salt
           second_iv sample_store_account eq_refl rotated_parsed sample_master_key
           second_iv_length).
Defined.

Lemma empty_listed : get_accounts sample_env ∅ (Some (JStr "u1")) = OK [].
Proof. reflexivity. Qed.

Lemma list_after_create_witness :
  exists l',
    get_accounts sample_env sample_store (Some (JStr "u1")) = OK l' /\
    l' ≡ₚ [summary_of_create sample_create sample_id "2024-01-01T12:00:00.000Z"].
Proof.
  exact (list_after_create sample_env (fun _ => true) (fun _ => OK tt) (fun _ => OK tt)
           ∅ sample_store (Some sample_create_body) sample_create sample_id
           "2024-01-01T12:00:00.000Z" sample_id sample_salt sample_iv []
           consistent_empty (lookup_empty _) sample_create_parsed sample_iv_nonempty
           (sample_created _ _) empty_listed).
Defined.

Lemma sample_opened_owner : owner sample_opened !! 0%nat = Some 1%nat.
Proof. vm_compute. reflexivity. Qed.

Lemma sample_opened_watcher : heap sample_opened !! 1%nat = Some (sample_watcher 0 None).
Proof. vm_compute. reflexivity. Qed.

Lemma sample_watcher_client (last : Z) (idle : option nat) :
  is_Some (client (sample_watcher last idle)).
Proof. now eexists. Qed.

Lemma first_fetch_from_baseline_witness :
  let st1 := imap_ready sample_opened 0%nat (Some 1001) in
  (exists w1, heap st1 !! 1%nat = Some w1 /\ lastUid w1 = baseline (Some 1001) /\
              sseClients w1 = sseClients (sample_watcher 0 None) /\
              client w1 = client (sample_watcher 0 None)) /\
  fetches (on_exists st1 0%nat)
    = <[fresh st1 := (1%nat, baseline (Some 1001) + 1)]> (fetches st1) /\
  (0%nat ∉ listening sample_opened -> on_exists sample_opened 0%nat = sample_opened).
Proof.
  exact (first_fetch_from_baseline sample_opened 0%nat 1%nat (sample_watcher 0 None)
           (Some 1001) sample_opened_owner sample_opened_watcher
           (sample_watcher_client _ _)).
Defined.

Lemma sample_watching_owner : owner sample_watching !! 0%nat = Some 1%nat.
Proof. vm_compute. reflexivity. Qed.

Lemma sample_watching_watcher :
  heap sample_watching !! 1%nat = Some (sample_watcher 1000 (Some 2%nat)).
Proof. vm_compute. reflexivity. Qed.

Lemma sample_watching_registered : watchers sample_watching !! sample_id = Some 1%nat.
Proof. vm_compute. reflexivity. Qed.

Lemma imap_failed_detaches_witness :
  let w := sample_watcher 1000 (Some 2%nat) in
  let st1 := imap_failed sample_watching 0%nat "Connection closed" in
  written st1
  = (written sample_watching
       ++ map (fun res => (res, ErrorEvent "Connection closed")) (elements (sseClients w)))%list /\
  watchers st1 !! sample_id = None /\
  heap st1 !! 1%nat = Some (set_stopped w) /\
  (forall h, idleTimer w = Some h -> timers st1 !! h = None) /\
  forall cfg, watch_config sample_env st1 sample_id = OK cfg ->
    exists wid' w',
      lookup_watcher (fst (ensureWatcher sample_env st1 sample_id)) sample_id
        = Some (wid', w') /\
      snd (ensureWatcher sample_env st1 sample_id) = OK wid' /\
      sseClients w' = ∅ /\ lastUid w' = 0.
Proof.
  exact (imap_failed_detaches sample_env sample_watching 0%nat 1%nat
           (sample_watcher 1000 (Some 2%nat)) "Connection closed" sample_watching_owner
           sample_watching_watcher sample_watching_registered eq_refl).
Defined.
